(** * kindle-ai-export: extraction state machine and transcription pipeline

    A shallow embedding of the TypeScript sources

    - [src/utils.ts]: [sanitizeDirname], [deromanize];
    - [src/extract-kindle-book.ts]: [parsePageNav], the reading of the table
      of contents, [parseTocItems], the offline check, the resume block, the
      capture loop and the verification summary of [main];
    - the transcription script: [calculateBackoffDelay], [isRetryableError],
      the attempt loop of a screenshot and the merge of the content manifest;
    - the export script: the sections of the markdown output,

    followed by the properties the specification states about them and by
    further properties of the code.

    Conventions.  A JavaScript string is the list of its UTF-16 code units
    ([list N]); [Js.lit] turns an ASCII literal into one.  JavaScript numbers
    that hold page counts and indices are integers ([Z]); the two places where
    the sources divide or multiply by a fraction are modelled over the
    rationals ([Q]) and say so.  A [try]/[catch] is an explicit [Result]; the
    browser session is an abstract state machine ([PageSource]) threaded
    through the loops; a loop that the source bounds is a structural recursion
    on its bound, a loop that the source leaves unbounded ([while (true)])
    takes fuel and returns [None] when the fuel runs out. *)

From Stdlib Require Import ZArith NArith QArith Qpower Qminmax Lia Lqa.
From Stdlib Require Import Strings.String Strings.Ascii.
From Stdlib Require Import DecimalPos DecimalN.
From stdpp Require Import base list gmap sorting.

Close Scope Q_scope.
Open Scope Z_scope.

(* ===================================================================== *)
(** * Part I: the program                                                 *)
(* ===================================================================== *)

(** ** Exceptions and files *)

(** The value of an expression that may throw; the payload of [Throw] is the
    message of the assertion or exception. *)
Inductive Result (A : Type) : Type :=
| Ok (a : A)
| Throw (message : string).
Arguments Ok {A} a.
Arguments Throw {A} message.

(** The text of a JSON file on disk, seen through [JSON.parse]: either it does
    not parse, or it denotes a value of type [V].  [JSON.stringify] is a
    function of the value and [JSON.parse (JSON.stringify v)] is [v] again for
    the manifests written here (arrays of records of finite numbers and
    strings), so a file written by the program is represented by the value
    that was written, and two files holding the same value have the same
    bytes.  A file that does not exist is [None : option (FileText V)]. *)
Inductive FileText (V : Type) : Type :=
| BadJson
| Json (v : V).
Arguments BadJson {V}.
Arguments Json {V} v.

(** [fs.readFile(path, 'utf8')] *)
Definition readFile {V} (file : option (FileText V)) : Result (FileText V) :=
  match file with
  | Some text => Ok text
  | None => Throw "ENOENT: no such file or directory"
  end.

(** [JSON.parse(text)] *)
Definition jsonParse {V} (text : FileText V) : Result V :=
  match text with
  | Json v => Ok v
  | BadJson => Throw "SyntaxError: Unexpected token in JSON"
  end.

(** [fileExists(path)] of [utils.ts]: [fs.access] did not throw. *)
Definition fileExists {V} (file : option (FileText V)) : bool :=
  match file with Some _ => true | None => false end.

(** ** JavaScript strings *)

Module Js.

(** An ASCII literal as a sequence of code units. *)
Definition lit (s : string) : list N := N_of_ascii <$> list_ascii_of_string s.

(** The code units matched by the regular-expression class [\s], which are
    also the ones [String.prototype.trim] strips: WhiteSpace (TAB, VT, FF,
    SP, NBSP, ZWNBSP and the other space separators) and LineTerminator
    (LF, CR, LS, PS). *)
Definition isWhiteSpace (c : N) : bool :=
  bool_decide (c ∈ [9; 10; 11; 12; 13; 32; 160; 5760; 8232; 8233; 8239; 8287;
                    12288; 65279]%N)
  || ((8192 <=? c)%N && (c <=? 8202)%N).

(** [\d]: the ten ASCII digits. *)
Definition isDigit (c : N) : bool := (48 <=? c)%N && (c <=? 57)%N.

(** Canonicalisation of a code unit under the [i] flag (no [u] flag), as far
    as matching against an ASCII pattern can tell: ASCII letters are compared
    in upper case, and a code unit above 127 never canonicalises to an ASCII
    one, so it is left alone. *)
Definition canonicalize (c : N) : N :=
  if (97 <=? c)%N && (c <=? 122)%N then (c - 32)%N else c.

Definition ciEqb (a b : N) : bool := (canonicalize a =? canonicalize b)%N.

(** [pat] matches at the start of [s], ignoring ASCII case. *)
Fixpoint ciPrefix (pat s : list N) : bool :=
  match pat, s with
  | [], _ => true
  | _ :: _, [] => false
  | p :: pat', c :: s' => ciEqb p c && ciPrefix pat' s'
  end.

(** [/pat/i.test(s)]: [pat] matches at some position of [s]. *)
Fixpoint ciSearch (pat s : list N) : bool :=
  ciPrefix pat s ||
  match s with
  | [] => false
  | _ :: s' => ciSearch pat s'
  end.

(** [/^pat$/i.test(s)]: without the [m] flag the anchors are the two ends. *)
Fixpoint ciExact (pat s : list N) : bool :=
  match pat, s with
  | [], [] => true
  | p :: pat', c :: s' => ciEqb p c && ciExact pat' s'
  | _, _ => false
  end.

(** [/pat$/i.test(s)]. *)
Fixpoint ciSuffix (pat s : list N) : bool :=
  ciExact pat s ||
  match s with
  | [] => false
  | _ :: s' => ciSuffix pat s'
  end.

(** [`${n}`] for a non-negative integer: its decimal digits. *)
Fixpoint uintDigits (d : Decimal.uint) : list N :=
  match d with
  | Decimal.Nil => []
  | Decimal.D0 d' => 48%N :: uintDigits d'
  | Decimal.D1 d' => 49%N :: uintDigits d'
  | Decimal.D2 d' => 50%N :: uintDigits d'
  | Decimal.D3 d' => 51%N :: uintDigits d'
  | Decimal.D4 d' => 52%N :: uintDigits d'
  | Decimal.D5 d' => 53%N :: uintDigits d'
  | Decimal.D6 d' => 54%N :: uintDigits d'
  | Decimal.D7 d' => 55%N :: uintDigits d'
  | Decimal.D8 d' => 56%N :: uintDigits d'
  | Decimal.D9 d' => 57%N :: uintDigits d'
  end.

Definition toString (n : Z) : list N := uintDigits (N.to_uint (Z.to_N n)).

(** [s.padStart(width, '0')]. *)
Definition padStart0 (width : nat) (s : list N) : list N :=
  replicate (width - length s)%nat 48%N ++ s.

(** [Number.parseInt(s, 10)] on a string of digits (the only strings the
    sources hand to it are [\d+] captures). *)
Definition parseDigits (s : list N) : Z :=
  fold_left (fun acc c => 10 * acc + (Z.of_N c - 48)) s 0.

(** The longest prefix of digits and what follows it ([\d*], greedy). *)
Fixpoint spanDigits (s : list N) : list N * list N :=
  match s with
  | c :: s' =>
      if isDigit c then let '(ds, rest) := spanDigits s' in (c :: ds, rest)
      else ([], s)
  | [] => ([], [])
  end.

(** [s.endsWith(suffix)]. *)
Definition endsWith (suffix s : list N) : bool :=
  bool_decide (drop (length s - length suffix)%nat s = suffix)
  && bool_decide (length suffix ≤ length s)%nat.

End Js.

(** ** [src/utils.ts] *)

Module Utils.

(** The character class of the first [replaceAll]: the quote, [*], [/], [:],
    [<], [>], [?], the backslash and [|]. *)
Definition forbiddenChars : list N := [34; 42; 47; 58; 60; 62; 63; 92; 124]%N.

Definition removeForbidden (s : list N) : list N :=
  filter (fun c => c ∉ forbiddenChars) s.

(** [replaceAll(/\s+/g, ' ')]: every maximal run of white space becomes one
    space; [inRun] records that the previous code unit was white space. *)
Fixpoint collapseWs (inRun : bool) (s : list N) : list N :=
  match s with
  | [] => []
  | c :: t =>
      if Js.isWhiteSpace c
      then (if inRun then collapseWs true t else 32%N :: collapseWs true t)
      else c :: collapseWs false t
  end.

Fixpoint trimStart (s : list N) : list N :=
  match s with
  | c :: t => if Js.isWhiteSpace c then trimStart t else s
  | [] => []
  end.

Fixpoint trimEnd (s : list N) : list N :=
  match s with
  | c :: t =>
      match trimEnd t with
      | [] => if Js.isWhiteSpace c then [] else [c]
      | t' => c :: t'
      end
  | [] => []
  end.

Definition trim (s : list N) : list N := trimEnd (trimStart s).

(** [name.replaceAll(forbidden, '').replaceAll(/\s+/g, ' ').trim().slice(0, 128)] *)
Definition sanitizeDirname (name : list N) : list N :=
  take 128 (trim (collapseWs false (removeForbidden name))).

End Utils.

(** ** [src/extract-kindle-book.ts]: the table of contents *)

Module Toc.

(** [interface PageNav { page?: number; location?: number; total: number }],
    the value of [parsePageNav] on the footer text. *)
Record PageNav := {
  navPage : option Z;
  navLocation : option Z;
  navTotal : Z }.

(** [interface TocItem extends PageNav { title: string; locator?: Locator }].
    The locator is the handle of the entry in the reader and plays no part
    below.  Every entry carries a position (line 388 asserts it); the position
    has kind page exactly when [page] is defined. *)
Record TocItem := {
  title : list N;
  page : option Z;
  location : option Z;
  total : Z }.

(** [percentage < 0.9] where [percentage = item.page / item.total].  The
    operands are integers parsed from digits.  For [0 <= page] and
    [0 < total < 2^51] the correctly rounded quotient is below the double
    nearest to 0.9 exactly when [page / total < 9/10], that is when
    [10 * page < 9 * total]; for [total = 0] the quotient is [Infinity] or
    [NaN], and neither is below 0.9. *)
Definition belowNinetyPercent (page total : Z) : bool :=
  if total =? 0 then false else 10 * page <? 9 * total.

(** The thirteen regular expressions of lines 836 to 848, in their order. *)
Definition isBackMatterTitle (t : list N) : bool :=
  Js.ciSearch (Js.lit "acknowledgements") t
  || Js.ciExact (Js.lit "discover more") t
  || Js.ciExact (Js.lit "extras") t
  || Js.ciSearch (Js.lit "about the author") t
  || Js.ciSearch (Js.lit "meet the author") t
  || Js.ciPrefix (Js.lit "also by ") t
  || Js.ciExact (Js.lit "copyright") t
  || Js.ciSuffix (Js.lit " teaser") t
  || Js.ciSuffix (Js.lit " preview") t
  || Js.ciPrefix (Js.lit "excerpt from") t
  || Js.ciExact (Js.lit "cast of characters") t
  || Js.ciExact (Js.lit "timeline") t
  || Js.ciPrefix (Js.lit "other titles") t.

(** [array.find(callback)], keeping the position of the element found.  The
    entries of [tocItems] are distinct objects (each is a fresh literal pushed
    at line 390), so the identity test [item === firstPageTocItem] of the
    second callback is a test on positions. *)
Fixpoint findFrom {A} (callback : nat -> A -> bool) (i : nat) (l : list A)
  : option (nat * A) :=
  match l with
  | [] => None
  | x :: l' => if callback i x then Some (i, x) else findFrom callback (S i) l'
  end.

Definition hasPage (item : TocItem) : bool :=
  match page item with Some _ => true | None => false end.

(** The callback of the second [find] (lines 829 to 851). *)
Definition isAfterLastPage (firstIndex : nat) (i : nat) (item : TocItem) : bool :=
  match page item with
  | None => false
  | Some p =>
      if bool_decide (i = firstIndex) then false
      else if belowNinetyPercent p (total item) then false
      else isBackMatterTitle (title item)
  end.

Record ParsedToc := {
  firstPageTocItem : TocItem;
  afterLastPageTocItem : option TocItem }.

Definition parseTocItems (tocItems : list TocItem) : Result ParsedToc :=
  match findFrom (fun _ item => hasPage item) 0 tocItems with
  | None => Throw "Unable to find first valid page in TOC"
  | Some (firstIndex, first) =>
      Ok {| firstPageTocItem := first;
            afterLastPageTocItem :=
              snd <$> findFrom (isAfterLastPage firstIndex) 0 tocItems |}
  end.

(** Lines 444 to 454: [Math.min(afterLast?.page ? afterLast.page : total, total)]
    with [total = firstPageTocItem.total]; a page of 0 is falsy. *)
Definition totalContentPages (parsedToc : ParsedToc) : Z :=
  let total := total (firstPageTocItem parsedToc) in
  Z.min
    (match afterLastPageTocItem parsedToc with
     | Some item =>
         match page item with
         | Some p => if p =? 0 then total else p
         | None => total
         end
     | None => total
     end)
    total.

End Toc.

(** ** The transcription script *)

Module Transcribe.

(** [ContentChunk] of [types.ts], as line 274 builds it. *)
Record ContentChunk := {
  index : Z;
  page : Z;
  text : list N;
  screenshot : list N }.

#[export] Instance ContentChunk_eq_dec : EqDecision ContentChunk.
Proof. solve_decision. Defined.

(** *** Backoff *)

(** [calculateBackoffDelay(attempt, baseDelay, maxDelay)], in exact rational
    arithmetic; [random] is the value of [Math.random()], a number in
    [0, 1).  [Math.pow(2, attempt - 1)] is a power of two and
    [baseDelay * Math.pow(2, attempt - 1)] an integer that doubles represent
    exactly for the attempts the program makes. *)
Definition calculateBackoffDelayWith (attempt : Z) (baseDelay maxDelay : Q)
    (random : Q) : Q :=
  let exponentialDelay := (baseDelay * 2 ^ (attempt - 1))%Q in
  let jitter := (random * (1 # 10) * exponentialDelay)%Q in
  Qmin (exponentialDelay + jitter)%Q maxDelay.

(** The call the program makes: [baseDelay = 1000], [maxDelay = 30_000]. *)
Definition calculateBackoffDelay (attempt : Z) (random : Q) : Q :=
  calculateBackoffDelayWith attempt 1000 30000 random.

(** *** Retry classification *)

(** What [isRetryableError] reads of the value it is given. *)
Record ApiError := {
  status : option Z;
  type : option (list N);
  code : option (list N) }.

(** [isRetryableError(error)]; [None] is a falsy [error]. *)
Definition isRetryableError (error : option ApiError) : bool :=
  match error with
  | None => false
  | Some e =>
      if bool_decide (status e = Some 429) then true
      else if match status e with
              | Some s => (500 <=? s) && (s <? 600)
              | None => false
              end then true
      else if bool_decide (type e = Some (Js.lit "insufficient_quota")) then false
      else if bool_decide (type e = Some (Js.lit "invalid_request_error")) then false
      else if bool_decide (code e = Some (Js.lit "ECONNRESET"))
              || bool_decide (code e = Some (Js.lit "ENOTFOUND"))
              || bool_decide (code e = Some (Js.lit "ECONNREFUSED")) then true
      else false
  end.

(** *** One screenshot *)

(** The outcome of one [openai.createChatCompletion] call: the content of the
    first choice, or the value thrown.  A reply without content makes
    [rawText.replace] throw a [TypeError] inside the same [try]; that is
    [Rejected] with an error that has no status, type or code. *)
Inductive Response :=
| Completion (rawText : list N)
| Rejected (err : option ApiError).

Definition maxRetries : nat := 20.

(** [text.length < 100 && /i'm sorry/i.test(text)] *)
Definition isRefusal (text : list N) : bool :=
  bool_decide (length text < 100)%nat && Js.ciSearch (Js.lit "i'm sorry") text.

(** The capture groups of
    [screenshot.match(/(?:^|\/)\d*-?(\d+)-(\d+)\.png$/)].  What follows the
    start or a slash may hold no further slash, so the match starts at the
    base name.  Backtracking gives the greedy [\d*] all digits of the first
    number and the optional dash when a third number follows
    ([7-0012-0034.png]: groups [0012] and [0034]); when only two numbers are
    there ([0012-0034.png]) the dash must be left to the pattern, and [\d*]
    gives back one digit so that the first group is not empty: the groups are
    [2] and [0034]. *)
Fixpoint basename (s : list N) : list N :=
  match s with
  | [] => []
  | c :: t =>
      if (c =? 47)%N then basename t
      else if bool_decide (47%N ∈ t) then basename t
      else s
  end.

Definition matchScreenshot (path : list N) : option (list N * list N) :=
  let '(d0, r0) := Js.spanDigits (basename path) in
  match r0 with
  | 45%N :: r1 =>
      let '(d1, r1') := Js.spanDigits r1 in
      match d1, r1' with
      | [], _ => None
      | _ :: _, 45%N :: r2 =>
          let '(d2, r2') := Js.spanDigits r2 in
          match d2 with
          | [] => None
          | _ :: _ =>
              if bool_decide (r2' = Js.lit ".png") then Some (d1, d2) else None
          end
      | _ :: _, _ =>
          if bool_decide (r1' = Js.lit ".png")
          then (fun c => ([c], d1)) <$> last d0
          else None
      end
  | _ => None
  end.

Section Pipeline.

(** The three rewrites of [rawText] (lines 237 to 241), which strip a leading
    page-number line and the white space around every line.  The loop only
    asks whether the result is empty and whether it reads as a refusal. *)
Variable normalize : list N -> list N.

(** The text-recognition service: [recognize s n] is the reply to the call
    made for screenshot [s] when [retries = n] (the prompt and the temperature
    of a call are functions of [retries]). *)
Variable recognize : list N -> nat -> Response.

(** The [while (retries < maxRetries)] loop of lines 210 to 303 for one
    screenshot, by recursion on [maxRetries - retries].  [Some text] is the
    chunk text returned at line 282; [None] is any of the throws, all of which
    end in the [catch] of line 306, where the mapper returns [undefined].
    The waits ([sleep (calculateBackoffDelay retries)]) change no value. *)
Fixpoint attemptLoop (screenshot : list N) (remaining : nat) : option (list N) :=
  match remaining with
  | O => None
  | S remaining' =>
      let retries := (maxRetries - remaining)%nat in
      match recognize screenshot retries with
      | Completion rawText =>
          let text := normalize rawText in
          if bool_decide (text = []) then
            let retries := S retries in
            if bool_decide (retries < maxRetries)%nat
            then attemptLoop screenshot remaining'
            else None
          else if isRefusal text then
            let retries := S retries in
            if bool_decide (maxRetries ≤ retries)%nat
            then None
            else attemptLoop screenshot remaining'
          else Some text
      | Rejected err =>
          let retries := S retries in
          if negb (isRetryableError err) || bool_decide (maxRetries ≤ retries)%nat
          then None
          else attemptLoop screenshot remaining'
      end
  end.

(** The mapper handed to [pMap] (lines 189 to 309).  The file-name assertion
    stands outside the [try]: when it fails the mapper rejects. *)
Definition transcribeScreenshot (screenshot : list N)
  : Result (option ContentChunk) :=
  match matchScreenshot screenshot with
  | None => Throw "invalid screenshot filename"
  | Some (g1, g2) =>
      Ok ((fun t => {| index := Js.parseDigits g1;
                       page := Js.parseDigits g2;
                       text := t;
                       screenshot := screenshot |})
            <$> attemptLoop screenshot maxRetries)
  end.

(** [pMap(inputs, mapper, { concurrency: 16 })]: the results in the order of
    the inputs, whatever the order of completion; it rejects when a mapper
    rejects. *)
Fixpoint pMap {A B} (mapper : A -> Result B) (inputs : list A) : Result (list B) :=
  match inputs with
  | [] => Ok []
  | x :: inputs' =>
      match mapper x, pMap mapper inputs' with
      | Ok y, Ok ys => Ok (y :: ys)
      | Throw m, _ => Throw m
      | _, Throw m => Throw m
      end
  end.

(** [(a, b) => a.index - b.index || a.page - b.page] *)
Definition compareChunks (a b : ContentChunk) : Z :=
  if index a - index b =? 0 then page a - page b else index a - index b.

(** [Array.prototype.sort] is stable, and [compareChunks] is a consistent
    comparator, so the sorted array is determined: equal elements keep their
    order.  Insertion from the right computes it. *)
Fixpoint insertSorted (x : ContentChunk) (l : list ContentChunk) : list ContentChunk :=
  match l with
  | [] => [x]
  | y :: l' => if compareChunks x y <=? 0 then x :: l else y :: insertSorted x l'
  end.

Definition sortChunks (l : list ContentChunk) : list ContentChunk :=
  foldr insertSorted [] l.

(** Lines 153 to 160: a missing file, a file that does not parse and a value
    that is no array all leave [existingContent] empty. *)
Definition loadExistingContent
    (contentFile : option (FileText (option (list ContentChunk))))
  : list ContentChunk :=
  match readFile contentFile with
  | Throw _ => []
  | Ok existingRaw =>
      match jsonParse existingRaw with
      | Throw _ => []
      | Ok (Some parsed) => parsed
      | Ok None => []
      end
  end.

(** How [main] ends: an uncaught exception, or the array written to
    [content.json] together with the array printed on the console. *)
Inductive Outcome :=
| Aborted (message : string)
| Wrote (manifest : list ContentChunk) (printed : list ContentChunk).

(** [main] from line 148 on: [pageScreenshots] is the result of the glob,
    [contentFile] the state of [content.json].  A JSON value is [Some chunks]
    when it is an array and [None] otherwise.  The files the glob lists can
    be read ([fs.readFile] at line 190 does not throw). *)
Definition main (pageScreenshots : list (list N))
    (contentFile : option (FileText (option (list ContentChunk)))) : Outcome :=
  match pageScreenshots with
  | [] => Aborted "no page screenshots found"
  | _ :: _ =>
      let existingContent := loadExistingContent contentFile in
      let processedScreenshots : gset (list N) :=
        list_to_set (screenshot <$> existingContent) in
      let screenshotsToProcess :=
        filter (fun s => s ∉ processedScreenshots) pageScreenshots in
      match screenshotsToProcess with
      | [] => Wrote (sortChunks existingContent) existingContent
      | _ :: _ =>
          match pMap transcribeScreenshot screenshotsToProcess with
          | Throw m => Aborted m
          | Ok results =>
              let content := omap id results in
              let merged := sortChunks (existingContent ++ content) in
              Wrote merged merged
          end
      end
  end.

(** [content.json] after [main]. *)
Definition contentAfter
    (contentFile : option (FileText (option (list ContentChunk))))
    (outcome : Outcome) : option (FileText (option (list ContentChunk))) :=
  match outcome with
  | Aborted _ => contentFile
  | Wrote manifest _ => Some (Json (Some manifest))
  end.

End Pipeline.

End Transcribe.

(** ** [src/extract-kindle-book.ts]: resume, capture, verification *)

Module Extract.

(** [PageChunk] of [types.ts], as lines 566 and 615 build it. *)
Record PageChunk := {
  index : Z;
  page : Z;
  total : Z;
  screenshot : list N }.

(** What the program reads of an existing [metadata.json]:
    [meta?.totalPages] and [pages]. *)
Record BookMetadata := {
  totalPages : option Z;
  pages : option (list PageChunk) }.

(** The capture groups of [f.match(/^(\d+)-(\d+)\.png$/)]. *)
Definition matchPageFile (f : list N) : option (list N * list N) :=
  let '(d1, r1) := Js.spanDigits f in
  match d1, r1 with
  | _ :: _, 45%N :: r2 =>
      let '(d2, r3) := Js.spanDigits r2 in
      match d2 with
      | [] => None
      | _ :: _ => if bool_decide (r3 = Js.lit ".png") then Some (d1, d2) else None
      end
  | _, _ => None
  end.

(** [pngFiles.map(f => match ? parseInt(match[2], 10) : 0).filter(p => p > 0)] *)
Definition pageNumbersOf (pngFiles : list (list N)) : list Z :=
  filter (fun p => 0 < p)
    ((fun f => match matchPageFile f with
               | Some (_, g2) => Js.parseDigits g2
               | None => 0
               end) <$> pngFiles).

(** [screenshotFiles.filter(f => f.endsWith('.png'))] *)
Definition pngFilesOf (screenshotFiles : list (list N)) : list (list N) :=
  filter (fun f => Js.endsWith (Js.lit ".png") f = true) screenshotFiles.

(** [Math.max(...pageNumbers)]; the program calls it on non-empty arrays. *)
Definition maximum (l : list Z) : Z :=
  match l with
  | [] => 0
  | x :: l' => fold_left Z.max l' x
  end.

(** The offline check of lines 69 to 191: [true] when [main] returns at line
    172 or 180 (the extraction appears complete). *)
Definition appearsComplete (force : bool)
    (metadataFile : option (FileText BookMetadata))
    (readdir : Result (list (list N))) : bool :=
  if negb force && fileExists metadataFile then
    match readFile metadataFile with
    | Throw _ => false
    | Ok raw =>
        match jsonParse raw with
        | Throw _ => false
        | Ok existingMetadata =>
            let existingPages := default [] (pages existingMetadata) in
            let expectedPages :=
              match totalPages existingMetadata with
              | Some t => if t =? 0 then Z.of_nat (length existingPages) else t
              | None => Z.of_nat (length existingPages)
              end in
            let '(actualScreenshots, lastPage) :=
              match readdir with
              | Throw _ => (0, 0)
              | Ok screenshotFiles =>
                  let pngFiles := pngFilesOf screenshotFiles in
                  (Z.of_nat (length pngFiles), maximum (pageNumbersOf pngFiles))
              end in
            let extractedPages :=
              Z.max (Z.of_nat (length existingPages)) actualScreenshots in
            if (0 <? lastPage) && (expectedPages <=? lastPage) then true
            else expectedPages <=? extractedPages
        end
    end
  else false.

(** The state in which the resume block of lines 461 to 525 leaves [pages]
    and [startPage]. *)
Record Resume := {
  resumedPages : list PageChunk;
  startPage : Z }.

Definition resume (force : bool)
    (metadataFile : option (FileText BookMetadata))
    (readdir : Result (list (list N))) : Resume :=
  let fresh := {| resumedPages := []; startPage := 1 |} in
  if negb force && fileExists metadataFile then
    match readFile metadataFile with
    | Throw _ => fresh
    | Ok raw =>
        match jsonParse raw with
        | Throw _ => fresh
        | Ok existingMetadata =>
            let pages := default [] (pages existingMetadata) in
            let '(actualScreenshots, lastExtractedPage) :=
              match readdir with
              | Throw _ => (0, 0)
              | Ok screenshotFiles =>
                  let pngFiles := pngFilesOf screenshotFiles in
                  (Z.of_nat (length pngFiles), maximum (pageNumbersOf pngFiles))
              end in
            let extractedPages := Z.max (Z.of_nat (length pages)) actualScreenshots in
            if 0 <? extractedPages then
              {| resumedPages :=
                   if Z.of_nat (length pages) <? actualScreenshots then [] else pages;
                 startPage :=
                   if 0 <? lastExtractedPage then lastExtractedPage + 1
                   else extractedPages + 1 |}
            else {| resumedPages := pages; startPage := 1 |}
        end
    end
  else fresh.

(** *** The page source *)

(** The reader in the browser, as the capture loop uses it.  [World] is the
    state of the remote session; every call returns its answer, or throws,
    and leaves a new state.  [getPageNav] is [parsePageNav] of the footer
    text; [getSrc] reads the [src] attribute of the page image, which is a
    string or [null]. *)
Record PageSource := {
  World : Type;
  getPageNav : World -> Result (option Toc.PageNav) * World;
  goToPage : Z -> World -> Result unit * World;
  clickNext : World -> Result unit * World;
  getSrc : World -> Result (option (list N)) * World;
  takeScreenshot : World -> Result unit * World }.

(** The verification block of lines 688 to 716. *)
Inductive Verdict := Warning | Success | Information.

Record Summary := {
  expectedPages : Z;
  extractedPages : Z;
  missingPages : Z;
  verdict : Verdict }.

(** What the run does to the outside, in order. *)
Inductive Event :=
| NextPageRequest
| SrcRead
| Delay (ms : Z)
| ScreenshotSkipped (page : Z)
| ScreenshotWritten (name : list N)
| VerificationSummary (summary : Summary)
| ManifestWritten (pages : list PageChunk).

(** How an advance loop ends. *)
Inductive AdvanceEnd :=
| SrcChanged
| NoFurtherPage
| RetriesExhausted
| BoundaryReached
| Uncaught (message : string).

#[export] Instance PageChunk_eq_dec : EqDecision PageChunk.
Proof. solve_decision. Defined.
#[export] Instance Verdict_eq_dec : EqDecision Verdict.
Proof. solve_decision. Defined.
#[export] Instance Summary_eq_dec : EqDecision Summary.
Proof. solve_decision. Defined.
#[export] Instance Event_eq_dec : EqDecision Event.
Proof. solve_decision. Defined.

(** The number of times [e] occurs among [events]. *)
Definition occurrences (e : Event) (events : list Event) : nat :=
  length (filter (fun x => x = e) events).

Section Capture.

Variable ps : PageSource.

(** The advance loop of the skip path (lines 577 to 601), bounded by
    [retries < 10]; [remaining] is [10 - retries].  Every exception is caught
    and ends the loop. *)
Fixpoint skipAdvance (remaining retries : nat) (w : World ps)
  : AdvanceEnd * World ps * list Event :=
  match remaining with
  | O => (RetriesExhausted, w, [])
  | S remaining' =>
      let '(clicked, w1, e1) :=
        if bool_decide (retries `mod` 10 = 0)%nat
        then let '(r, w1) := clickNext ps w in (r, w1, [NextPageRequest])
        else (Ok (), w, []) in
      match clicked with
      | Throw _ => (NoFurtherPage, w1, e1)
      | Ok _ =>
          match getSrc ps w1 with
          | (Throw _, w2) => (NoFurtherPage, w2, e1 ++ [SrcRead])
          | (Ok newSrc, w2) =>
              match getSrc ps w2 with
              | (Throw _, w3) => (NoFurtherPage, w3, e1 ++ [SrcRead; SrcRead])
              | (Ok currentSrc, w3) =>
                  if bool_decide (newSrc ≠ currentSrc)
                  then (SrcChanged, w3, e1 ++ [SrcRead; SrcRead])
                  else
                    let '(r, w4, e4) := skipAdvance remaining' (S retries) w3 in
                    (r, w4, e1 ++ [SrcRead; SrcRead; Delay 100] ++ e4)
              end
          end
      end
  end.

(** The advance loop of the capture path (lines 635 to 681): [do ... while
    (true)].  [src] was read before the screenshot; [atBoundary] is
    [pageNav.page >= totalContentPages].  Only the click is inside the [try];
    an exception of the read is not caught.  [None]: the fuel ran out. *)
Fixpoint advance (fuel : nat) (src : option (list N)) (atBoundary : bool)
    (retries : nat) (w : World ps)
  : option (AdvanceEnd * World ps * list Event) :=
  match fuel with
  | O => None
  | S fuel' =>
      let '(clicked, w1, e1) :=
        if bool_decide (retries `mod` 10 = 0)%nat
        then let '(r, w1) := clickNext ps w in (r, w1, [NextPageRequest])
        else (Ok (), w, []) in
      match clicked with
      | Throw _ => Some (NoFurtherPage, w1, e1)
      | Ok _ =>
          match getSrc ps w1 with
          | (Throw m, w2) => Some (Uncaught m, w2, e1 ++ [SrcRead])
          | (Ok newSrc, w2) =>
              if bool_decide (newSrc ≠ src)
              then Some (SrcChanged, w2, e1 ++ [SrcRead])
              else if atBoundary
              then Some (BoundaryReached, w2, e1 ++ [SrcRead])
              else
                match advance fuel' src atBoundary (S retries) w2 with
                | None => None
                | Some (r, w3, e3) =>
                    Some (r, w3, e1 ++ [SrcRead; Delay 100] ++ e3)
                end
          end
      end
  end.

(** The variables of [main] that the capture loop changes, with the listing
    of the pages directory and the events so far. *)
Record Session := {
  world : World ps;
  sessionPages : list PageChunk;
  files : list (list N);
  trace : list Event }.

Variable force : bool.
Variable pagesDir : list N.
Variable pagePadding : nat.
Variable totalContentPages : Z.

(** The file name of lines 553 to 559, without the directory. *)
Definition screenshotName (index : nat) (page : Z) : list N :=
  Js.padStart0 pagePadding (Js.toString (Z.of_nat index))
  ++ Js.lit "-"
  ++ Js.padStart0 pagePadding (Js.toString page)
  ++ Js.lit ".png".

Definition screenshotPath (index : nat) (page : Z) : list N :=
  pagesDir ++ Js.lit "/" ++ screenshotName index page.

(** The capture loop of lines 543 to 682: [do ... while (true)].  [None]: the
    fuel ran out; [Some (Throw _)]: an exception left [main]; [Some (Ok _)]:
    one of the two [break]s at the top ended the loop. *)
Fixpoint captureLoop (fuel : nat) (s : Session) : option (Result Session) :=
  match fuel with
  | O => None
  | S fuel' =>
      match getPageNav ps (world s) with
      | (Throw m, _) => Some (Throw m)
      | (Ok pageNav, w1) =>
          let stopped := {| world := w1; sessionPages := sessionPages s;
                            files := files s; trace := trace s |} in
          match pageNav with
          | None => Some (Ok stopped)
          | Some nav =>
              match Toc.navPage nav with
              | None => Some (Ok stopped)
              | Some p =>
                  if totalContentPages <=? p then Some (Ok stopped)
                  else
                    let index := length (sessionPages s) in
                    let chunk := {| index := Z.of_nat index;
                                    page := p;
                                    total := Toc.navTotal nav;
                                    screenshot := screenshotPath index p |} in
                    if negb force && bool_decide (screenshotName index p ∈ files s)
                    then
                      let '(_, w2, e2) := skipAdvance 10 0 w1 in
                      captureLoop fuel'
                        {| world := w2;
                           sessionPages := sessionPages s ++ [chunk];
                           files := files s;
                           trace := trace s ++ [ScreenshotSkipped p] ++ e2 |}
                    else
                      match getSrc ps w1 with
                      | (Throw m, _) => Some (Throw m)
                      | (Ok src, w2) =>
                          match takeScreenshot ps w2 with
                          | (Throw m, _) => Some (Throw m)
                          | (Ok _, w3) =>
                              let written :=
                                {| world := w3;
                                   sessionPages := sessionPages s ++ [chunk];
                                   files := files s ++ [screenshotName index p];
                                   trace :=
                                     trace s
                                     ++ [ScreenshotWritten (screenshotName index p);
                                         Delay 100] |} in
                              if totalContentPages <=? p then Some (Ok written)
                              else
                                match advance fuel' src (totalContentPages <=? p)
                                        0 w3 with
                                | None => None
                                | Some (Uncaught m, _, _) => Some (Throw m)
                                | Some (_, w4, e4) =>
                                    captureLoop fuel'
                                      {| world := w4;
                                         sessionPages := sessionPages written;
                                         files := files written;
                                         trace := trace written ++ e4 |}
                                end
                          end
                      end
              end
          end
      end
  end.

End Capture.

(** Lines 688 to 716. *)
Definition verify (pages : list PageChunk) (totalContentPages : Z) : Summary :=
  let extractedPages := Z.of_nat (length pages) in
  let expectedPages := totalContentPages in
  let missingPages := expectedPages - extractedPages in
  {| expectedPages := expectedPages;
     extractedPages := extractedPages;
     missingPages := missingPages;
     verdict := if 0 <? missingPages then Warning
                else if extractedPages =? expectedPages then Success
                else Information |}.

(** *** The run *)

(** What a run finds: the [FORCE] flag, [metadata.json], the path and the
    listing of the pages directory ([None] when the directory is missing),
    and the table of contents read from the reader (lines 374 to 405). *)
Record Inputs := {
  force : bool;
  metadataFile : option (FileText BookMetadata);
  pagesDir : list N;
  dirListing : option (list (list N));
  tocItems : list Toc.TocItem }.

(** How [main] ends: at the offline check, with an exception, or after the
    verification with [metadata.json] written. *)
Inductive RunEnd :=
| AppearsComplete
| Failed (message : string)
| Finished (summary : Summary) (manifestPages : list PageChunk)
           (filesOnDisk : list (list N)) (events : list Event).

Definition readdir (listing : option (list (list N))) : Result (list (list N)) :=
  match listing with
  | Some names => Ok names
  | None => Throw "ENOENT: no such file or directory, scandir"
  end.

(** [main], from the offline check to the write of [metadata.json] (line
    760).  The directory of the book already carries the title, so it is not
    renamed and [metadataPath] keeps naming the manifest; the pages directory
    is created at line 196 when it is missing.  [w] is the reader once the
    session is open, the table of contents has been read and its first page
    entry opened (lines 201 to 458); a failure up to there is fatal and
    touches no manifest.  [info] and [meta] are blobs copied into the manifest
    and are left out.  [None]: the fuel ran out. *)
Definition run (ps : PageSource) (fuel : nat) (w : World ps) (i : Inputs)
  : option RunEnd :=
  if appearsComplete (force i) (metadataFile i) (readdir (dirListing i))
  then Some AppearsComplete
  else
    match Toc.parseTocItems (tocItems i) with
    | Throw m => Some (Failed m)
    | Ok parsedToc =>
        let total := Toc.total (Toc.firstPageTocItem parsedToc) in
        let pagePadding := length (Js.toString (total * 2)) in
        let totalContentPages := Toc.totalContentPages parsedToc in
        if totalContentPages <=? 0 then Some (Failed "No content pages found")
        else
          let listing := default [] (dirListing i) in
          let resumed := resume (force i) (metadataFile i) (Ok listing) in
          let '(moved, w1) :=
            if 1 <? startPage resumed then goToPage ps (startPage resumed) w
            else (Ok (), w) in
          match moved with
          | Throw m => Some (Failed m)
          | Ok _ =>
              match getPageNav ps w1 with
              | (Throw m, _) => Some (Failed m)
              | (Ok _, w2) =>
                  match captureLoop ps (force i) (pagesDir i) pagePadding
                          totalContentPages fuel
                          {| world := w2;
                             sessionPages := resumedPages resumed;
                             files := listing;
                             trace := [] |} with
                  | None => None
                  | Some (Throw m) => Some (Failed m)
                  | Some (Ok s) =>
                      let summary := verify (sessionPages ps s) totalContentPages in
                      Some (Finished summary (sessionPages ps s) (files ps s)
                              (trace ps s
                               ++ [VerificationSummary summary;
                                   ManifestWritten (sessionPages ps s)]))
                  end
              end
          end
    end.

End Extract.

(** ** [src/utils.ts]: roman numerals *)

Module Roman.

(** [const numerals = { I: 1, V: 5, X: 10, L: 50, C: 100, D: 500, M: 1000 }];
    [None] is [undefined], the value of a key that is not there. *)
Definition numerals (c : N) : option Z :=
  if (c =? 73)%N then Some 1
  else if (c =? 86)%N then Some 5
  else if (c =? 88)%N then Some 10
  else if (c =? 76)%N then Some 50
  else if (c =? 67)%N then Some 100
  else if (c =? 68)%N then Some 500
  else if (c =? 77)%N then Some 1000
  else None.

(** [s.toUpperCase()] on a string of ASCII code units.  (Outside ASCII the
    upper case of a character can be an ASCII letter; the one caller,
    [parsePageNav], passes a capture of [[cdilmvx]+], which is ASCII.) *)
Definition toUpperCase (s : list N) : list N := Js.canonicalize <$> s.

(** The [while (roman.length)] loop of [deromanize]: [roman.shift()] takes the
    first numeral, [roman[0]] is the next one.  A number is [Some z]; [None]
    is [NaN].  A comparison with [undefined] is false, a product with
    [undefined] is [NaN], and a sum with [NaN] is [NaN]. *)
Fixpoint deromanizeLoop (roman : list N) (num : option Z) : option Z :=
  match roman with
  | [] => num
  | c :: rest =>
      let val := numerals c in
      let sign :=
        match val, head rest ≫= numerals with
        | Some v, Some next => if v <? next then -1 else 1
        | _, _ => 1
        end in
      deromanizeLoop rest
        (match num, val with
         | Some n, Some v => Some (n + v * sign)
         | _, _ => None
         end)
  end.

(** [deromanize(romanNumeral)] *)
Definition deromanize (romanNumeral : list N) : option Z :=
  deromanizeLoop (toUpperCase romanNumeral) (Some 0).

End Roman.

(** ** [src/extract-kindle-book.ts]: the position parser *)

Module Position.

(** The longest prefix of code units in a class, and what follows it: a
    greedy [c*]. *)
Fixpoint span (class : N -> bool) (s : list N) : list N * list N :=
  match s with
  | c :: s' =>
      if class c then let '(run, rest) := span class s' in (c :: run, rest)
      else ([], s)
  | [] => ([], [])
  end.

(** What is left of [s] after the keyword [kw], matched without regard to
    ASCII case. *)
Definition afterKeyword (kw s : list N) : option (list N) :=
  if Js.ciPrefix kw s then Some (drop (length kw) s) else None.

(** What is left of [s] after [\s+]. *)
Definition afterSpaces (s : list N) : option (list N) :=
  match span Js.isWhiteSpace s with
  | ([], _) => None
  | (_ :: _, rest) => Some rest
  end.

(** A capture [(c+)] for a class [c], with what follows it. *)
Definition capture (class : N -> bool) (s : list N) : option (list N * list N) :=
  match span class s with
  | ([], _) => None
  | (run, rest) => Some (run, rest)
  end.

(** [[cdilmvx]] under the [i] flag. *)
Definition isRomanLetter (c : N) : bool :=
  bool_decide (Js.canonicalize c ∈ [67; 68; 73; 76; 77; 86; 88]%N).

(** A match of [kw \s+ (item+) \s+ of \s+ (\d+)] that starts at the first code
    unit of [s]: the two captures.  Each repetition is followed by a code
    unit outside its class, so the greedy choice is the only one that can
    match and no backtracking takes place. *)
Definition matchAt (kw : list N) (item : N -> bool) (s : list N)
  : option (list N * list N) :=
  r1 ← afterKeyword kw s;
  r2 ← afterSpaces r1;
  '(first, r3) ← capture item r2;
  r4 ← afterSpaces r3;
  r5 ← afterKeyword (Js.lit "of") r4;
  r6 ← afterSpaces r5;
  '(second, _) ← capture Js.isDigit r6;
  Some (first, second).

(** [text.match(/kw\s+(item+)\s+of\s+(\d+)/i)]: the leftmost match. *)
Fixpoint search (kw : list N) (item : N -> bool) (s : list N)
  : option (list N * list N) :=
  match matchAt kw item s with
  | Some groups => Some groups
  | None =>
      match s with
      | [] => None
      | _ :: s' => search kw item s'
      end
  end.

(** [parsePageNav(text)]; [None] is [null] as an argument and [undefined] as
    a result.  [Number.parseInt] reads a capture of [\d+] as a decimal
    number, so the [NaN] tests of the first two blocks never fire. *)
Definition parsePageNav (text : option (list N)) : option Toc.PageNav :=
  match text with
  | None => None
  | Some s =>
      match search (Js.lit "page") Js.isDigit s with
      | Some (g1, g2) =>
          Some {| Toc.navPage := Some (Js.parseDigits g1);
                  Toc.navLocation := None;
                  Toc.navTotal := Js.parseDigits g2 |}
      | None =>
          match search (Js.lit "location") Js.isDigit s with
          | Some (g1, g2) =>
              Some {| Toc.navPage := None;
                      Toc.navLocation := Some (Js.parseDigits g1);
                      Toc.navTotal := Js.parseDigits g2 |}
          | None =>
              match search (Js.lit "page") isRomanLetter s with
              | Some (g1, g2) =>
                  match Roman.deromanize g1 with
                  | None => None
                  | Some location =>
                      Some {| Toc.navPage := None;
                              Toc.navLocation := Some location;
                              Toc.navTotal := Js.parseDigits g2 |}
                  end
              | None => None
              end
          end
      end
  end.

End Position.

(** ** [src/extract-kindle-book.ts]: reading the table of contents *)

Module Reading.

(** The loop of lines 377 to 405 over the entries of the table of contents.
    What the reader shows for an entry is its text ([textContent()], a string
    or [null]) and, once the entry is opened, the text of the footer.  Both
    assertions throw; the loop ends early at the first entry whose page is at
    the total or beyond it.  A failure of the browser itself is not part of
    this function. *)
Fixpoint readTocItems (entries : list (option (list N) * option (list N)))
  : Result (list Toc.TocItem) :=
  match entries with
  | [] => Ok []
  | (title, footerText) :: entries' =>
      match title with
      | None | Some [] => Throw "Assertion failed"
      | Some title =>
          match Position.parsePageNav footerText with
          | None => Throw "Assertion failed"
          | Some pageNav =>
              let item := {| Toc.title := title;
                             Toc.page := Toc.navPage pageNav;
                             Toc.location := Toc.navLocation pageNav;
                             Toc.total := Toc.navTotal pageNav |} in
              if match Toc.navPage pageNav with
                 | Some p => Toc.navTotal pageNav <=? p
                 | None => false
                 end
              then Ok [item]
              else
                match readTocItems entries' with
                | Ok items => Ok (item :: items)
                | Throw m => Throw m
                end
          end
      end
  end.

End Reading.

(** ** The export script *)

Module Markdown.

(** [content.findIndex((c) => c.page >= page)]: the position of the first
    chunk at that page or beyond it, [-1] when there is none. *)
Fixpoint findIndexFrom (i : Z) (page : Z) (content : list Transcribe.ContentChunk) : Z :=
  match content with
  | [] => -1
  | c :: content' =>
      if page <=? Transcribe.page c then i else findIndexFrom (i + 1) page content'
  end.

Definition findIndex (page : Z) (content : list Transcribe.ContentChunk) : Z :=
  findIndexFrom 0 page content.

(** [array.slice(start, end)] on integers: a negative bound counts from the
    end of the array, and both bounds are clamped to it. *)
Definition slice {A} (start final : Z) (l : list A) : list A :=
  let len := Z.of_nat (length l) in
  let k := if start <? 0 then Z.max (len + start) 0 else Z.min start len in
  let final := if final <? 0 then Z.max (len + final) 0 else Z.min final len in
  take (Z.to_nat (final - k)) (drop (Z.to_nat k) l).

(** [strings.join(' ')] *)
Fixpoint join (separator : list N) (strings : list (list N)) : list N :=
  match strings with
  | [] => []
  | [s] => s
  | s :: strings' => s ++ separator ++ join separator strings'
  end.

(** [s.replaceAll('\n', '\n\n')] *)
Definition doubleNewlines (s : list N) : list N :=
  s ≫= (fun c => if (c =? 10)%N then [10; 10]%N else [c]).

(** The first loop of [main] (lines 30 to 37): the entries that will give a
    section.  The loop stops before the last entry. *)
Fixpoint actualProcessableCount (content : list Transcribe.ContentChunk)
    (toc : list Toc.TocItem) : nat :=
  match toc with
  | tocItem :: ((_ :: _) as toc') =>
      match Toc.page tocItem with
      | None => actualProcessableCount content toc'
      | Some p =>
          if findIndex p content =? -1 then actualProcessableCount content toc'
          else S (actualProcessableCount content toc')
      end
  | _ => O
  end.

(** A section of the output: its entry, the chunks it takes, its text. *)
Record Chapter := {
  entry : Toc.TocItem;
  chunks : list Transcribe.ContentChunk;
  text : list N }.

(** The second loop of [main] (lines 59 to 85).  A page of 0 in the next
    entry is falsy, as is a missing one: the section then runs to the end. *)
Fixpoint sections (content : list Transcribe.ContentChunk)
    (toc : list Toc.TocItem) : list Chapter :=
  match toc with
  | tocItem :: ((nextTocItem :: _) as toc') =>
      match Toc.page tocItem with
      | None => sections content toc'
      | Some p =>
          let startIndex := findIndex p content in
          let endIndex :=
            match Toc.page nextTocItem with
            | Some q => if q =? 0 then Z.of_nat (length content)
                        else findIndex q content
            | None => Z.of_nat (length content)
            end in
          if startIndex =? -1 then sections content toc'
          else
            let chunks := slice startIndex endIndex content in
            {| entry := tocItem;
               chunks := chunks;
               text := doubleNewlines
                         (join (Js.lit " ") (Transcribe.text <$> chunks)) |}
            :: sections content toc'
      end
  | _ => []
  end.

(** One section as it is appended to the output (lines 78 to 82). *)
Definition renderSection (s : Chapter) : list N :=
  [10; 10]%N ++ Js.lit "## " ++ Toc.title (entry s) ++ [10; 10]%N ++ text s.

(** How the export ends: an assertion fails, or the markdown is written and
    the number of sections processed is printed. *)
Inductive Outcome :=
| Aborted (message : string)
| Wrote (markdown : list N) (processed : nat).

(** [main] from line 22 on.  [header] is the text that precedes the sections
    (the title, the authors and the list of the entries with a page); [meta]
    tells whether [metadata.meta] is there; [toc] is [metadata.toc]. *)
Definition main (header : list N) (content : list Transcribe.ContentChunk)
    (meta : bool) (toc : option (list Toc.TocItem)) : Outcome :=
  match content with
  | [] => Aborted "no book content found"
  | _ :: _ =>
      if negb meta then Aborted "invalid book metadata: missing meta"
      else
        match toc with
        | None | Some [] => Aborted "invalid book metadata: missing toc"
        | Some toc =>
            Wrote (header ++ mjoin (renderSection <$> sections content toc))
              (actualProcessableCount content toc)
        end
  end.

End Markdown.

(** ** The vocabulary of the specification *)

(** The definitions of this section follow the words of the specification;
    Part II compares them with the program. *)

Module Spec.

(** In the output every white-space code unit is a single space that stands
    alone: a white-space run is one space long. *)
Definition collapsed (l : list N) : Prop :=
  ∀ i c, l !! i = Some c → Js.isWhiteSpace c = true →
    c = 32%N ∧ ∀ d, l !! S i = Some d → Js.isWhiteSpace d = false.

(** Case-insensitive comparison of titles with the ASCII patterns: two
    strings are the same when they agree after lowering [A-Z]. *)
Definition lower (c : N) : N :=
  if (65 <=? c)%N && (c <=? 90)%N then (c + 32)%N else c.

Definition sameIgnoringCase (a b : list N) : Prop := lower <$> a = lower <$> b.

Definition isIgnoringCase (pat : string) (t : list N) : Prop :=
  sameIgnoringCase t (Js.lit pat).

Definition containsIgnoringCase (pat : string) (t : list N) : Prop :=
  ∃ pre mid post, t = pre ++ mid ++ post ∧ sameIgnoringCase mid (Js.lit pat).

Definition startsWithIgnoringCase (pat : string) (t : list N) : Prop :=
  ∃ mid post, t = mid ++ post ∧ sameIgnoringCase mid (Js.lit pat).

Definition endsWithIgnoringCase (pat : string) (t : list N) : Prop :=
  ∃ pre mid, t = pre ++ mid ∧ sameIgnoringCase mid (Js.lit pat).

(** The fixed set of back-matter patterns. *)
Definition backMatterPattern (t : list N) : Prop :=
  containsIgnoringCase "acknowledgements" t
  ∨ isIgnoringCase "discover more" t
  ∨ isIgnoringCase "extras" t
  ∨ containsIgnoringCase "about the author" t
  ∨ containsIgnoringCase "meet the author" t
  ∨ startsWithIgnoringCase "also by " t
  ∨ isIgnoringCase "copyright" t
  ∨ endsWithIgnoringCase " teaser" t
  ∨ endsWithIgnoringCase " preview" t
  ∨ startsWithIgnoringCase "excerpt from" t
  ∨ isIgnoringCase "cast of characters" t
  ∨ isIgnoringCase "timeline" t
  ∨ startsWithIgnoringCase "other titles" t.

(** [position.page / position.total >= 0.9], as a ratio of integers. *)
Definition reachesNinetyPercent (page total : Z) : Prop :=
  (9 # 10 <= inject_Z page / inject_Z total)%Q.

(** An entry that may end the main content: its position is present with
    kind page, it lies in the last tenth of the book, and its title is a
    back-matter title. *)
Definition qualifiesAsEnd (item : Toc.TocItem) : Prop :=
  ∃ p, Toc.page item = Some p
       ∧ reachesNinetyPercent p (Toc.total item)
       ∧ backMatterPattern (Toc.title item).

(** Ascending [(index, page)] order of content chunks. *)
Definition ascending (a b : Transcribe.ContentChunk) : Prop :=
  Transcribe.index a < Transcribe.index b
  ∨ (Transcribe.index a = Transcribe.index b
     ∧ Transcribe.page a <= Transcribe.page b).

End Spec.

(** ** Page sources and books used in the examples *)

Module Scenario.
Import Extract.

(** A reader that does what it is asked: the state is the page shown, every
    page has an image of its own, a next-page request turns one page. *)
Definition reader (total : Z) : PageSource := {|
  World := Z;
  getPageNav := fun w =>
    (Ok (Some {| Toc.navPage := Some w; Toc.navLocation := None;
                 Toc.navTotal := total |}), w);
  goToPage := fun n _ => (Ok (), n);
  clickNext := fun w => (Ok (), w + 1);
  getSrc := fun w => (Ok (Some (Js.lit "blob:" ++ Js.toString w)), w);
  takeScreenshot := fun w => (Ok (), w) |}.

(** A reader that accepts every next-page request and never turns the page. *)
Definition stuckReader : PageSource := {|
  World := unit;
  getPageNav := fun w =>
    (Ok (Some {| Toc.navPage := Some 1; Toc.navLocation := None;
                 Toc.navTotal := 10 |}), w);
  goToPage := fun _ w => (Ok (), w);
  clickNext := fun w => (Ok (), w);
  getSrc := fun w => (Ok (Some (Js.lit "blob:1")), w);
  takeScreenshot := fun w => (Ok (), w) |}.

(** A reader that answers an advance loop from a script: [clickOk j] tells
    whether the request made at poll [j] is accepted, [srcAt j] is the answer
    to the read of poll [j].  The state counts the polls. *)
Definition scripted (clickOk : nat -> bool)
    (srcAt : nat -> Result (option (list N))) : PageSource := {|
  World := nat;
  getPageNav := fun w => (Ok None, w);
  goToPage := fun _ w => (Ok (), w);
  clickNext := fun w =>
    (if clickOk w then Ok () else Throw "locator.click: Timeout 1000ms exceeded", w);
  getSrc := fun w => (srcAt w, S w);
  takeScreenshot := fun w => (Ok (), w) |}.

(** Nothing happens at poll [j] of a script: a request made there is
    accepted and the image is still [src], the one seen before the advance. *)
Definition quiet (clickOk : nat -> bool)
    (srcAt : nat -> Result (option (list N))) (src : option (list N))
    (j : nat) : Prop :=
  ((j `mod` 10 = 0)%nat -> clickOk j = true) ∧ srcAt j = Ok src.

(** The request of poll [j], when one is due. *)
Definition requestAt (j : nat) : list Event :=
  if bool_decide (j `mod` 10 = 0)%nat then [NextPageRequest] else [].

(** What one poll of the capture-path advance loop does when the page has not
    changed: the request on every tenth poll, the read, the wait. *)
Definition pollEvents (j : nat) : list Event :=
  requestAt j ++ [SrcRead; Delay 100].

(** A script in which the image changes at poll 12. *)
Definition changesAtTwelve (j : nat) : Result (option (list N)) :=
  if (j <? 12)%nat then Ok (Some (Js.lit "blob:1")) else Ok (Some (Js.lit "blob:2")).

(** A book of ten pages whose only entry is its first chapter. *)
Definition tenPages : list Toc.TocItem :=
  [ {| Toc.title := Js.lit "Chapter 1"; Toc.page := Some 1;
       Toc.location := None; Toc.total := 10 |} ].

(** An entry of a manifest written by an earlier run. *)
Definition staleEntry (i p : Z) (name : string) : PageChunk :=
  {| index := i; page := p; total := 10;
     screenshot := Js.lit "out/B0/pages/" ++ Js.lit name |}.

(** Five artifacts on disk, three entries in the manifest. *)
Definition fiveArtifacts : list (list N) :=
  Js.lit <$> ["00-01.png"; "01-02.png"; "02-03.png"; "03-04.png"; "04-05.png"]%string.

Definition staleManifest : BookMetadata :=
  {| totalPages := Some 10;
     pages := Some [staleEntry 0 1 "00-01.png"; staleEntry 1 2 "01-02.png";
                    staleEntry 2 3 "02-03.png"] |}.

Definition staleRun : Inputs :=
  {| force := false;
     metadataFile := Some (Json staleManifest);
     pagesDir := Js.lit "out/B0/pages";
     dirListing := Some fiveArtifacts;
     tocItems := tenPages |}.

Definition freshRun : Inputs :=
  {| force := false;
     metadataFile := None;
     pagesDir := Js.lit "out/B0/pages";
     dirListing := None;
     tocItems := tenPages |}.

(** The table of contents of the specification's example. *)
Definition tocExample : list Toc.TocItem :=
  [ {| Toc.title := Js.lit "Title Page"; Toc.page := None;
       Toc.location := Some 1; Toc.total := 100 |};
    {| Toc.title := Js.lit "Chapter One"; Toc.page := Some 5;
       Toc.location := None; Toc.total := 100 |};
    {| Toc.title := Js.lit "Copyright"; Toc.page := Some 96;
       Toc.location := None; Toc.total := 100 |} ].

(** The chunk of the screenshot [name], index [i], page [p]. *)
Definition chunk (i p : Z) (name : string) : Transcribe.ContentChunk :=
  {| Transcribe.index := i; Transcribe.page := p;
     Transcribe.text := Js.lit "text";
     Transcribe.screenshot := Js.lit "out/B0/pages/" ++ Js.lit name |}.

(** Two chunks out of order, and their screenshots. *)
Definition unsorted : list Transcribe.ContentChunk :=
  [chunk 2 10 "2-10.png"; chunk 0 8 "0-8.png"].

Definition unsortedShots : list (list N) :=
  Transcribe.screenshot <$> unsorted.

(** A service that reads every page at the first attempt. *)
Definition reads (text : string) : list N -> nat -> Transcribe.Response :=
  fun _ _ => Transcribe.Completion (Js.lit text).

(** The error the service returns when the quota is exhausted: HTTP status
    429 with the type [insufficient_quota]. *)
Definition quotaExhausted : Transcribe.ApiError :=
  {| Transcribe.status := Some 429;
     Transcribe.type := Some (Js.lit "insufficient_quota");
     Transcribe.code := None |}.

End Scenario.

(** ** Further vocabulary *)

Module Vocabulary.

(** The canonical roman numeral of a number from 1 to 3999, digit by digit. *)
Definition romanDigit (one five ten : string) (d : Z) : list N :=
  Js.lit
    (if d =? 1 then one
     else if d =? 2 then String.append one one
     else if d =? 3 then String.append one (String.append one one)
     else if d =? 4 then String.append one five
     else if d =? 5 then five
     else if d =? 6 then String.append five one
     else if d =? 7 then String.append five (String.append one one)
     else if d =? 8 then String.append five (String.append one (String.append one one))
     else if d =? 9 then String.append one ten
     else EmptyString).

Definition toRoman (n : Z) : list N :=
  romanDigit "M" "" "" (n / 1000)
  ++ romanDigit "C" "D" "M" ((n / 100) `mod` 10)
  ++ romanDigit "X" "L" "C" ((n / 10) `mod` 10)
  ++ romanDigit "I" "V" "X" (n `mod` 10).

(** ASCII lower case of a string. *)
Definition toLowerCase (s : list N) : list N := Spec.lower <$> s.

(** The integers that a JavaScript number holds exactly and prints in
    decimal notation. *)
Definition safeInteger (n : Z) : Prop := 0 <= n <= 9007199254740991.

(** A string that does not go on with a code unit of the class. *)
Definition startsOutside (class : N -> bool) (s : list N) : Prop :=
  if s is c :: _ then class c = false else True.

(** No code unit of the string is the letter, in either case. *)
Definition withoutLetter (letter : ascii) (s : list N) : Prop :=
  Forall (fun c => Js.ciEqb (N_of_ascii letter) c = false) s.

(** The reader's footer texts. *)
Definition pageText (p t : Z) : list N :=
  Js.lit "Page " ++ Js.toString p ++ Js.lit " of " ++ Js.toString t.

Definition locationText (l t : Z) : list N :=
  Js.lit "Location " ++ Js.toString l ++ Js.lit " of " ++ Js.toString t.

Definition romanPageText (numeral : list N) (t : Z) : list N :=
  Js.lit "Page " ++ numeral ++ Js.lit " of " ++ Js.toString t.

(** What a capture loop has added to the entries [before], given the
    directory [after] it: every entry added stands at its index, is of a page
    below the bound, carries the path of its screenshot, and has that
    screenshot in the directory. *)
Definition addedEntries (pagesDir : list N) (pagePadding : nat)
    (totalContentPages : Z) (before new : list Extract.PageChunk)
    (after : list (list N)) : Prop :=
  ∀ (k : nat) (chunk : Extract.PageChunk),
    new !! k = Some chunk →
    Extract.index chunk = Z.of_nat (length before + k)
    ∧ Extract.page chunk < totalContentPages
    ∧ Extract.screenshot chunk
      = Extract.screenshotPath pagesDir pagePadding (length before + k)
          (Extract.page chunk)
    ∧ Extract.screenshotName pagePadding (length before + k) (Extract.page chunk)
      ∈ after.

(** What the capture loop has done between two of its states: the manifest,
    the directory and the trace have only grown, by entries that are
    [addedEntries]. *)
Definition extends (ps : Extract.PageSource) (pagesDir : list N)
    (pagePadding : nat) (totalContentPages : Z)
    (s s' : Extract.Session ps) : Prop :=
  ∃ new,
    Extract.sessionPages ps s' = Extract.sessionPages ps s ++ new
    ∧ Extract.files ps s `prefix_of` Extract.files ps s'
    ∧ Extract.trace ps s `prefix_of` Extract.trace ps s'
    ∧ addedEntries pagesDir pagePadding totalContentPages
        (Extract.sessionPages ps s) new (Extract.files ps s').

(** A reply of the text-recognition service that makes the retry loop ask
    again: a text that is empty once normalised, a refusal, or an error that
    [isRetryableError] accepts. *)
Definition retriedReply (normalize : list N -> list N)
    (reply : Transcribe.Response) : Prop :=
  match reply with
  | Transcribe.Completion rawText =>
      normalize rawText = [] ∨ Transcribe.isRefusal (normalize rawText) = true
  | Transcribe.Rejected err => Transcribe.isRetryableError err = true
  end.

(** A reply that the retry loop returns as [text]. *)
Definition acceptedReply (normalize : list N -> list N)
    (reply : Transcribe.Response) (text : list N) : Prop :=
  ∃ rawText,
    reply = Transcribe.Completion rawText ∧ text = normalize rawText
    ∧ text ≠ [] ∧ Transcribe.isRefusal text = false.

(** Content chunks in the order of their pages. *)
Definition inPageOrder (content : list Transcribe.ContentChunk) : Prop :=
  Sorted (fun a b => Transcribe.page a <= Transcribe.page b) content.

End Vocabulary.

(** ** Further books used in the examples *)

Module Library.

(** An entry of the table of contents with a page. *)
Definition chapter (name : string) (p : Z) : Toc.TocItem :=
  {| Toc.title := Js.lit name; Toc.page := Some p; Toc.location := None;
     Toc.total := 10 |}.

(** The transcribed pages 1, 2 and 3 of a book. *)
Definition threePages : list Transcribe.ContentChunk :=
  [Scenario.chunk 0 1 "0-1.png"; Scenario.chunk 1 2 "1-2.png";
   Scenario.chunk 2 3 "2-3.png"].

End Library.

(* ===================================================================== *)
(** * Part II: properties                                                 *)
(* ===================================================================== *)

(** ** [sanitizeDirname] *)

Section SanitizeDirname.
Import Utils Spec.

Lemma collapseWs_elem (b : bool) (s : list N) (c : N) :
  c ∈ collapseWs b s → c = 32%N ∨ c ∈ s.
Proof.
  revert b. induction s as [|x s IH]; intros b; simpl.
  - by rewrite elem_of_nil.
  - destruct (Js.isWhiteSpace x); [destruct b|]; rewrite ?elem_of_cons.
    + intros H. destruct (IH _ H); auto.
    + intros [->|H]; [auto|]. destruct (IH _ H); auto.
    + intros [->|H]; [auto|]. destruct (IH _ H); auto.
Qed.

(** Inside a run nothing is emitted: the output does not start with white
    space. *)
Lemma collapseWs_in_run_head (s : list N) (c : N) :
  head (collapseWs true s) = Some c → Js.isWhiteSpace c = false.
Proof.
  induction s as [|x s IH]; simpl; [done|].
  destruct (Js.isWhiteSpace x) eqn:E; [exact IH|].
  simpl. by intros [= <-].
Qed.

Lemma collapseWs_collapsed (b : bool) (s : list N) : collapsed (collapseWs b s).
Proof.
  revert b. induction s as [|x s IH]; intros b; simpl.
  - intros i c H. by rewrite lookup_nil in H.
  - destruct (Js.isWhiteSpace x) eqn:E; [destruct b|].
    + apply IH.
    + intros [|i] c Hc Hw; simpl in *.
      * injection Hc as <-. split; [done|]. intros d Hd.
        apply (collapseWs_in_run_head s). by rewrite head_lookup.
      * by apply (IH true i c).
    + intros [|i] c Hc Hw; simpl in *.
      * injection Hc as <-. congruence.
      * by apply (IH false i c).
Qed.

Lemma collapsed_infix (pre r post : list N) :
  collapsed (pre ++ r ++ post) → collapsed r.
Proof.
  intros H i c Hc Hw.
  assert (Hi : (i < length r)%nat) by (by eapply lookup_lt_Some).
  destruct (H (length pre + i)%nat c) as [-> Hnext]; [|done|].
  - rewrite lookup_app_r by lia.
    replace (length pre + i - length pre)%nat with i by lia.
    by rewrite lookup_app_l.
  - split; [done|]. intros d Hd. apply Hnext.
    assert (Hi' : (S i < length r)%nat) by (by eapply lookup_lt_Some).
    replace (S (length pre + i)) with (length pre + S i)%nat by lia.
    rewrite lookup_app_r by lia.
    replace (length pre + S i - length pre)%nat with (S i) by lia.
    by rewrite lookup_app_l.
Qed.

Lemma trimStart_suffix (s : list N) : ∃ pre, s = pre ++ trimStart s.
Proof.
  induction s as [|x s [pre IH]]; simpl.
  - by exists [].
  - destruct (Js.isWhiteSpace x).
    + exists (x :: pre). simpl. by rewrite <- IH.
    + by exists [].
Qed.

Lemma trimStart_head (s : list N) (c : N) :
  head (trimStart s) = Some c → Js.isWhiteSpace c = false.
Proof.
  induction s as [|x s IH]; simpl; [done|].
  destruct (Js.isWhiteSpace x) eqn:E; [exact IH|].
  simpl. by intros [= <-].
Qed.

Lemma trimEnd_prefix (s : list N) : ∃ post, s = trimEnd s ++ post.
Proof.
  induction s as [|x s [post IH]]; simpl.
  - by exists [].
  - destruct (trimEnd s) as [|y t'] eqn:E.
    + destruct (Js.isWhiteSpace x).
      * by exists (x :: s).
      * exists s. done.
    + exists post. simpl. f_equal. exact IH.
Qed.

(** The result is a piece of the collapsed string that keeps the start of the
    trimmed one. *)
Lemma sanitizeDirname_infix (name : list N) :
  ∃ pre post,
    collapseWs false (removeForbidden name)
    = pre ++ sanitizeDirname name ++ post.
Proof.
  unfold sanitizeDirname, trim.
  set (x := collapseWs false (removeForbidden name)).
  destruct (trimStart_suffix x) as [pre Hpre].
  destruct (trimEnd_prefix (trimStart x)) as [post Hpost].
  exists pre, (drop 128 (trimEnd (trimStart x)) ++ post).
  rewrite (assoc_L (++) (take _ _)), take_drop. by rewrite <- Hpost.
Qed.

(** C10.  For every name, [sanitizeDirname] returns at most 128 code units,
    none of which is one of the nine forbidden characters; the result does
    not begin with white space, and each white-space code unit in it is a
    single space that no white space follows. *)
Theorem sanitizeDirname_filesystem_safe (name : list N) :
  let r := Utils.sanitizeDirname name in
  (length r ≤ 128)%nat
  ∧ (∀ c, c ∈ Utils.forbiddenChars → c ∉ r)
  ∧ (∀ c, head r = Some c → Js.isWhiteSpace c = false)
  ∧ (∀ i c, r !! i = Some c → Js.isWhiteSpace c = true →
       c = 32%N ∧ ∀ d, r !! S i = Some d → Js.isWhiteSpace d = false).
Proof.
  intros r. destruct (sanitizeDirname_infix name) as (pre & post & Hx).
  fold r in Hx. split; [|split; [|split]].
  - unfold r, sanitizeDirname. rewrite length_take. lia.
  - intros c Hforbidden Hc.
    assert (Hin : c ∈ collapseWs false (removeForbidden name)).
    { rewrite Hx. rewrite !elem_of_app. auto. }
    apply collapseWs_elem in Hin as [->|Hin].
    + revert Hforbidden. apply (bool_decide_unpack _). by vm_compute.
    + unfold removeForbidden in Hin. apply list_elem_of_filter in Hin as [Hn _]. done.
  - intros c Hc. unfold r, sanitizeDirname, trim in Hc.
    apply (trimStart_head (collapseWs false (removeForbidden name))).
    destruct (trimEnd_prefix (trimStart (collapseWs false (removeForbidden name))))
      as [post' Hpost'].
    rewrite Hpost'.
    destruct (trimEnd _) as [|y t]; [by rewrite take_nil in Hc|].
    simpl in *. done.
  - apply (collapsed_infix pre r post).
    rewrite <- Hx. apply collapseWs_collapsed.
Qed.

End SanitizeDirname.

(** ** Backoff *)

Section Backoff.
Import Transcribe.
Open Scope Q_scope.

Lemma exponentialDelay_positive (attempt : Z) : 0 < 2 ^ (attempt - 1).
Proof. by apply Qpower_0_lt. Qed.

Lemma exponentialDelay_doubles (attempt attempt' : Z) :
  (attempt < attempt')%Z → 2 * 2 ^ (attempt - 1) <= 2 ^ (attempt' - 1).
Proof.
  intros H.
  assert (E : 2 * 2 ^ (attempt - 1) == 2 ^ attempt).
  { replace attempt with (1 + (attempt - 1))%Z at 2 by ring.
    rewrite Qpower_plus by done. reflexivity. }
  rewrite E. apply Qpower_le_compat_l; [lia | done].
Qed.

Lemma backoff_unfold (attempt : Z) (random : Q) :
  calculateBackoffDelay attempt random
  == Qmin (1000 * 2 ^ (attempt - 1) * (1 + random * (1 # 10))) 30000.
Proof.
  unfold calculateBackoffDelay, calculateBackoffDelayWith.
  apply Q.min_compat; [ring | reflexivity].
Qed.

(** C7.  For an attempt in 1..20 and a jitter fraction [random / 10] in
    [0, 0.1), the delay is [min (1000 * 2^(attempt-1) * (1 + jitter), 30000)];
    it never exceeds 33000, and it is at most the delay of any later attempt,
    whatever the two draws. *)
Theorem backoff_delay_formula_and_bounds (attempt : Z) (random : Q) :
  (1 <= attempt <= 20)%Z → 0 <= random → random < 1 →
  let jitter := random * (1 # 10) in
  (0 <= jitter ∧ jitter < 1 # 10)
  ∧ calculateBackoffDelay attempt random
    == Qmin (1000 * 2 ^ (attempt - 1) * (1 + jitter)) 30000
  ∧ calculateBackoffDelay attempt random <= 33000
  ∧ ∀ (attempt' : Z) (random' : Q),
      (attempt < attempt' <= 20)%Z → 0 <= random' → random' < 1 →
      calculateBackoffDelay attempt random
      <= calculateBackoffDelay attempt' random'.
Proof.
  intros Ha H0 H1 jitter. split; [unfold jitter; split; lra|].
  split; [apply backoff_unfold|]. split.
  - rewrite backoff_unfold.
    eapply Qle_trans; [apply Q.le_min_r | done].
  - intros attempt' random' Ha' H0' H1'.
    rewrite !backoff_unfold. apply Q.min_le_compat_r.
    pose proof (exponentialDelay_positive attempt) as Hp.
    pose proof (exponentialDelay_positive attempt') as Hp'.
    pose proof (exponentialDelay_doubles attempt attempt' (proj1 Ha')) as Hd.
    set (P := 2 ^ (attempt - 1)) in *. set (P' := 2 ^ (attempt' - 1)) in *.
    assert (random * P <= P) by nra.
    assert (0 <= random' * P') by nra.
    nra.
Qed.

(** C7, at the third attempt with a draw of one half. *)
Lemma backoff_delay_formula_and_bounds_witness :
  calculateBackoffDelay 3 (1 # 2) == Qmin (1000 * 2 ^ (3 - 1) * (1 + (1 # 2) * (1 # 10))) 30000
  ∧ calculateBackoffDelay 3 (1 # 2) <= 33000
  ∧ calculateBackoffDelay 3 (1 # 2) <= calculateBackoffDelay 4 0.
Proof.
  destruct (backoff_delay_formula_and_bounds 3 (1 # 2)) as (_ & E & B & M);
    [lia | done | done |].
  split; [exact E|]. split; [exact B|].
  apply M; [lia | done | done].
Defined.

End Backoff.

(** ** The table-of-contents classifier *)

Section TocClassifier.
Import Toc Spec.

Lemma ciEqb_lower (a b : N) : Js.ciEqb a b = true ↔ lower a = lower b.
Proof.
  unfold Js.ciEqb, Js.canonicalize, lower. rewrite N.eqb_eq.
  repeat match goal with
         | |- context [(?x <=? ?y)%N] => destruct (N.leb_spec x y)
         end; simpl; lia.
Qed.

Lemma ciExact_same (pat s : list N) :
  Js.ciExact pat s = true ↔ sameIgnoringCase s pat.
Proof.
  unfold sameIgnoringCase. revert s.
  induction pat as [|p pat IH]; intros [|c s]; cbn [Js.ciExact];
    rewrite ?fmap_cons, ?fmap_nil; try done.
  rewrite andb_true_iff, IH, ciEqb_lower. split.
  - intros [E1 E2]. congruence.
  - intros [= E1 E2]. done.
Qed.

Lemma ciPrefix_startsWith (pat s : list N) :
  Js.ciPrefix pat s = true
  ↔ ∃ mid post, s = mid ++ post ∧ sameIgnoringCase mid pat.
Proof.
  unfold sameIgnoringCase. revert s.
  induction pat as [|p pat IH]; intros s; cbn [Js.ciPrefix].
  - split; [|done]. intros _. by exists [], s.
  - destruct s as [|c s].
    + split; [done|]. intros (mid & post & H & E).
      destruct mid; [done|]. done.
    + rewrite andb_true_iff, IH, ciEqb_lower. split.
      * intros (E & mid & post & -> & Em).
        exists (c :: mid), post. rewrite !fmap_cons. split; [done | congruence].
      * intros (mid & post & H & E).
        destruct mid as [|m mid]; [done|]. rewrite !fmap_cons in E.
        injection H as -> ->. injection E as E1 E2.
        split; [congruence|]. by exists mid, post.
Qed.

Lemma ciSearch_contains (pat s : list N) :
  Js.ciSearch pat s = true
  ↔ ∃ pre mid post, s = pre ++ mid ++ post ∧ sameIgnoringCase mid pat.
Proof.
  induction s as [|c s IH]; simpl; rewrite orb_true_iff, ciPrefix_startsWith.
  - split.
    + intros [(mid & post & H & E)|]; [|done]. by exists [], mid, post.
    + intros (pre & mid & post & H & E).
      destruct pre; [|done]. left. by exists mid, post.
  - rewrite IH. split.
    + intros [(mid & post & H & E)|(pre & mid & post & -> & E)].
      * by exists [], mid, post.
      * by exists (c :: pre), mid, post.
    + intros (pre & mid & post & H & E). destruct pre as [|x pre].
      * left. by exists mid, post.
      * right. simplify_eq/=. by exists pre, mid, post.
Qed.

Lemma ciSuffix_endsWith (pat s : list N) :
  Js.ciSuffix pat s = true
  ↔ ∃ pre mid, s = pre ++ mid ∧ sameIgnoringCase mid pat.
Proof.
  induction s as [|c s IH]; simpl; rewrite orb_true_iff, ciExact_same.
  - split.
    + intros [E|]; [|done]. by exists [], [].
    + intros (pre & mid & H & E). destruct pre; [|done]. simpl in H. subst. by left.
  - rewrite IH. split.
    + intros [E|(pre & mid & -> & E)].
      * by exists [], (c :: s).
      * by exists (c :: pre), mid.
    + intros (pre & mid & H & E). destruct pre as [|x pre].
      * left. simpl in H. by subst.
      * right. simplify_eq/=. by exists pre, mid.
Qed.

(** The thirteen regular expressions accept the titles the specification
    lists. *)
Lemma isBackMatterTitle_pattern (t : list N) :
  isBackMatterTitle t = true ↔ backMatterPattern t.
Proof.
  unfold isBackMatterTitle, backMatterPattern, containsIgnoringCase,
    isIgnoringCase, startsWithIgnoringCase, endsWithIgnoringCase.
  rewrite !orb_true_iff, !ciSearch_contains, !ciExact_same,
    !ciPrefix_startsWith, !ciSuffix_endsWith.
  tauto.
Qed.

Lemma belowNinetyPercent_ratio (p t : Z) :
  0 < t → belowNinetyPercent p t = false ↔ reachesNinetyPercent p t.
Proof.
  intros Ht. unfold belowNinetyPercent, reachesNinetyPercent.
  destruct (Z.eqb_spec t 0) as [->|_]; [lia|].
  rewrite Z.ltb_ge.
  destruct t as [|q|q]; try lia.
  unfold Qle, Qdiv, Qmult, Qinv, inject_Z; simpl. lia.
Qed.

Lemma isAfterLastPage_qualifies (first i : nat) (item : TocItem) :
  0 < total item →
  isAfterLastPage first i item = true ↔ i ≠ first ∧ qualifiesAsEnd item.
Proof.
  intros Ht. unfold isAfterLastPage, qualifiesAsEnd.
  destruct (page item) as [p|] eqn:Hp.
  - case_bool_decide as Hi.
    + split; [done|]. by intros [? _].
    + destruct (belowNinetyPercent p (total item)) eqn:Hb.
      * split; [done|]. intros (_ & p' & [= <-] & Hr & _).
        apply belowNinetyPercent_ratio in Hr; [congruence | done].
      * rewrite isBackMatterTitle_pattern. split.
        -- intros Hm. split; [done|]. exists p.
           by rewrite <- belowNinetyPercent_ratio.
        -- by intros (_ & p' & [= <-] & _ & Hm).
  - split; [done|]. by intros (_ & p' & ? & _).
Qed.

Lemma findFrom_Some {A} (f : nat → A → bool) (l : list A) (i j : nat) (x : A) :
  findFrom f i l = Some (j, x) →
  ∃ k, j = (i + k)%nat ∧ l !! k = Some x ∧ f j x = true
       ∧ ∀ k' y, (k' < k)%nat → l !! k' = Some y → f (i + k')%nat y = false.
Proof.
  revert i. induction l as [|a l IH]; intros i; simpl; [done|].
  destruct (f i a) eqn:E.
  - intros [= <- <-]. exists 0%nat. rewrite Nat.add_0_r.
    repeat split; try done. intros; lia.
  - intros H. destruct (IH _ H) as (k & -> & Hk & Hf & Hlt).
    exists (S k). split; [lia|]. split; [done|]. split; [done|].
    intros [|k'] y Hk' Hy; simpl in Hy.
    + injection Hy as <-. by rewrite Nat.add_0_r.
    + replace (i + S k')%nat with (S i + k')%nat by lia.
      apply Hlt; [lia | done].
Qed.

Lemma findFrom_None {A} (f : nat → A → bool) (l : list A) (i : nat) :
  findFrom f i l = None →
  ∀ k y, l !! k = Some y → f (i + k)%nat y = false.
Proof.
  revert i. induction l as [|a l IH]; intros i; simpl; [done|].
  destruct (f i a) eqn:E; [done|].
  intros H [|k] y Hy; simpl in Hy.
  - injection Hy as <-. by rewrite Nat.add_0_r.
  - replace (i + S k)%nat with (S i + k)%nat by lia. by apply IH.
Qed.

(** C5.  For a table of contents whose entries have positive totals,
    [parseTocItems] fails exactly when no entry has a page; otherwise its
    start is the first entry with a page, and its end is the first entry other
    than the start that has a page, lies at 90% or more of the book and has a
    back-matter title.  Without such an entry the end is absent and the last
    page is the total the start reports. *)
Theorem parseTocItems_classifies (tocItems : list Toc.TocItem) :
  (∀ item, item ∈ tocItems → 0 < Toc.total item) →
  match Toc.parseTocItems tocItems with
  | Throw _ => ∀ item, item ∈ tocItems → Toc.page item = None
  | Ok parsed =>
      ∃ i : nat,
        tocItems !! i = Some (Toc.firstPageTocItem parsed)
        ∧ is_Some (Toc.page (Toc.firstPageTocItem parsed))
        ∧ (∀ (k : nat) item,
             (k < i)%nat → tocItems !! k = Some item → Toc.page item = None)
        ∧ match Toc.afterLastPageTocItem parsed with
          | Some e =>
              ∃ j : nat,
                j ≠ i ∧ tocItems !! j = Some e ∧ Spec.qualifiesAsEnd e
                ∧ ∀ (k : nat) item,
                    (k < j)%nat → k ≠ i → tocItems !! k = Some item →
                    ¬ Spec.qualifiesAsEnd item
          | None =>
              (∀ (k : nat) item,
                 k ≠ i → tocItems !! k = Some item → ¬ Spec.qualifiesAsEnd item)
              ∧ Toc.totalContentPages parsed
                = Toc.total (Toc.firstPageTocItem parsed)
          end
  end.
Proof.
  intros Htotal. unfold parseTocItems.
  destruct (findFrom _ 0%nat tocItems) as [[i first]|] eqn:Hfirst.
  - apply findFrom_Some in Hfirst as (k & -> & Hk & Hp & Hbefore).
    simpl in *. exists k. split; [done|]. split.
    { unfold hasPage in Hp. by destruct (page first). }
    split.
    { intros k' item Hlt Hitem. specialize (Hbefore k' item Hlt Hitem).
      unfold hasPage in Hbefore. by destruct (page item). }
    destruct (findFrom (isAfterLastPage k) 0%nat tocItems) as [[j e]|] eqn:Hend;
      simpl.
    + apply findFrom_Some in Hend as (k' & -> & Hk' & He & Hearlier).
      simpl in *.
      apply isAfterLastPage_qualifies in He as [Hne Hq];
        [|by eapply Htotal, list_elem_of_lookup_2].
      exists k'. repeat split; try done.
      intros m item Hlt Hm Hitem Hq'.
      specialize (Hearlier m item Hlt Hitem). simpl in Hearlier.
      assert (isAfterLastPage k m item = true) as Ht; [|congruence].
      apply isAfterLastPage_qualifies; [|done].
      by eapply Htotal, list_elem_of_lookup_2.
    + split.
      * intros m item Hm Hitem Hq'.
        pose proof (findFrom_None _ _ _ Hend m item Hitem) as Hf. simpl in Hf.
        assert (isAfterLastPage k m item = true) as Ht; [|congruence].
        apply isAfterLastPage_qualifies; [|done].
        by eapply Htotal, list_elem_of_lookup_2.
      * unfold totalContentPages. simpl. lia.
  - intros item Hitem. apply list_elem_of_lookup_1 in Hitem as [k Hk].
    pose proof (findFrom_None _ _ _ Hfirst k item Hk) as Hf. simpl in Hf.
    unfold hasPage in Hf. by destruct (page item).
Qed.

End TocClassifier.

(** ** Retry classification *)

Section RetryClassification.
Import Transcribe.

(** X21.  The errors [isRetryableError] accepts, in the order of its tests:
    the status decides first (429, or 500 to 599), then the two fatal types,
    then the three network codes; nothing else is retried. *)
Lemma isRetryableError_classification (e : ApiError) :
  isRetryableError (Some e) = true
  ↔ status e = Some 429
    ∨ (∃ s, status e = Some s ∧ 500 <= s < 600)
    ∨ (type e ≠ Some (Js.lit "insufficient_quota")
       ∧ type e ≠ Some (Js.lit "invalid_request_error")
       ∧ (code e = Some (Js.lit "ECONNRESET")
          ∨ code e = Some (Js.lit "ENOTFOUND")
          ∨ code e = Some (Js.lit "ECONNREFUSED"))).
Proof.
  unfold isRetryableError.
  case_bool_decide as H429; [by split; [left|]|].
  destruct (match status e with Some s => _ | None => false end) eqn:H5xx.
  { split; [intros _|done]. right; left.
    destruct (status e) as [s|]; [|done]. exists s. split; [done|]. lia. }
  assert (N5xx : ¬ ∃ s, status e = Some s ∧ 500 <= s < 600).
  { intros (s & Hs & Hr). rewrite Hs in H5xx. lia. }
  case_bool_decide as Hquota; [split; [done|]; intros [?|[?|(? & _)]]; done|].
  case_bool_decide as Hinvalid; [split; [done|]; intros [?|[?|(_ & ? & _)]]; done|].
  destruct (bool_decide _ || bool_decide _ || bool_decide _) eqn:Hcode.
  - rewrite !orb_true_iff, !bool_decide_eq_true in Hcode.
    split; [intros _|done]. right; right. tauto.
  - rewrite !orb_false_iff, !bool_decide_eq_false in Hcode.
    split; [done|]. intros [?|[?|(_ & _ & ?)]]; try done. tauto.
Qed.

End RetryClassification.

(** ** The content manifest: merge, sort, idempotence *)

Section ContentManifest.
Import Transcribe Spec.

Lemma compareChunks_ascending (a b : ContentChunk) :
  compareChunks a b <= 0 ↔ ascending a b.
Proof.
  unfold compareChunks, ascending.
  destruct (Z.eqb_spec (index a - index b) 0); lia.
Qed.

Lemma compareChunks_total (a b : ContentChunk) :
  ¬ compareChunks a b <= 0 → ascending b a.
Proof.
  unfold compareChunks, ascending.
  destruct (Z.eqb_spec (index a - index b) 0); lia.
Qed.

Lemma insertSorted_perm (x : ContentChunk) (l : list ContentChunk) :
  insertSorted x l ≡ₚ x :: l.
Proof.
  induction l as [|y l IH]; simpl; [done|].
  destruct (compareChunks x y <=? 0); [done|].
  rewrite IH. apply Permutation_swap.
Qed.

Lemma sortChunks_perm (l : list ContentChunk) : sortChunks l ≡ₚ l.
Proof.
  induction l as [|x l IH]; simpl; [done|].
  by rewrite insertSorted_perm, IH.
Qed.

Lemma insertSorted_HdRel (a x : ContentChunk) (l : list ContentChunk) :
  ascending a x → HdRel ascending a l → HdRel ascending a (insertSorted x l).
Proof.
  intros Hax Hal. destruct l as [|y l]; simpl; [by constructor|].
  destruct (compareChunks x y <=? 0); constructor; [done|].
  by inversion Hal.
Qed.

Lemma insertSorted_sorted (x : ContentChunk) (l : list ContentChunk) :
  Sorted ascending l → Sorted ascending (insertSorted x l).
Proof.
  induction l as [|y l IH]; simpl; intros Hl.
  - by repeat constructor.
  - destruct (Z.leb_spec (compareChunks x y) 0) as [Hle|Hgt].
    + constructor; [done|]. constructor. by apply compareChunks_ascending.
    + inversion_clear Hl as [|? ? Hs Hh]. constructor; [by apply IH|].
      apply insertSorted_HdRel; [|done].
      apply compareChunks_total. lia.
Qed.

Lemma sortChunks_sorted (l : list ContentChunk) : Sorted ascending (sortChunks l).
Proof.
  induction l as [|x l IH]; simpl; [constructor|].
  by apply insertSorted_sorted.
Qed.

(** A stable sort leaves a sorted array as it is. *)
Lemma sortChunks_of_sorted (l : list ContentChunk) :
  Sorted ascending l → sortChunks l = l.
Proof.
  induction l as [|x l IH]; simpl; [done|].
  intros Hl. inversion_clear Hl as [|? ? Hs Hh]. rewrite IH by done.
  destruct Hh as [|y l' Hxy]; simpl; [done|].
  apply compareChunks_ascending, Z.leb_le in Hxy. by rewrite Hxy.
Qed.

Lemma sortChunks_idempotent (l : list ContentChunk) :
  sortChunks (sortChunks l) = sortChunks l.
Proof. apply sortChunks_of_sorted, sortChunks_sorted. Qed.

(** Reading back what a run wrote. *)
Lemma loadExistingContent_written (l : list ContentChunk) :
  loadExistingContent (Some (Json (Some l))) = l.
Proof. reflexivity. Qed.

(** Nothing is left to process when every screenshot is in the manifest. *)
Lemma nothing_to_process (pageScreenshots : list (list N))
    (existing : list ContentChunk) :
  (∀ s, s ∈ pageScreenshots → s ∈ screenshot <$> existing) →
  filter (fun s => s ∉ (list_to_set (screenshot <$> existing) : gset (list N)))
    pageScreenshots = [].
Proof.
  intros Hall. induction pageScreenshots as [|s l IH]; [done|].
  rewrite filter_cons_False.
  - apply IH. intros s' Hs'. apply Hall. rewrite elem_of_cons. auto.
  - intros Hn. apply Hn. rewrite elem_of_list_to_set.
    apply Hall. rewrite elem_of_cons. auto.
Qed.

Section Run.
Variable normalize : list N → list N.
Variable recognize : list N → nat → Response.

Lemma main_short_circuit (pageScreenshots : list (list N))
    (contentFile : option (FileText (option (list ContentChunk)))) :
  pageScreenshots ≠ [] →
  (∀ s, s ∈ pageScreenshots →
        s ∈ screenshot <$> loadExistingContent contentFile) →
  main normalize recognize pageScreenshots contentFile
  = Wrote (sortChunks (loadExistingContent contentFile))
      (loadExistingContent contentFile).
Proof.
  intros Hne Hall. unfold main.
  destruct pageScreenshots as [|s0 l0] eqn:E; [done|]. rewrite <- E in *.
  by rewrite nothing_to_process.
Qed.

(** C1, as the program has it.  When the list of page screenshots is not
    empty and every one of them is the screenshot of a chunk of the existing
    manifest, the run writes the existing chunks in ascending [(index, page)]
    order and prints them unchanged; a second run on the file the first one
    left writes the same array again, so the file does not change. *)
Theorem transcription_rerun_is_idempotent
    (pageScreenshots : list (list N))
    (contentFile : option (FileText (option (list ContentChunk)))) :
  pageScreenshots ≠ [] →
  (∀ s, s ∈ pageScreenshots →
        s ∈ screenshot <$> loadExistingContent contentFile) →
  let existing := loadExistingContent contentFile in
  let first := main normalize recognize pageScreenshots contentFile in
  let afterFirst := contentAfter contentFile first in
  let second := main normalize recognize pageScreenshots afterFirst in
  first = Wrote (sortChunks existing) existing
  ∧ Sorted Spec.ascending (sortChunks existing)
  ∧ sortChunks existing ≡ₚ existing
  ∧ afterFirst = Some (Json (Some (sortChunks existing)))
  ∧ second = Wrote (sortChunks existing) (sortChunks existing)
  ∧ contentAfter afterFirst second = afterFirst.
Proof.
  intros Hne Hall existing first afterFirst second.
  assert (Hfirst : first = Wrote (sortChunks existing) existing)
    by (by apply main_short_circuit).
  assert (Hfile : afterFirst = Some (Json (Some (sortChunks existing))))
    by (unfold afterFirst; by rewrite Hfirst).
  assert (Hsecond : second = Wrote (sortChunks existing) (sortChunks existing)).
  { unfold second. rewrite Hfile, main_short_circuit;
      rewrite ?loadExistingContent_written.
    - by rewrite sortChunks_idempotent.
    - done.
    - intros s Hs. rewrite sortChunks_perm. by apply Hall. }
  repeat split; try done.
  - apply sortChunks_sorted.
  - apply sortChunks_perm.
  - by rewrite Hsecond, Hfile.
Qed.

(** *** The uniqueness invariant *)

Lemma pMap_Ok {A B} (mapper : A → Result B) (inputs : list A) (results : list B) :
  pMap mapper inputs = Ok results →
  Forall2 (fun x y => mapper x = Ok y) inputs results.
Proof.
  revert results. induction inputs as [|x l IH]; simpl; intros results.
  - intros [= <-]. constructor.
  - destruct (mapper x) as [y|m] eqn:Ex; [|done].
    destruct (pMap mapper l) as [ys|m]; [|done].
    intros [= <-]. constructor; [done | by apply IH].
Qed.

(** The mapper answers for the screenshot it was given. *)
Lemma transcribeScreenshot_screenshot (s : list N) (c : ContentChunk) :
  transcribeScreenshot normalize recognize s = Ok (Some c) → screenshot c = s.
Proof.
  unfold transcribeScreenshot.
  destruct (matchScreenshot s) as [[g1 g2]|]; [|done].
  destruct (attemptLoop _ _ _ _) as [t|]; simpl; [|done].
  by intros [= <-].
Qed.

(** The new chunks belong to a selection of the screenshots processed, in
    their order. *)
Lemma new_content_sublist (inputs : list (list N))
    (results : list (option ContentChunk)) :
  Forall2 (fun x y => transcribeScreenshot normalize recognize x = Ok y)
    inputs results →
  (screenshot <$> omap id results) `sublist_of` inputs.
Proof.
  induction 1 as [|s y l ys Hy _ IH]; simpl; [done|].
  destruct y as [c|]; simpl.
  - rewrite (transcribeScreenshot_screenshot s c Hy). by apply sublist_skip.
  - by apply sublist_cons.
Qed.

(** C9.  When no two chunks of the existing manifest share a screenshot and
    the list of page screenshots has no duplicate, no two chunks of the
    manifest a run writes share a screenshot: every chunk written is an
    existing one or belongs to a screenshot that no existing chunk has. *)
Theorem merge_keeps_one_chunk_per_screenshot
    (pageScreenshots : list (list N))
    (contentFile : option (FileText (option (list ContentChunk)))) :
  NoDup (screenshot <$> loadExistingContent contentFile) →
  NoDup pageScreenshots →
  match main normalize recognize pageScreenshots contentFile with
  | Aborted _ => True
  | Wrote manifest _ =>
      NoDup (screenshot <$> manifest)
      ∧ ∀ c, c ∈ manifest →
          c ∈ loadExistingContent contentFile
          ∨ (screenshot c ∈ pageScreenshots
             ∧ screenshot c ∉ screenshot <$> loadExistingContent contentFile)
  end.
Proof.
  intros Hexisting Hshots. unfold main.
  destruct pageScreenshots as [|s0 l0] eqn:E; [done|]. rewrite <- E in *.
  set (existing := loadExistingContent contentFile) in *.
  set (todo := filter _ pageScreenshots).
  assert (Htodo : ∀ s, s ∈ todo →
            s ∈ pageScreenshots ∧ s ∉ screenshot <$> existing).
  { intros s Hs. apply list_elem_of_filter in Hs as [Hn Hs].
    split; [done|]. by rewrite elem_of_list_to_set in Hn. }
  destruct todo as [|t0 todo'] eqn:Et.
  - split.
    + by rewrite sortChunks_perm.
    + intros c Hc. left. by rewrite sortChunks_perm in Hc.
  - rewrite <- Et in *.
    destruct (pMap _ todo) as [results|m] eqn:Hmap; [|done].
    apply pMap_Ok, new_content_sublist in Hmap.
    split.
    + rewrite sortChunks_perm, fmap_app. apply NoDup_app.
      split; [done|]. split.
      * intros s Hs Hnew. apply (sublist_subseteq _ _ Hmap) in Hnew.
        by apply Htodo in Hnew as [_ Hnew].
      * eapply sublist_NoDup; [|done]. unfold todo. by apply NoDup_filter.
    + intros c Hc. rewrite sortChunks_perm, elem_of_app in Hc.
      destruct Hc as [Hc|Hc]; [by left|right].
      apply Htodo, (sublist_subseteq _ _ Hmap).
      by apply list_elem_of_fmap_2.
Qed.

(** *** A manifest that does not parse *)

(** C3, as the program has it, for the content manifest: a [content.json]
    that does not parse, or that holds no array, is read as a missing one. *)
Lemma main_malformed_as_absent (pageScreenshots : list (list N)) :
  main normalize recognize pageScreenshots (Some BadJson)
  = main normalize recognize pageScreenshots None
  ∧ main normalize recognize pageScreenshots (Some (Json None))
    = main normalize recognize pageScreenshots None.
Proof. done. Qed.

End Run.

End ContentManifest.

(** ** The advance loops *)

Section AdvanceLoops.
Import Extract Scenario.

Lemma occurrences_app (e : Event) (l k : list Event) :
  occurrences e (l ++ k) = (occurrences e l + occurrences e k)%nat.
Proof. unfold occurrences. by rewrite filter_app, length_app. Qed.

(** Counts the occurrences in the closed event lists of the goal. *)
Ltac list_literal l :=
  lazymatch l with
  | [] => idtac
  | _ :: ?t => list_literal t
  end.

Ltac count_events :=
  rewrite ?occurrences_app;
  repeat match goal with
         | |- context [occurrences ?e ?l] =>
             list_literal l;
             let n := eval vm_compute in (occurrences e l) in
             change (occurrences e l) with n
         end.

(** The skip-path loop: at most [remaining] polls, a request only on the
    first, and every exception caught. *)
Lemma skipAdvance_bounds (ps : PageSource) (remaining retries : nat)
    (w : World ps) :
  (retries + remaining ≤ 10)%nat →
  let '(ended, _, events) := skipAdvance ps remaining retries w in
  (ended = SrcChanged ∨ ended = NoFurtherPage ∨ ended = RetriesExhausted)
  ∧ (occurrences NextPageRequest events ≤ if retries is O then 1 else 0)%nat
  ∧ (occurrences SrcRead events ≤ 2 * remaining)%nat
  ∧ (occurrences (Delay 100) events ≤ remaining)%nat.
Proof.
  revert retries w. induction remaining as [|n IH]; intros retries w Hle.
  - simpl. repeat split; auto; destruct retries; count_events; lia.
  - cbn [skipAdvance].
    assert (Hclick : (retries `mod` 10 = 0)%nat ↔ retries = 0%nat).
    { split; [|by intros ->]. intros H.
      rewrite Nat.mod_small in H by lia. done. }
    case_bool_decide as Hr.
    + apply Hclick in Hr as ->.
      destruct (clickNext ps w) as [[[]|m] w1].
      2: { repeat split; auto; count_events; lia. }
      destruct (getSrc ps w1) as [[newSrc|m] w2].
      2: { repeat split; auto; count_events; lia. }
      destruct (getSrc ps w2) as [[currentSrc|m] w3].
      2: { repeat split; auto; count_events; lia. }
      case_bool_decide.
      { repeat split; auto; count_events; lia. }
      specialize (IH 1%nat w3 ltac:(lia)).
      destruct (skipAdvance ps n 1 w3) as [[ended w4] e4].
      destruct IH as (He & Hq & Hs & Hd).
      cbn [Nat.eqb] in Hq. split; [done|]. count_events. simpl in Hq. lia.
    + assert (retries ≠ 0%nat) by (intros ->; by apply Hr).
      destruct (getSrc ps w) as [[newSrc|m] w2].
      2: { repeat split; auto; destruct retries; count_events; lia. }
      destruct (getSrc ps w2) as [[currentSrc|m] w3].
      2: { repeat split; auto; destruct retries; count_events; lia. }
      case_bool_decide.
      { repeat split; auto; destruct retries; count_events; lia. }
      specialize (IH (S retries) w3 ltac:(lia)).
      destruct (skipAdvance ps n (S retries) w3) as [[ended w4] e4].
      destruct IH as (He & Hq & Hs & Hd).
      split; [done|]. count_events. destruct retries; [done|]. simpl in Hq. lia.
Qed.

Section Scripted.
Variable clickOk : nat → bool.
Variable srcAt : nat → Result (option (list N)).
Variable src : option (list N).

(** While the polls are quiet the capture-path loop keeps polling. *)
Lemma advance_quiet (n r fuel : nat) :
  (∀ j, (r ≤ j < r + n)%nat → quiet clickOk srcAt src j) →
  advance (scripted clickOk srcAt) (n + fuel) src false r r
  = match advance (scripted clickOk srcAt) fuel src false (r + n) (r + n)%nat with
    | None => None
    | Some (ended, w, events) =>
        Some (ended, w, flat_map pollEvents (seq r n) ++ events)
    end.
Proof.
  revert r. induction n as [|n IH]; intros r Hq.
  - simpl. rewrite Nat.add_0_r. by destruct (advance _ _ _ _ _ _) as [[[? ?] ?]|].
  - destruct (Hq r ltac:(lia)) as [Hc Hs].
    replace (r + S n)%nat with (S r + n)%nat by lia.
    specialize (IH (S r) ltac:(intros j Hj; apply Hq; lia)).
    cbn [Nat.add advance seq flat_map]. unfold pollEvents at 1, requestAt at 1.
    case_bool_decide as Hr; cbn [clickNext getSrc scripted];
      rewrite ?(Hc Hr), Hs;
      rewrite (bool_decide_eq_false_2 (src ≠ src)) by (by intros ?);
      rewrite IH;
      destruct (advance _ fuel _ _ _ _) as [[[ended w] events]|];
      by rewrite <- ?app_assoc.
Qed.

(** C4, as the program has it.  Against a script whose first [k] polls are
    quiet, the capture-path loop issues the request on every tenth poll and
    waits 100 ms after each poll; it ends without an error when the request
    of poll [k] is rejected, it ends at once when the read of poll [k] shows
    another image, an exception of the read is not caught, and it has no
    retry bound: after [k] quiet polls it is still polling.  Only the
    skip-path loop is bounded: whatever the page source answers it ends
    within ten polls, having made one request. *)
Theorem advance_loops_as_written (k : nat) :
  (∀ j, (j < k)%nat → quiet clickOk srcAt src j) →
  ((k `mod` 10 = 0)%nat → clickOk k = false →
   advance (scripted clickOk srcAt) (S k) src false 0 0%nat
   = Some (NoFurtherPage, k,
           flat_map pollEvents (seq 0 k) ++ [NextPageRequest]))
  ∧ (∀ newSrc,
       ((k `mod` 10 = 0)%nat → clickOk k = true) →
       srcAt k = Ok newSrc → newSrc ≠ src →
       advance (scripted clickOk srcAt) (S k) src false 0 0%nat
       = Some (SrcChanged, S k,
               flat_map pollEvents (seq 0 k) ++ requestAt k ++ [SrcRead]))
  ∧ (∀ message,
       ((k `mod` 10 = 0)%nat → clickOk k = true) →
       srcAt k = Throw message →
       advance (scripted clickOk srcAt) (S k) src false 0 0%nat
       = Some (Uncaught message, S k,
               flat_map pollEvents (seq 0 k) ++ requestAt k ++ [SrcRead]))
  ∧ advance (scripted clickOk srcAt) k src false 0 0%nat = None
  ∧ ∀ (ps : PageSource) (w : World ps),
      let '(ended, _, events) := skipAdvance ps 10 0 w in
      (ended = SrcChanged ∨ ended = NoFurtherPage ∨ ended = RetriesExhausted)
      ∧ (occurrences NextPageRequest events ≤ 1)%nat
      ∧ (occurrences SrcRead events ≤ 20)%nat
      ∧ (occurrences (Delay 100) events ≤ 10)%nat.
Proof.
  intros Hquiet.
  assert (Hrun : ∀ fuel,
    advance (scripted clickOk srcAt) (k + fuel) src false 0 0%nat
    = match advance (scripted clickOk srcAt) fuel src false k k with
      | None => None
      | Some (ended, w, events) =>
          Some (ended, w, flat_map pollEvents (seq 0 k) ++ events)
      end).
  { intros fuel. apply (advance_quiet k 0 fuel). intros j Hj. apply Hquiet. lia. }
  replace (S k) with (k + 1)%nat by lia.
  split; [|split; [|split; [|split]]].
  - intros Hr Hc. rewrite Hrun. cbn [advance].
    rewrite bool_decide_eq_true_2 by done.
    cbn [clickNext scripted]. by rewrite Hc.
  - intros newSrc Hc Hs Hne. rewrite Hrun. cbn [advance]. unfold requestAt.
    case_bool_decide as Hr; cbn [clickNext getSrc scripted];
      rewrite ?(Hc Hr), Hs, bool_decide_eq_true_2 by done;
      by replace (k + 1)%nat with (S k) by lia.
  - intros message Hc Hs. rewrite Hrun. cbn [advance]. unfold requestAt.
    case_bool_decide as Hr; cbn [clickNext getSrc scripted];
      rewrite ?(Hc Hr), Hs;
      by replace (k + 1)%nat with (S k) by lia.
  - specialize (Hrun 0%nat). rewrite Nat.add_0_r in Hrun. by rewrite Hrun.
  - intros ps w. apply (skipAdvance_bounds ps 10 0 w). lia.
Qed.

End Scripted.

(** On a reader that never turns the page the capture-path loop runs out of
    any fuel. *)
Lemma advance_stuck (fuel retries : nat) :
  advance stuckReader fuel (Some (Js.lit "blob:1")) false retries tt = None.
Proof.
  revert retries. induction fuel as [|fuel IH]; intros retries; [done|].
  cbn [advance]. case_bool_decide; cbn [clickNext getSrc stuckReader];
    rewrite bool_decide_eq_false_2 by (by intros ?); by rewrite IH.
Qed.

(** C4 as stated fails: the advance loop of the capture path does not
    terminate for every page source. *)
Lemma capture_advance_never_ends_on_stuck_reader :
  ¬ ∃ fuel ended,
      advance stuckReader fuel (Some (Js.lit "blob:1")) false 0 tt = Some ended.
Proof. intros (fuel & ended & H). by rewrite advance_stuck in H. Qed.

(** C4, on a script that accepts every request and changes the image at
    poll 12: the loop makes the requests of polls 0 and 10, ends at poll 12,
    and has not ended after twelve polls. *)
Lemma advance_loops_as_written_witness :
  advance (scripted (fun _ => true) changesAtTwelve) 13
    (Some (Js.lit "blob:1")) false 0 0%nat
  = Some (SrcChanged, 13%nat,
          flat_map pollEvents (seq 0 12) ++ requestAt 12 ++ [SrcRead])
  ∧ advance (scripted (fun _ => true) changesAtTwelve) 12
      (Some (Js.lit "blob:1")) false 0 0%nat = None.
Proof.
  assert (Hquiet : ∀ j, (j < 12)%nat →
            quiet (fun _ => true) changesAtTwelve (Some (Js.lit "blob:1")) j).
  { intros j Hj. split; [done|].
    unfold changesAtTwelve. by rewrite (proj2 (Nat.ltb_lt j 12) Hj). }
  destruct (advance_loops_as_written (fun _ => true) changesAtTwelve
              (Some (Js.lit "blob:1")) 12 Hquiet) as (_ & Hchanged & _ & Hrunning & _).
  split; [|exact Hrunning].
  apply (Hchanged (Some (Js.lit "blob:2"))); [done | reflexivity | by intros [=]].
Defined.


End AdvanceLoops.

(** ** Resume and verification *)

Section ResumeAndVerify.
Import Extract Scenario.

Lemma fold_max_spec (l : list Z) (a : Z) :
  let m := fold_left Z.max l a in
  (m = a ∨ m ∈ l) ∧ a <= m ∧ ∀ x, x ∈ l → x <= m.
Proof.
  revert a. induction l as [|y l IH]; intros a; simpl.
  - split; [by left|]. split; [lia|]. intros x Hx. by apply elem_of_nil in Hx.
  - destruct (IH (Z.max a y)) as (Hm & Hle & Hall).
    split; [|split].
    + destruct Hm as [Hm|Hm].
      * destruct (Z.max_spec a y) as [[_ E]|[_ E]]; rewrite E in *.
        -- right. rewrite Hm. apply elem_of_cons. by left.
        -- by left.
      * right. apply elem_of_cons. by right.
    + lia.
    + intros x [->|Hx]%elem_of_cons; [lia | by apply Hall].
Qed.

(** [maximum] is the greatest element of a non-empty array. *)
Lemma maximum_greatest (l : list Z) :
  l ≠ [] → maximum l ∈ l ∧ ∀ x, x ∈ l → x <= maximum l.
Proof.
  destruct l as [|a l]; [done|]. intros _. simpl.
  destruct (fold_max_spec l a) as (Hm & Hle & Hall). split.
  - apply elem_of_cons. destruct Hm; auto.
  - intros x [->|Hx]%elem_of_cons; [done | by apply Hall].
Qed.

Lemma pageNumbersOf_positive (pngFiles : list (list N)) (p : Z) :
  p ∈ pageNumbersOf pngFiles → 0 < p.
Proof. unfold pageNumbersOf. by intros [? _]%list_elem_of_filter. Qed.

(** X22.  The resume point of a run that finds a manifest it can read: the
    highest page number among the artifact names plus one, or the larger of the two
    counts plus one when no name yields a page number; the page list of the
    manifest is kept unless there are more artifacts than entries. *)
Lemma resume_point_from_artifacts (existing : BookMetadata)
    (screenshotFiles : list (list N)) :
  let r := resume false (Some (Json existing)) (Ok screenshotFiles) in
  let entries := default [] (pages existing) in
  let artifacts := pngFilesOf screenshotFiles in
  let numbers := pageNumbersOf artifacts in
  startPage r
  = (if numbers is [] then
       Z.max (Z.of_nat (length entries)) (Z.of_nat (length artifacts)) + 1
     else maximum numbers + 1)
  ∧ resumedPages r
    = (if bool_decide (length entries < length artifacts)%nat then [] else entries).
Proof.
  intros r entries artifacts numbers. unfold r, resume. simpl.
  fold entries artifacts numbers.
  assert (Hmax : (0 <? maximum numbers) = (if numbers is [] then false else true)).
  { destruct numbers as [|n0 l0] eqn:E; [done|]. rewrite <- E.
    apply Z.ltb_lt. destruct (maximum_greatest numbers) as [Hin _]; [by rewrite E|].
    by eapply pageNumbersOf_positive. }
  assert (Hlt : (Z.of_nat (length entries) <? Z.of_nat (length artifacts))
                = bool_decide (length entries < length artifacts)%nat).
  { case_bool_decide; [apply Z.ltb_lt | apply Z.ltb_ge]; lia. }
  destruct (Z.ltb_spec 0 (Z.max (Z.of_nat (length entries))
                            (Z.of_nat (length artifacts)))) as [Hpos|Hzero];
    simpl; rewrite ?Hmax, ?Hlt.
  - by destruct numbers.
  - assert (length entries = 0%nat ∧ length artifacts = 0%nat) as [He Ha] by lia.
    assert (Hn : numbers = []).
    { unfold numbers. by apply length_zero_iff_nil in Ha as ->. }
    rewrite Hn, He, Ha. simpl. by split.
Qed.

(** A manifest that does not parse is read as a missing one by both blocks of
    the extraction that read it. *)
Lemma resume_malformed_as_absent (force : bool) (listing : Result (list (list N))) :
  resume force (Some BadJson) listing = resume force None listing
  ∧ appearsComplete force (Some BadJson) listing
    = appearsComplete force None listing.
Proof. by destruct force. Qed.

(** A run that reaches the end of the capture loop reports and writes. *)
Lemma run_finished_summary (ps : PageSource) (fuel : nat) (w : World ps)
    (i : Inputs) (summary : Summary) (manifestPages : list PageChunk)
    (files : list (list N)) (events : list Event) :
  run ps fuel w i = Some (Finished summary manifestPages files events) →
  ∃ parsedToc,
    Toc.parseTocItems (tocItems i) = Ok parsedToc
    ∧ expectedPages summary = Toc.totalContentPages parsedToc
    ∧ extractedPages summary = Z.of_nat (length manifestPages)
    ∧ missingPages summary = expectedPages summary - extractedPages summary
    ∧ ∃ before,
        events = before ++ [VerificationSummary summary;
                            ManifestWritten manifestPages].
Proof.
  unfold run. destruct (appearsComplete _ _ _); [done|].
  destruct (Toc.parseTocItems (tocItems i)) as [parsedToc|m]; [|done].
  destruct (Toc.totalContentPages parsedToc <=? 0); [done|].
  destruct (if 1 <? _ then _ else _) as [[[]|m] w1]; [|done].
  destruct (getPageNav ps w1) as [[nav|m] w2]; [|done].
  destruct (captureLoop _ _ _ _ _ _ _) as [[s|m]|]; [|done..].
  intros [= <- <- <- <-]. exists parsedToc. repeat split; try done.
  by eexists.
Qed.

End ResumeAndVerify.

(** ** Concrete runs *)

Section ConcreteRuns.
Import Scenario.

(** C1, on two chunks out of order whose screenshots are the two page
    screenshots: the first run writes them in order, the second run writes
    the same array. *)
Lemma transcription_rerun_is_idempotent_witness :
  Transcribe.main id (reads "text") unsortedShots (Some (Json (Some unsorted)))
  = Transcribe.Wrote [chunk 0 8 "0-8.png"; chunk 2 10 "2-10.png"] unsorted
  ∧ Transcribe.main id (reads "text") unsortedShots
      (Some (Json (Some [chunk 0 8 "0-8.png"; chunk 2 10 "2-10.png"])))
    = Transcribe.Wrote [chunk 0 8 "0-8.png"; chunk 2 10 "2-10.png"]
        [chunk 0 8 "0-8.png"; chunk 2 10 "2-10.png"].
Proof.
  assert (Hne : unsortedShots ≠ []) by done.
  assert (Hall : ∀ s, s ∈ unsortedShots →
            s ∈ Transcribe.screenshot
                <$> Transcribe.loadExistingContent (Some (Json (Some unsorted)))).
  { intros s Hs. exact Hs. }
  destruct (transcription_rerun_is_idempotent id (reads "text") unsortedShots
              (Some (Json (Some unsorted))) Hne Hall)
    as (Hfirst & _ & _ & Hfile & Hsecond & _).
  split; [exact Hfirst|]. rewrite Hfile in Hsecond. exact Hsecond.
Defined.

(** C1 as stated fails on an empty list of page screenshots: every one of
    them (there is none) is in the manifest, yet the run stops at the
    assertion of line 149 and the manifest is not rewritten in order. *)
Lemma empty_screenshot_list_is_not_rewritten :
  (∀ s, s ∈ ([] : list (list N)) →
        s ∈ Transcribe.screenshot
            <$> Transcribe.loadExistingContent (Some (Json (Some unsorted))))
  ∧ Transcribe.main id (reads "text") [] (Some (Json (Some unsorted)))
    = Transcribe.Aborted "no page screenshots found"
  ∧ Transcribe.contentAfter (Some (Json (Some unsorted)))
      (Transcribe.main id (reads "text") [] (Some (Json (Some unsorted))))
    = Some (Json (Some unsorted))
  ∧ Transcribe.sortChunks unsorted ≠ unsorted.
Proof.
  split; [intros s Hs; by apply elem_of_nil in Hs|].
  repeat split. by vm_compute.
Qed.

(** C9, on a manifest of two chunks and one new page screenshot: the three
    chunks written have three screenshots. *)
Lemma merge_keeps_one_chunk_per_screenshot_witness :
  Transcribe.main id (reads "text")
    (Js.lit "out/B0/pages/1-9.png" :: unsortedShots) (Some (Json (Some unsorted)))
  = Transcribe.Wrote
      [chunk 0 8 "0-8.png"; chunk 1 9 "1-9.png"; chunk 2 10 "2-10.png"]
      [chunk 0 8 "0-8.png"; chunk 1 9 "1-9.png"; chunk 2 10 "2-10.png"]
  ∧ NoDup (Transcribe.screenshot
           <$> [chunk 0 8 "0-8.png"; chunk 1 9 "1-9.png"; chunk 2 10 "2-10.png"]).
Proof.
  assert (Hexisting : NoDup (Transcribe.screenshot
            <$> Transcribe.loadExistingContent (Some (Json (Some unsorted))))).
  { apply (bool_decide_unpack _). by vm_compute. }
  assert (Hshots : NoDup (Js.lit "out/B0/pages/1-9.png" :: unsortedShots)).
  { apply (bool_decide_unpack _). by vm_compute. }
  split; [reflexivity|].
  exact (proj1 (merge_keeps_one_chunk_per_screenshot id (reads "text")
                  (Js.lit "out/B0/pages/1-9.png" :: unsortedShots)
                  (Some (Json (Some unsorted))) Hexisting Hshots)).
Defined.

(** C3 as stated fails: with a [content.json] that does not parse the
    transcription does not abort; it transcribes every screenshot again and
    overwrites the file.  The extraction resumes from nothing. *)
Lemma malformed_manifest_does_not_abort :
  Transcribe.main id (reads "text") [Js.lit "out/B0/pages/0-8.png"] (Some BadJson)
  = Transcribe.Wrote [chunk 0 8 "0-8.png"] [chunk 0 8 "0-8.png"]
  ∧ Extract.resume false (Some BadJson) (Ok fiveArtifacts)
    = {| Extract.resumedPages := []; Extract.startPage := 1 |}.
Proof. split; by vm_compute. Qed.

(** C3, as the program has it.  A manifest that is present and does not parse
    is read as a missing one: the transcription treats [content.json] as
    empty, the extraction starts from page 1 with no pages, and each run ends
    as it would without the file. *)
Theorem malformed_manifest_is_read_as_absent :
  (∀ normalize recognize pageScreenshots,
     Transcribe.main normalize recognize pageScreenshots (Some BadJson)
     = Transcribe.main normalize recognize pageScreenshots None)
  ∧ (∀ force listing,
       Extract.resume force (Some BadJson) listing
       = {| Extract.resumedPages := []; Extract.startPage := 1 |}
       ∧ Extract.appearsComplete force (Some BadJson) listing = false)
  ∧ (∀ ps fuel w force pagesDir dirListing tocItems,
       Extract.run ps fuel w
         {| Extract.force := force; Extract.metadataFile := Some BadJson;
            Extract.pagesDir := pagesDir; Extract.dirListing := dirListing;
            Extract.tocItems := tocItems |}
       = Extract.run ps fuel w
           {| Extract.force := force; Extract.metadataFile := None;
              Extract.pagesDir := pagesDir; Extract.dirListing := dirListing;
              Extract.tocItems := tocItems |}).
Proof.
  split; [|split].
  - intros. apply main_malformed_as_absent.
  - intros force listing. by destruct force.
  - intros. by destruct force.
Qed.

(** C5, on the example of the specification: the start is the chapter at
    page 5 of 100 and the end is the entry named Copyright at page 96. *)
Lemma parseTocItems_classifies_witness :
  Toc.parseTocItems tocExample
  = Ok {| Toc.firstPageTocItem :=
            {| Toc.title := Js.lit "Chapter One"; Toc.page := Some 5;
               Toc.location := None; Toc.total := 100 |};
          Toc.afterLastPageTocItem :=
            Some {| Toc.title := Js.lit "Copyright"; Toc.page := Some 96;
                    Toc.location := None; Toc.total := 100 |} |}
  ∧ Spec.qualifiesAsEnd
      {| Toc.title := Js.lit "Copyright"; Toc.page := Some 96;
         Toc.location := None; Toc.total := 100 |}.
Proof.
  assert (Htotal : ∀ item, item ∈ tocExample → 0 < Toc.total item).
  { intros item Hitem. unfold tocExample in Hitem.
    repeat (apply elem_of_cons in Hitem as [->|Hitem]; [done|]).
    by apply elem_of_nil in Hitem. }
  pose proof (parseTocItems_classifies tocExample Htotal) as H.
  change (Toc.parseTocItems tocExample) with
    (Ok {| Toc.firstPageTocItem :=
            {| Toc.title := Js.lit "Chapter One"; Toc.page := Some 5;
               Toc.location := None; Toc.total := 100 |};
          Toc.afterLastPageTocItem :=
            Some {| Toc.title := Js.lit "Copyright"; Toc.page := Some 96;
                    Toc.location := None; Toc.total := 100 |} |}) in H.
  split; [reflexivity|].
  destruct H as (i & _ & _ & _ & j & _ & _ & Hq & _). exact Hq.
Defined.

(** C6: the program retries an exhausted quota.  The service reports it with
    status 429, and the status test of line 127 answers before the type test
    of line 133 is reached. *)
Theorem quota_error_with_status_429_is_retried :
  Transcribe.isRetryableError (Some quotaExhausted) = true
  ∧ Transcribe.type quotaExhausted = Some (Js.lit "insufficient_quota").
Proof. split; reflexivity. Qed.

(** C2: the program clears a stale page list and never rebuilds it.  Five
    artifacts, pages 1 to 5, and a manifest of three entries: the run resumes
    at page 6 with no pages, numbers the new captures from 0, and the
    manifest it writes has no entry for any of the five artifacts. *)
Theorem stale_manifest_is_cleared_not_rebuilt :
  Extract.resume false (Some (Json staleManifest)) (Ok fiveArtifacts)
  = {| Extract.resumedPages := []; Extract.startPage := 6 |}
  ∧ ∃ summary manifestPages files events,
      Extract.run (reader 10) 30 1 staleRun
      = Some (Extract.Finished summary manifestPages files events)
      ∧ (fun c => (Extract.index c, Extract.page c)) <$> manifestPages
        = [(0, 6); (1, 7); (2, 8); (3, 9)]
      ∧ (∀ name, name ∈ fiveArtifacts → name ∈ files)
      ∧ ∀ name, name ∈ fiveArtifacts →
          Js.lit "out/B0/pages/" ++ name ∉ Extract.screenshot <$> manifestPages.
Proof.
  split; [by vm_compute|].
  do 4 eexists. split; [by vm_compute|].
  split; [by vm_compute|]. split.
  - intros name Hname. unfold fiveArtifacts in Hname. rewrite !fmap_cons in Hname.
    repeat (apply elem_of_cons in Hname as [->|Hname];
            [apply (bool_decide_unpack _); by vm_compute|]).
    by apply elem_of_nil in Hname.
  - intros name Hname. unfold fiveArtifacts in Hname. rewrite !fmap_cons in Hname.
    repeat (apply elem_of_cons in Hname as [->|Hname];
            [apply (bool_decide_unpack _); by vm_compute|]).
    by apply elem_of_nil in Hname.
Qed.

(** C8: the program expects one page more than the capture loop takes.  A
    book of ten pages without back matter has its end boundary at page 10;
    the run captures every page below it, 1 to 9, and reports 10 expected
    pages and 1 missing page with a warning, where [endBoundary - 1] is 9. *)
Theorem complete_run_reports_a_missing_page :
  ∃ parsedToc manifestPages files events,
    Toc.parseTocItems tenPages = Ok parsedToc
    ∧ Toc.totalContentPages parsedToc = 10
    ∧ Extract.run (reader 10) 30 1 freshRun
      = Some (Extract.Finished
                {| Extract.expectedPages := 10; Extract.extractedPages := 9;
                   Extract.missingPages := 1; Extract.verdict := Extract.Warning |}
                manifestPages files events)
    ∧ Extract.page <$> manifestPages = [1; 2; 3; 4; 5; 6; 7; 8; 9].
Proof.
  do 4 eexists. split; [reflexivity|]. split; [reflexivity|].
  split; by vm_compute.
Qed.

End ConcreteRuns.

(** ** The examples of the specification *)

Section SpecificationExamples.
Import Scenario.

(** Merge ordering. *)
Example merge_ordering :
  Transcribe.sortChunks
    ([chunk 2 10 "2-10.png"; chunk 0 8 "0-8.png"] ++ [chunk 1 9 "1-9.png"])
  = [chunk 0 8 "0-8.png"; chunk 1 9 "1-9.png"; chunk 2 10 "2-10.png"].
Proof. reflexivity. Qed.

(** Retry classification: 429 and 503 are retried, an invalid request is
    not, a connection reset is. *)
Example retry_classification :
  Transcribe.isRetryableError
    (Some {| Transcribe.status := Some 429; Transcribe.type := None;
             Transcribe.code := None |}) = true
  ∧ Transcribe.isRetryableError
      (Some {| Transcribe.status := Some 400;
               Transcribe.type := Some (Js.lit "invalid_request_error");
               Transcribe.code := None |}) = false
  ∧ Transcribe.isRetryableError
      (Some {| Transcribe.status := Some 503; Transcribe.type := None;
               Transcribe.code := None |}) = true
  ∧ Transcribe.isRetryableError
      (Some {| Transcribe.status := None; Transcribe.type := None;
               Transcribe.code := Some (Js.lit "ECONNRESET") |}) = true.
Proof. repeat split. Qed.

(** A book title as a directory name. *)
Example sanitizeDirname_title :
  Utils.sanitizeDirname (Js.lit "  Dune:  Part 1/2 <draft>  ")
  = Js.lit "Dune Part 12 draft".
Proof. reflexivity. Qed.

(** The file names the extraction writes hold two numbers; the regular
    expression of the transcription then captures the last digit of the
    first one. *)
Example matchScreenshot_two_numbers :
  Transcribe.matchScreenshot (Js.lit "out/B0/pages/0012-0034.png")
  = Some (Js.lit "2", Js.lit "0034")
  ∧ Transcribe.matchScreenshot (Js.lit "out/B0/pages/7-0012-0034.png")
    = Some (Js.lit "0012", Js.lit "0034").
Proof. split; reflexivity. Qed.

(** A manifest that lacks [meta.totalPages] always appears complete. *)
Example stale_manifest_without_total_appears_complete :
  Extract.appearsComplete false
    (Some (Json {| Extract.totalPages := None;
                   Extract.pages := Extract.pages staleManifest |}))
    (Ok fiveArtifacts) = true.
Proof. reflexivity. Qed.

End SpecificationExamples.

(** ** Decimal digits *)

Section DecimalDigits.

Lemma uintDigits_digits (d : Decimal.uint) :
  Forall (fun c => Js.isDigit c = true) (Js.uintDigits d).
Proof. induction d; simpl; constructor; done. Qed.

Lemma parseDigits_acc (d : Decimal.uint) (acc : positive) :
  fold_left (fun a c => 10 * a + (Z.of_N c - 48)) (Js.uintDigits d) (Z.pos acc)
  = Z.pos (Pos.of_uint_acc d acc).
Proof.
  revert acc. induction d; intros acc; simpl; [done|..];
    rewrite <- IHd; f_equal; lia.
Qed.

Lemma parseDigits_uint (d : Decimal.uint) :
  Js.parseDigits (Js.uintDigits d) = Z.of_N (Pos.of_uint d).
Proof.
  unfold Js.parseDigits. induction d; simpl; [done| exact IHd |..];
    apply (parseDigits_acc d).
Qed.

(** Reading back the decimal digits of a non-negative integer. *)
Lemma parseDigits_toString (n : Z) : 0 <= n → Js.parseDigits (Js.toString n) = n.
Proof.
  intros Hn. unfold Js.toString. rewrite parseDigits_uint.
  change (Pos.of_uint (N.to_uint (Z.to_N n))) with (N.of_uint (N.to_uint (Z.to_N n))).
  rewrite DecimalN.Unsigned.of_to. lia.
Qed.

Lemma toString_digits (n : Z) :
  Forall (fun c => Js.isDigit c = true) (Js.toString n).
Proof. apply uintDigits_digits. Qed.

Lemma toString_nonempty (n : Z) : Js.toString n ≠ [].
Proof.
  unfold Js.toString. destruct (Z.to_N n) as [|p]; [done|].
  simpl. pose proof (DecimalPos.Unsigned.to_uint_nonnil p) as H.
  destruct (Pos.to_uint p); [done|..]; done.
Qed.

Lemma parseDigits_app (s : list N) (c : N) :
  Js.parseDigits (s ++ [c]) = 10 * Js.parseDigits s + (Z.of_N c - 48).
Proof. unfold Js.parseDigits. by rewrite fold_left_app. Qed.

Lemma parseDigits_zeros (k : nat) (s : list N) :
  Js.parseDigits (replicate k 48%N ++ s) = Js.parseDigits s.
Proof.
  unfold Js.parseDigits. rewrite fold_left_app. f_equal.
  induction k as [|k IH]; [done|]. simpl. exact IH.
Qed.

Lemma parseDigits_nonneg (s : list N) :
  Forall (fun c => Js.isDigit c = true) s → 0 <= Js.parseDigits s.
Proof.
  induction s as [|c s IH] using rev_ind; [done|].
  intros [Hs Hc]%Forall_app. rewrite parseDigits_app.
  apply Forall_inv in Hc. unfold Js.isDigit in Hc.
  apply andb_true_iff in Hc as [H1%N.leb_le H2]. specialize (IH Hs). lia.
Qed.

(** A greedy run stops at the first code unit outside the class. *)
Lemma span_app (class : N → bool) (run rest : list N) :
  Forall (fun c => class c = true) run →
  (if rest is c :: _ then class c = false else True) →
  Position.span class (run ++ rest) = (run, rest).
Proof.
  intros Hrun Hrest. induction Hrun as [|c run Hc _ IH]; simpl.
  - destruct rest as [|c rest]; [done|]. simpl. by rewrite Hrest.
  - by rewrite Hc, IH.
Qed.

Lemma span_spec (class : N → bool) (s run rest : list N) :
  Position.span class s = (run, rest) →
  s = run ++ rest ∧ Forall (fun c => class c = true) run
  ∧ (if rest is c :: _ then class c = false else True).
Proof.
  revert run rest. induction s as [|c s IH]; intros run rest; simpl.
  - by intros [= <- <-].
  - destruct (class c) eqn:Hc.
    + destruct (Position.span class s) as [run' rest'] eqn:E.
      intros [= <- <-]. destruct (IH _ _ eq_refl) as (-> & Hrun & Hrest).
      repeat split; [by constructor | done].
    + intros [= <- <-]. simpl. by repeat split.
Qed.

Lemma spanDigits_span (s : list N) : Js.spanDigits s = Position.span Js.isDigit s.
Proof.
  induction s as [|c s IH]; simpl; [done|]. by rewrite IH.
Qed.

End DecimalDigits.

(** ** Roman numerals *)

Section RomanNumerals.

Import Roman.

Lemma numerals_cases (c : N) (v : Z) :
  numerals c = Some v →
  (c = 73%N ∧ v = 1) ∨ (c = 86%N ∧ v = 5) ∨ (c = 88%N ∧ v = 10)
  ∨ (c = 76%N ∧ v = 50) ∨ (c = 67%N ∧ v = 100) ∨ (c = 68%N ∧ v = 500)
  ∨ (c = 77%N ∧ v = 1000).
Proof.
  unfold numerals.
  repeat (match goal with
          | |- context [(c =? ?k)%N] =>
              let E := fresh "E" in
              destruct (c =? k)%N eqn:E;
              [apply N.eqb_eq in E; intros [= <-]; tauto|]
          end).
  done.
Qed.

Lemma numerals_range (c : N) (v : Z) : numerals c = Some v → 1 <= v <= 1000.
Proof. intros H. apply numerals_cases in H. lia. Qed.

(** Two numerals of different value differ by a factor of two at least. *)
Lemma numerals_gap (c c' : N) (v v' : Z) :
  numerals c = Some v → numerals c' = Some v' → v < v' → 2 * v <= v'.
Proof.
  intros H H'. apply numerals_cases in H. apply numerals_cases in H'. lia.
Qed.

Lemma isRomanLetter_numerals (c : N) :
  Position.isRomanLetter c = true ↔ is_Some (numerals (Js.canonicalize c)).
Proof.
  unfold Position.isRomanLetter. generalize (Js.canonicalize c). intros k.
  split.
  - intros H. apply bool_decide_eq_true in H.
    repeat (apply elem_of_cons in H as [->|H]; [by eexists|]).
    by apply elem_of_nil in H.
  - intros [v H]. apply bool_decide_eq_true.
    apply numerals_cases in H.
    destruct H as [[-> _]|[[-> _]|[[-> _]|[[-> _]|[[-> _]|[[-> _]|[-> _]]]]]]];
      set_solver.
Qed.

Lemma deromanizeLoop_NaN (roman : list N) : deromanizeLoop roman None = None.
Proof. induction roman as [|c roman IH]; [done|]. simpl. exact IH. Qed.

Lemma deromanizeLoop_acc (roman : list N) (a : Z) :
  deromanizeLoop roman (Some a) = Z.add a <$> deromanizeLoop roman (Some 0).
Proof.
  revert a. induction roman as [|c roman IH]; intros a; simpl.
  - f_equal. lia.
  - destruct (numerals c) as [v|]; [|by rewrite deromanizeLoop_NaN].
    set (sign := match head roman ≫= numerals with
                 | Some next => if v <? next then -1 else 1
                 | None => 1
                 end).
    rewrite (IH (a + v * sign)), (IH (0 + v * sign)).
    destruct (deromanizeLoop roman (Some 0)) as [r|]; simpl; [|done].
    f_equal. lia.
Qed.

(** The loop on numerals that are all in the table: the result is a number
    that is at least the value of the first numeral. *)
Lemma deromanizeLoop_valid (roman : list N) :
  Forall (fun c => is_Some (numerals c)) roman →
  ∃ r, deromanizeLoop roman (Some 0) = Some r
       ∧ r <= 1000 * Z.of_nat (length roman)
       ∧ match roman with
         | [] => r = 0
         | c :: _ => ∃ v, numerals c = Some v ∧ v <= r
         end.
Proof.
  induction 1 as [|c roman [v Hv] Hroman (r & Hr & Hup & Hlow)].
  - by exists 0.
  - cbn [deromanizeLoop]. rewrite Hv. cbn zeta. rewrite deromanizeLoop_acc, Hr.
    pose proof (numerals_range _ _ Hv) as Hrange.
    destruct roman as [|c' roman'].
    + simpl in *. subst r. eexists; split; [done|]. split; [lia|].
      exists v. split; [done|lia].
    + destruct Hlow as (v' & Hv' & Hlow). cbn [head mbind option_bind].
      rewrite Hv'. cbn [length] in *.
      pose proof (numerals_range _ _ Hv').
      destruct (Z.ltb_spec v v') as [Hlt|Hge]; simpl.
      * pose proof (numerals_gap _ _ _ _ Hv Hv' Hlt).
        eexists; split; [done|]. split; [lia|]. exists v. split; [done|lia].
      * eexists; split; [done|]. split; [lia|]. exists v. split; [done|lia].
Qed.

Lemma deromanizeLoop_invalid (roman : list N) (num : option Z) :
  Exists (fun c => numerals c = None) roman → deromanizeLoop roman num = None.
Proof.
  intros H. revert num. induction H as [c roman Hc|c roman _ IH]; intros num.
  - cbn [deromanizeLoop]. rewrite Hc. cbn zeta.
    destruct num; apply deromanizeLoop_NaN.
  - cbn [deromanizeLoop]. apply IH.
Qed.

Lemma canonicalize_lower (c : N) : Js.canonicalize (Spec.lower c) = Js.canonicalize c.
Proof.
  unfold Js.canonicalize, Spec.lower.
  destruct (N.leb_spec 65 c), (N.leb_spec c 90); cbn [andb]; try done.
  destruct (N.leb_spec 97 (c + 32)), (N.leb_spec (c + 32) 122); cbn [andb];
    try lia.
  destruct (N.leb_spec 97 c), (N.leb_spec c 122); cbn [andb]; lia.
Qed.

Lemma deromanize_toLowerCase (s : list N) :
  deromanize (Vocabulary.toLowerCase s) = deromanize s.
Proof.
  unfold deromanize, toUpperCase, Vocabulary.toLowerCase.
  rewrite <- list_fmap_compose. f_equal.
  apply list_fmap_ext. intros _ c _. apply canonicalize_lower.
Qed.

Lemma deromanize_toRoman (n : Z) :
  1 <= n <= 3999 → deromanize (Vocabulary.toRoman n) = Some n.
Proof.
  intros Hn.
  assert (forallb (fun k => bool_decide
            (deromanize (Vocabulary.toRoman (Z.of_nat k)) = Some (Z.of_nat k)))
            (seq 1 3999) = true) as Hall by (vm_compute; reflexivity).
  rewrite forallb_forall in Hall.
  specialize (Hall (Z.to_nat n)).
  rewrite Z2Nat.id in Hall by lia.
  eapply bool_decide_eq_true_1, Hall, in_seq. lia.
Qed.

Lemma deromanize_valid (s : list N) :
  s ≠ [] → Forall (fun c => Position.isRomanLetter c = true) s →
  ∃ v, deromanize s = Some v ∧ 1 <= v <= 1000 * Z.of_nat (length s).
Proof.
  unfold deromanize, toUpperCase. intros Hne Hs.
  destruct (deromanizeLoop_valid (Js.canonicalize <$> s)) as (r & Hr & Hup & Hlow).
  { apply Forall_fmap. eapply Forall_impl; [exact Hs|].
    intros c Hc. by apply isRomanLetter_numerals. }
  exists r. split; [done|]. rewrite length_fmap in Hup. split; [|done].
  destruct s as [|c s]; [done|]. cbn [fmap list_fmap] in Hlow.
  destruct Hlow as (v & Hv & Hle). apply numerals_range in Hv. lia.
Qed.

(** X1.  [deromanize] reads back every standard roman numeral: for each
    number from 1 to 3999, written in the usual subtractive notation in upper
    or in lower case, the result is that number. *)
Theorem deromanize_reads_standard_numerals (n : Z) :
  1 <= n <= 3999 →
  deromanize (Vocabulary.toRoman n) = Some n
  ∧ deromanize (Vocabulary.toLowerCase (Vocabulary.toRoman n)) = Some n.
Proof.
  intros Hn. rewrite deromanize_toLowerCase. split; by apply deromanize_toRoman.
Qed.

Lemma deromanize_reads_standard_numerals_witness :
  1 <= 1994 <= 3999
  ∧ deromanize (Js.lit "MCMXCIV") = Some 1994
  ∧ deromanize (Js.lit "mcmxciv") = Some 1994.
Proof.
  split; [lia|]. apply (deromanize_reads_standard_numerals 1994). lia.
Defined.

(** X2.  On a non-empty string of the letters c, d, i, l, m, v, x in either
    case, which is what the position parser hands over, [deromanize] gives a
    number, never [NaN]; the number is at least 1 and at most 1000 times the
    length of the string, whatever the order of the letters. *)
Theorem deromanize_of_roman_letters_is_positive (s : list N) :
  s ≠ [] → Forall (fun c => Position.isRomanLetter c = true) s →
  ∃ v, deromanize s = Some v ∧ 1 <= v <= 1000 * Z.of_nat (length s).
Proof. apply deromanize_valid. Qed.

Lemma deromanize_of_roman_letters_is_positive_witness :
  Js.lit "iix" ≠ []
  ∧ Forall (fun c => Position.isRomanLetter c = true) (Js.lit "iix")
  ∧ ∃ v, deromanize (Js.lit "iix") = Some v ∧ 1 <= v <= 1000 * 3.
Proof.
  assert (Js.lit "iix" ≠ []) as H1 by done.
  assert (Forall (fun c => Position.isRomanLetter c = true) (Js.lit "iix")) as H2
    by (repeat constructor).
  split; [exact H1|]. split; [exact H2|].
  exact (deromanize_of_roman_letters_is_positive (Js.lit "iix") H1 H2).
Defined.

(** X3.  On an ASCII string, [deromanize] gives [NaN] exactly when some
    character is not one of the seven numeral letters in either case. *)
Theorem deromanize_NaN_iff_foreign_character (s : list N) :
  Forall (fun c => (c < 128)%N) s →
  deromanize s = None ↔ Exists (fun c => Position.isRomanLetter c = false) s.
Proof.
  intros _. split.
  - intros HNaN. destruct (decide (s = [])) as [->|Hne]; [done|].
    destruct (decide (Forall (fun c => Position.isRomanLetter c = true) s))
      as [Hall|Hnot].
    + destruct (deromanize_valid s Hne Hall) as (v & Hv & _). congruence.
    + apply not_Forall_Exists in Hnot; [|intros c; apply _].
      eapply Exists_impl; [exact Hnot|]. intros c Hc. simpl in Hc.
      by destruct (Position.isRomanLetter c).
  - intros Hs. unfold deromanize, toUpperCase. apply deromanizeLoop_invalid.
    apply Exists_fmap. eapply Exists_impl; [exact Hs|].
    intros c Hc. simpl. destruct (numerals (Js.canonicalize c)) eqn:E; [|done].
    assert (Position.isRomanLetter c = true) as Ht
      by (apply isRomanLetter_numerals; by eexists).
    congruence.
Qed.

Lemma deromanize_NaN_iff_foreign_character_witness :
  Forall (fun c => (c < 128)%N) (Js.lit "xiv.")
  ∧ (deromanize (Js.lit "xiv.") = None
     ↔ Exists (fun c => Position.isRomanLetter c = false) (Js.lit "xiv.")).
Proof.
  assert (Forall (fun c => (c < 128)%N) (Js.lit "xiv.")) as H
    by (repeat constructor).
  split; [exact H|].
  exact (deromanize_NaN_iff_foreign_character (Js.lit "xiv.") H).
Defined.

End RomanNumerals.

(** ** The position parser *)

Section PositionParser.

Import Position Vocabulary.

Lemma isDigit_range (c : N) : Js.isDigit c = true ↔ (48 <= c <= 57)%N.
Proof.
  unfold Js.isDigit. rewrite andb_true_iff, !N.leb_le. done.
Qed.

Lemma isWhiteSpace_false (c : N) : (33 <= c < 160)%N → Js.isWhiteSpace c = false.
Proof.
  intros Hc. unfold Js.isWhiteSpace. apply orb_false_iff. split.
  - apply bool_decide_eq_false. intros H.
    repeat (apply elem_of_cons in H as [->|H]; [lia|]).
    by apply elem_of_nil in H.
  - apply andb_false_iff. left. apply N.leb_gt. lia.
Qed.

Lemma isRomanLetter_cases (c : N) :
  isRomanLetter c = true →
  c ∈ [67; 68; 73; 76; 77; 86; 88; 99; 100; 105; 108; 109; 118; 120]%N.
Proof.
  unfold isRomanLetter, Js.canonicalize. intros H%bool_decide_eq_true.
  rewrite !elem_of_cons, elem_of_nil in H. rewrite !elem_of_cons, elem_of_nil.
  destruct (N.leb_spec 97 c), (N.leb_spec c 122); cbn [andb] in H; lia.
Qed.

Lemma isRomanLetter_range (c : N) : isRomanLetter c = true → (67 <= c <= 120)%N.
Proof.
  intros H%isRomanLetter_cases.
  repeat (apply elem_of_cons in H as [->|H]; [lia|]).
  by apply elem_of_nil in H.
Qed.

Lemma isRomanLetter_not_digit (c : N) :
  isRomanLetter c = true → Js.isDigit c = false.
Proof.
  intros H%isRomanLetter_range. apply not_true_is_false.
  rewrite isDigit_range. lia.
Qed.

Lemma ciEqb_false (l c : N) :
  (l < 97 ∨ 122 < l)%N → c ≠ l → (97 <= l + 32 <= 122 → c ≠ l + 32)%N →
  Js.ciEqb l c = false.
Proof.
  intros Hl Hc Hc'. unfold Js.ciEqb, Js.canonicalize. apply N.eqb_neq.
  destruct (N.leb_spec 97 l), (N.leb_spec l 122); cbn [andb]; try lia;
    destruct (N.leb_spec 97 c), (N.leb_spec c 122); cbn [andb]; lia.
Qed.

Lemma startsOutside_app (class other : N → bool) (run rest : list N) :
  run ≠ [] → Forall (fun c => other c = true) run →
  (∀ c, other c = true → class c = false) →
  startsOutside class (run ++ rest).
Proof.
  intros Hne Hrun Hdis. destruct Hrun as [|c run Hc _]; [done|].
  simpl. by apply Hdis.
Qed.

Lemma afterKeyword_app (kw written rest : list N) :
  length written = length kw → Js.ciPrefix kw written = true →
  afterKeyword kw (written ++ rest) = Some rest.
Proof.
  intros Hlen Hpre. unfold afterKeyword.
  assert (Js.ciPrefix kw (written ++ rest) = true) as ->.
  { clear Hlen. revert written Hpre.
    induction kw as [|k kw IH]; intros [|c written]; simpl; try done.
    intros [-> H]%andb_true_iff. simpl. by apply IH. }
  rewrite <- Hlen. by rewrite drop_app_length.
Qed.

Lemma afterKeyword_mismatch (k : N) (kw : list N) (c : N) (s : list N) :
  Js.ciEqb k c = false → afterKeyword (k :: kw) (c :: s) = None.
Proof. intros H. unfold afterKeyword. simpl. by rewrite H. Qed.

Lemma afterSpaces_space (rest : list N) :
  startsOutside Js.isWhiteSpace rest → afterSpaces (32%N :: rest) = Some rest.
Proof.
  intros H. unfold afterSpaces. change (32%N :: rest) with ([32%N] ++ rest).
  by rewrite span_app by (done || by repeat constructor).
Qed.

Lemma capture_app (class : N → bool) (run rest : list N) :
  run ≠ [] → Forall (fun c => class c = true) run → startsOutside class rest →
  capture class (run ++ rest) = Some (run, rest).
Proof.
  intros Hne Hrun Hrest. unfold capture. rewrite span_app by done.
  by destruct run.
Qed.

Lemma capture_outside (class : N → bool) (s : list N) :
  startsOutside class s → capture class s = None.
Proof.
  intros H. unfold capture. destruct s as [|c s]; [done|].
  simpl in *. by rewrite H.
Qed.

(** The pattern on a rendered position. *)
Lemma matchAt_rendered (kw : list N) (item : N → bool)
    (written first second rest : list N) :
  length written = length kw → Js.ciPrefix kw written = true →
  first ≠ [] → Forall (fun c => item c = true) first →
  (∀ c, item c = true → Js.isWhiteSpace c = false) → item 32%N = false →
  second ≠ [] → Forall (fun c => Js.isDigit c = true) second →
  startsOutside Js.isDigit rest →
  matchAt kw item
    (written ++ 32%N :: first ++ 32%N :: Js.lit "of" ++ 32%N :: second ++ rest)
  = Some (first, second).
Proof.
  intros Hlen Hkw Hne1 Hfirst Hitem Hsp Hne2 Hsecond Hrest. unfold matchAt.
  rewrite afterKeyword_app by done. cbn [mbind option_bind].
  rewrite afterSpaces_space by (by eapply startsOutside_app). cbn [mbind option_bind].
  rewrite capture_app by done. cbn [mbind option_bind].
  rewrite afterSpaces_space by (simpl; by apply isWhiteSpace_false).
  cbn [mbind option_bind].
  rewrite (afterKeyword_app (Js.lit "of") (Js.lit "of")) by done.
  cbn [mbind option_bind].
  rewrite afterSpaces_space.
  2:{ eapply startsOutside_app; [done..|]. intros c Hc%isDigit_range.
      apply isWhiteSpace_false. lia. }
  cbn [mbind option_bind]. by rewrite capture_app.
Qed.

Lemma search_found (kw : list N) (item : N → bool) (s : list N) groups :
  matchAt kw item s = Some groups → search kw item s = Some groups.
Proof. intros H. destruct s; simpl; by rewrite H. Qed.

Lemma matchAt_mismatch (k : N) (kw : list N) (item : N → bool) (c : N) (s : list N) :
  Js.ciEqb k c = false → matchAt (k :: kw) item (c :: s) = None.
Proof. intros H. unfold matchAt. by rewrite afterKeyword_mismatch. Qed.

(** The search passes over code units that are not the first letter of the
    keyword. *)
Lemma search_skip (k : N) (kw : list N) (item : N → bool) (pre s : list N) :
  Forall (fun c => Js.ciEqb k c = false) pre →
  search (k :: kw) item (pre ++ s) = search (k :: kw) item s.
Proof.
  induction 1 as [|c pre Hc _ IH]; [done|].
  cbn [app search]. by rewrite matchAt_mismatch.
Qed.

Lemma search_absent (kw : list N) (item : N → bool) (s : list N) :
  Js.ciSearch kw s = false → search kw item s = None.
Proof.
  induction s as [|c s IH]; cbn [Js.ciSearch search];
    intros [Hpre Hs]%orb_false_iff;
    unfold matchAt, afterKeyword; rewrite Hpre; cbn [mbind option_bind]; auto.
Qed.

(** What a match captured. *)
Lemma capture_spec (class : N → bool) (s run rest : list N) :
  capture class s = Some (run, rest) →
  run ≠ [] ∧ Forall (fun c => class c = true) run.
Proof.
  unfold capture. destruct (span class s) as [run' rest'] eqn:E.
  apply span_spec in E as (_ & Hrun & _).
  destruct run'; [done|]. by intros [= <- <-].
Qed.

Lemma matchAt_spec (kw : list N) (item : N → bool) (s first second : list N) :
  matchAt kw item s = Some (first, second) →
  first ≠ [] ∧ Forall (fun c => item c = true) first
  ∧ second ≠ [] ∧ Forall (fun c => Js.isDigit c = true) second.
Proof.
  unfold matchAt. intros H.
  destruct (afterKeyword kw s) as [r1|]; [|done]. cbn [mbind option_bind] in H.
  destruct (afterSpaces r1) as [r2|]; [|done]. cbn [mbind option_bind] in H.
  destruct (capture item r2) as [[f r3]|] eqn:E1; [|done].
  cbn [mbind option_bind] in H.
  destruct (afterSpaces r3) as [r4|]; [|done]. cbn [mbind option_bind] in H.
  destruct (afterKeyword (Js.lit "of") r4) as [r5|]; [|done].
  cbn [mbind option_bind] in H.
  destruct (afterSpaces r5) as [r6|]; [|done]. cbn [mbind option_bind] in H.
  destruct (capture Js.isDigit r6) as [[g r7]|] eqn:E2; [|done].
  cbn [mbind option_bind] in H. injection H as <- <-.
  apply capture_spec in E1, E2. tauto.
Qed.

Lemma search_spec (kw : list N) (item : N → bool) (s first second : list N) :
  search kw item s = Some (first, second) →
  first ≠ [] ∧ Forall (fun c => item c = true) first
  ∧ second ≠ [] ∧ Forall (fun c => Js.isDigit c = true) second.
Proof.
  induction s as [|c s IH]; cbn [search].
  - destruct (matchAt kw item []) as [[f g]|] eqn:E; [|done].
    intros [= <- <-]. by eapply matchAt_spec.
  - destruct (matchAt kw item (c :: s)) as [[f g]|] eqn:E; [|done].
    intros [= <- <-]. by eapply matchAt_spec.
Qed.

Lemma toString_rendered (n : Z) :
  Js.toString n ≠ [] ∧ Forall (fun c => Js.isDigit c = true) (Js.toString n).
Proof. split; [apply toString_nonempty | apply toString_digits]. Qed.

Lemma digit_not_space (c : N) : Js.isDigit c = true → Js.isWhiteSpace c = false.
Proof. intros H%isDigit_range. apply isWhiteSpace_false. lia. Qed.

Lemma roman_not_space (c : N) : isRomanLetter c = true → Js.isWhiteSpace c = false.
Proof. intros H%isRomanLetter_range. apply isWhiteSpace_false. lia. Qed.

Lemma digit_not_letter (l c : N) :
  (65 <= l <= 90)%N → Js.isDigit c = true → Js.ciEqb l c = false.
Proof. intros Hl H%isDigit_range. apply ciEqb_false; lia. Qed.

Lemma roman_not_letter (l c : N) :
  (65 <= l <= 90)%N →
  l ∉ [67; 68; 73; 76; 77; 86; 88]%N → isRomanLetter c = true →
  Js.ciEqb l c = false.
Proof.
  intros Hl Hnot H%isRomanLetter_cases.
  rewrite !elem_of_cons, elem_of_nil in H.
  rewrite !not_elem_of_cons in Hnot. apply ciEqb_false; lia.
Qed.

(** The third pattern's keyword search does not stop inside a numeral. *)
Lemma search_location_numeral (item : N → bool) (numeral rest : list N) :
  Forall (fun c => isRomanLetter c = true) numeral →
  startsOutside (Js.ciEqb 111) rest →
  search (Js.lit "location") item (numeral ++ rest)
  = search (Js.lit "location") item rest.
Proof.
  induction 1 as [|c numeral Hc Hnumeral IH]; intros Hrest; [done|].
  cbn [app search]. rewrite <- IH by done.
  assert (matchAt (Js.lit "location") item (c :: numeral ++ rest) = None) as ->;
    [|done].
  unfold matchAt, afterKeyword.
  assert (Js.ciPrefix (Js.lit "location") (c :: numeral ++ rest) = false) as ->;
    [|done].
  change (Js.lit "location") with (108%N :: 111%N :: Js.lit "cation").
  cbn [Js.ciPrefix]. apply andb_false_iff. right.
  destruct numeral as [|c' numeral'].
  - destruct rest as [|c' rest']; [done|]. simpl in Hrest. simpl.
    by rewrite Hrest.
  - apply Forall_inv in Hnumeral. cbn [app Js.ciPrefix].
    change (Js.ciEqb 111 c') with (Js.ciEqb 79 c').
    rewrite (roman_not_letter 79 c'); [done|lia| |done].
    intros Hc'%list_elem_of_In. simpl in Hc'. intuition discriminate.
Qed.

(** X4.  The position parser reads back a page position as the reader shows
    it: from a text that holds [Page p of t], after any text without the
    letter p and before anything that is not a digit, it gives the page [p]
    with the total [t] and no location. *)
Theorem parsePageNav_reads_page (p t : Z) (pre rest : list N) :
  safeInteger p → safeInteger t →
  withoutLetter "p" pre → startsOutside Js.isDigit rest →
  parsePageNav (Some (pre ++ pageText p t ++ rest))
  = Some {| Toc.navPage := Some p; Toc.navLocation := None; Toc.navTotal := t |}.
Proof.
  intros [Hp _] [Ht _] Hpre Hrest. unfold parsePageNav, pageText.
  change (Js.lit "page") with (112%N :: Js.lit "age").
  rewrite search_skip by exact Hpre.
  destruct (toString_rendered p) as [Hp1 Hp2], (toString_rendered t) as [Ht1 Ht2].
  rewrite <- !app_assoc.
  change (Js.lit "Page " ++ Js.toString p ++ Js.lit " of " ++ Js.toString t ++ rest)
    with (Js.lit "Page" ++ 32%N :: Js.toString p ++ 32%N :: Js.lit "of"
            ++ 32%N :: Js.toString t ++ rest).
  erewrite search_found;
    [|apply matchAt_rendered; try done; apply digit_not_space].
  cbn beta iota. by rewrite !parseDigits_toString.
Qed.

Lemma parsePageNav_reads_page_witness :
  safeInteger 12 ∧ safeInteger 345
  ∧ withoutLetter "p" (Js.lit "Location 7 of 9, ")
  ∧ startsOutside Js.isDigit (Js.lit " (3%)")
  ∧ parsePageNav (Some (Js.lit "Location 7 of 9, " ++ pageText 12 345 ++ Js.lit " (3%)"))
    = Some {| Toc.navPage := Some 12; Toc.navLocation := None;
              Toc.navTotal := 345 |}.
Proof.
  assert (safeInteger 12) as H1 by (unfold safeInteger; lia).
  assert (safeInteger 345) as H2 by (unfold safeInteger; lia).
  assert (withoutLetter "p" (Js.lit "Location 7 of 9, ")) as H3
    by (repeat constructor).
  assert (startsOutside Js.isDigit (Js.lit " (3%)")) as H4 by reflexivity.
  split; [exact H1|]. split; [exact H2|]. split; [exact H3|]. split; [exact H4|].
  exact (parsePageNav_reads_page 12 345 _ _ H1 H2 H3 H4).
Defined.

Lemma rendered_without (letter : ascii) (written first second : list N) :
  (65 <= N_of_ascii letter <= 90)%N →
  withoutLetter letter written →
  Forall (fun c => Js.ciEqb (N_of_ascii letter) c = false) first →
  Forall (fun c => Js.isDigit c = true) second →
  letter ≠ "O"%char → letter ≠ "F"%char →
  withoutLetter letter (written ++ first ++ Js.lit " of " ++ second).
Proof.
  intros Hl Hwritten Hfirst Hsecond HO HF. unfold withoutLetter.
  rewrite !Forall_app. split; [done|]. split; [done|]. split.
  - assert (N_of_ascii letter ≠ 79%N) as HO'.
    { intros E. apply HO. rewrite <- (ascii_N_embedding letter), E. done. }
    assert (N_of_ascii letter ≠ 70%N) as HF'.
    { intros E. apply HF. rewrite <- (ascii_N_embedding letter), E. done. }
    change (Js.lit " of ") with [32; 111; 102; 32]%N.
    repeat (constructor; [apply ciEqb_false; lia|]). constructor.
  - eapply Forall_impl; [exact Hsecond|]. intros c Hc. by apply digit_not_letter.
Qed.

(** X5.  The position parser reads back a location as the reader shows it:
    from [Location l of t], followed by anything that is not a digit and
    that does not hold the word page, it gives the location [l] with the
    total [t] and no page. *)
Theorem parsePageNav_reads_location (l t : Z) (rest : list N) :
  safeInteger l → safeInteger t →
  startsOutside Js.isDigit rest → Js.ciSearch (Js.lit "page") rest = false →
  parsePageNav (Some (locationText l t ++ rest))
  = Some {| Toc.navPage := None; Toc.navLocation := Some l; Toc.navTotal := t |}.
Proof.
  intros [Hl _] [Ht _] Hrest Hpage. unfold parsePageNav, locationText.
  destruct (toString_rendered l) as [Hl1 Hl2], (toString_rendered t) as [Ht1 Ht2].
  assert (search (Js.lit "page") Js.isDigit
            ((Js.lit "Location " ++ Js.toString l ++ Js.lit " of " ++ Js.toString t)
               ++ rest) = None) as ->.
  { change (Js.lit "page") with (112%N :: Js.lit "age").
    rewrite search_skip; [by apply search_absent|].
    apply (rendered_without "P"); try done.
    - by repeat constructor.
    - eapply Forall_impl; [exact Hl2|]. intros c Hc. by apply digit_not_letter. }
  rewrite <- !app_assoc.
  change (Js.lit "Location " ++ Js.toString l ++ Js.lit " of " ++ Js.toString t ++ rest)
    with (Js.lit "Location" ++ 32%N :: Js.toString l ++ 32%N :: Js.lit "of"
            ++ 32%N :: Js.toString t ++ rest).
  erewrite search_found;
    [|apply matchAt_rendered; try done; apply digit_not_space].
  cbn beta iota. by rewrite !parseDigits_toString.
Qed.

Lemma parsePageNav_reads_location_witness :
  safeInteger 17 ∧ safeInteger 2000
  ∧ startsOutside Js.isDigit [] ∧ Js.ciSearch (Js.lit "page") [] = false
  ∧ parsePageNav (Some (locationText 17 2000 ++ []))
    = Some {| Toc.navPage := None; Toc.navLocation := Some 17;
              Toc.navTotal := 2000 |}.
Proof.
  assert (safeInteger 17) as H1 by (unfold safeInteger; lia).
  assert (safeInteger 2000) as H2 by (unfold safeInteger; lia).
  assert (startsOutside Js.isDigit []) as H3 by exact I.
  assert (Js.ciSearch (Js.lit "page") [] = false) as H4 by reflexivity.
  split; [exact H1|]. split; [exact H2|]. split; [exact H3|]. split; [exact H4|].
  exact (parsePageNav_reads_location 17 2000 [] H1 H2 H3 H4).
Defined.

(** X6.  A page in roman numerals is read as a location: from
    [Page numeral of t], where the numeral is a non-empty string of the
    letters c, d, i, l, m, v, x in either case, the parser gives the location
    [deromanize numeral], which is at least 1, with the total [t] and no
    page. *)
Theorem parsePageNav_reads_roman_page (numeral : list N) (t : Z) (rest : list N) :
  numeral ≠ [] → Forall (fun c => isRomanLetter c = true) numeral →
  safeInteger t → startsOutside Js.isDigit rest →
  Js.ciSearch (Js.lit "page") rest = false →
  Js.ciSearch (Js.lit "location") rest = false →
  ∃ v, Roman.deromanize numeral = Some v ∧ 1 <= v
       ∧ parsePageNav (Some (romanPageText numeral t ++ rest))
         = Some {| Toc.navPage := None; Toc.navLocation := Some v;
                   Toc.navTotal := t |}.
Proof.
  intros Hne Hnumeral [Ht _] Hrest Hpage Hlocation.
  destruct (deromanize_valid numeral Hne Hnumeral) as (v & Hv & Hv1 & _).
  exists v. split; [done|]. split; [done|].
  destruct (toString_rendered t) as [Ht1 Ht2].
  unfold parsePageNav, romanPageText. rewrite <- !app_assoc.
  assert (search (Js.lit "page") Js.isDigit
            (Js.lit "Page " ++ numeral ++ Js.lit " of " ++ Js.toString t ++ rest)
          = None) as ->.
  { change (Js.lit "Page " ++ ?s) with (80%N :: Js.lit "age " ++ s).
    cbn [search].
    assert (matchAt (Js.lit "page") Js.isDigit
              (80%N :: Js.lit "age " ++ numeral ++ Js.lit " of "
                 ++ Js.toString t ++ rest) = None) as ->.
    { change (80%N :: Js.lit "age " ++ ?s) with (Js.lit "Page" ++ 32%N :: s).
      unfold matchAt. rewrite afterKeyword_app by done. cbn [mbind option_bind].
      rewrite afterSpaces_space
        by (eapply startsOutside_app; [done..|apply roman_not_space]).
      cbn [mbind option_bind]. rewrite capture_outside; [done|].
      eapply startsOutside_app; [done..|apply isRomanLetter_not_digit]. }
    change (Js.lit "page") with (112%N :: Js.lit "age").
    rewrite !app_assoc. rewrite search_skip; [by apply search_absent|].
    rewrite <- !app_assoc. apply (rendered_without "P"); try done.
    - by repeat constructor.
    - eapply Forall_impl; [exact Hnumeral|]. intros c Hc.
      apply roman_not_letter; [done| |done].
      intros Hc'%list_elem_of_In. simpl in Hc'. intuition discriminate. }
  assert (search (Js.lit "location") Js.isDigit
            (Js.lit "Page " ++ numeral ++ Js.lit " of " ++ Js.toString t ++ rest)
          = None) as ->.
  { change (Js.lit "location") with (108%N :: Js.lit "ocation").
    rewrite search_skip by (by repeat constructor).
    change (108%N :: Js.lit "ocation") with (Js.lit "location").
    rewrite search_location_numeral by done.
    change (Js.lit "location") with (108%N :: Js.lit "ocation").
    rewrite !app_assoc. rewrite search_skip; [by apply search_absent|].
    apply Forall_app. split; [by repeat constructor|].
    eapply Forall_impl; [exact Ht2|]. intros c Hc.
    change (Js.ciEqb 108 c) with (Js.ciEqb 76 c). by apply digit_not_letter. }
  change (Js.lit "Page " ++ numeral ++ Js.lit " of " ++ Js.toString t ++ rest)
    with (Js.lit "Page" ++ 32%N :: numeral ++ 32%N :: Js.lit "of"
            ++ 32%N :: Js.toString t ++ rest).
  erewrite search_found;
    [|apply matchAt_rendered; try done; apply roman_not_space].
  cbn beta iota. by rewrite Hv, parseDigits_toString.
Qed.

Lemma parsePageNav_reads_roman_page_witness :
  Js.lit "xiv" ≠ [] ∧ Forall (fun c => isRomanLetter c = true) (Js.lit "xiv")
  ∧ safeInteger 300 ∧ startsOutside Js.isDigit []
  ∧ Js.ciSearch (Js.lit "page") [] = false
  ∧ Js.ciSearch (Js.lit "location") [] = false
  ∧ ∃ v, Roman.deromanize (Js.lit "xiv") = Some v ∧ 1 <= v
         ∧ parsePageNav (Some (romanPageText (Js.lit "xiv") 300 ++ []))
           = Some {| Toc.navPage := None; Toc.navLocation := Some v;
                     Toc.navTotal := 300 |}.
Proof.
  assert (Js.lit "xiv" ≠ []) as H1 by done.
  assert (Forall (fun c => isRomanLetter c = true) (Js.lit "xiv")) as H2
    by (repeat constructor).
  assert (safeInteger 300) as H3 by (unfold safeInteger; lia).
  assert (startsOutside Js.isDigit []) as H4 by exact I.
  assert (Js.ciSearch (Js.lit "page") [] = false) as H5 by reflexivity.
  assert (Js.ciSearch (Js.lit "location") [] = false) as H6 by reflexivity.
  split; [exact H1|]. split; [exact H2|]. split; [exact H3|]. split; [exact H4|].
  split; [exact H5|]. split; [exact H6|].
  exact (parsePageNav_reads_roman_page (Js.lit "xiv") 300 [] H1 H2 H3 H4 H5 H6).
Defined.

(** X7.  Whatever the text, a position that the parser returns is of one
    kind: either a page and no location, or a location and no page; the page
    and the total are not negative, and a location is not negative either. *)
Theorem parsePageNav_position_kinds (text : option (list N)) (nav : Toc.PageNav) :
  parsePageNav text = Some nav →
  0 <= Toc.navTotal nav
  ∧ ((∃ p, Toc.navPage nav = Some p ∧ Toc.navLocation nav = None ∧ 0 <= p)
     ∨ (∃ l, Toc.navPage nav = None ∧ Toc.navLocation nav = Some l ∧ 0 <= l)).
Proof.
  destruct text as [s|]; [|done]. unfold parsePageNav.
  destruct (search (Js.lit "page") Js.isDigit s) as [[g1 g2]|] eqn:E1.
  { apply search_spec in E1 as (_ & H1 & _ & H2). intros [= <-]. simpl.
    split; [by apply parseDigits_nonneg|]. left. eexists.
    repeat split. by apply parseDigits_nonneg. }
  destruct (search (Js.lit "location") Js.isDigit s) as [[g1 g2]|] eqn:E2.
  { apply search_spec in E2 as (_ & H1 & _ & H2). intros [= <-]. simpl.
    split; [by apply parseDigits_nonneg|]. right. eexists.
    repeat split. by apply parseDigits_nonneg. }
  destruct (search (Js.lit "page") isRomanLetter s) as [[g1 g2]|] eqn:E3; [|done].
  apply search_spec in E3 as (Hne & H1 & _ & H2).
  destruct (deromanize_valid g1 Hne H1) as (v & -> & Hv & _).
  intros [= <-]. simpl. split; [by apply parseDigits_nonneg|]. right.
  exists v. repeat split. lia.
Qed.

Lemma parsePageNav_position_kinds_witness :
  parsePageNav (Some (Js.lit "Page 12 of 345"))
  = Some {| Toc.navPage := Some 12; Toc.navLocation := None; Toc.navTotal := 345 |}
  ∧ 0 <= 345
  ∧ ((∃ p, Some 12 = Some p ∧ @None Z = None ∧ 0 <= p)
     ∨ (∃ l, Some 12 = @None Z ∧ @None Z = Some l ∧ 0 <= l)).
Proof.
  assert (parsePageNav (Some (Js.lit "Page 12 of 345"))
          = Some {| Toc.navPage := Some 12; Toc.navLocation := None;
                    Toc.navTotal := 345 |}) as H by (vm_compute; reflexivity).
  split; [exact H|].
  exact (parsePageNav_position_kinds _ _ H).
Defined.

End PositionParser.

(** ** Screenshot file names *)

Section ScreenshotNames.

Import Extract Vocabulary.

Lemma padStart0_digits (width : nat) (s : list N) :
  Forall (fun c => Js.isDigit c = true) s →
  Forall (fun c => Js.isDigit c = true) (Js.padStart0 width s).
Proof.
  intros Hs. unfold Js.padStart0. apply Forall_app. split; [|done].
  by apply Forall_replicate.
Qed.

Lemma padStart0_nonempty (width : nat) (s : list N) :
  s ≠ [] → Js.padStart0 width s ≠ [].
Proof. unfold Js.padStart0. destruct s; [done|]. by destruct (replicate _ _). Qed.

Lemma parseDigits_padStart0 (width : nat) (s : list N) :
  Js.parseDigits (Js.padStart0 width s) = Js.parseDigits s.
Proof. apply parseDigits_zeros. Qed.

(** A number as the extraction writes it into a file name. *)
Lemma padded_number (width : nat) (n : Z) :
  Js.padStart0 width (Js.toString n) ≠ []
  ∧ Forall (fun c => Js.isDigit c = true) (Js.padStart0 width (Js.toString n)).
Proof.
  split; [apply padStart0_nonempty, toString_nonempty
         |apply padStart0_digits, toString_digits].
Qed.

Lemma spanDigits_app (run rest : list N) :
  Forall (fun c => Js.isDigit c = true) run → startsOutside Js.isDigit rest →
  Js.spanDigits (run ++ rest) = (run, rest).
Proof. intros. rewrite spanDigits_span. by apply span_app. Qed.

Lemma matchPageFile_screenshotName (pagePadding index : nat) (page : Z) :
  matchPageFile (screenshotName pagePadding index page)
  = Some (Js.padStart0 pagePadding (Js.toString (Z.of_nat index)),
          Js.padStart0 pagePadding (Js.toString page)).
Proof.
  unfold matchPageFile, screenshotName.
  destruct (padded_number pagePadding (Z.of_nat index)) as [Hi1 Hi2].
  destruct (padded_number pagePadding page) as [Hp1 Hp2].
  set (a := Js.padStart0 pagePadding (Js.toString (Z.of_nat index))) in *.
  set (b := Js.padStart0 pagePadding (Js.toString page)) in *.
  change (Js.lit "-" ++ ?s) with (45%N :: s).
  rewrite spanDigits_app by done.
  destruct a as [|c a]; [done|]. cbn beta iota.
  rewrite spanDigits_app by done.
  destruct b as [|c' b]; [done|]. cbn beta iota.
  by rewrite bool_decide_eq_true_2.
Qed.

Lemma endsWith_app (suffix s : list N) : Js.endsWith suffix (s ++ suffix) = true.
Proof.
  unfold Js.endsWith. rewrite length_app.
  replace (length s + length suffix - length suffix)%nat with (length s) by lia.
  rewrite drop_app_length. apply andb_true_iff.
  split; apply bool_decide_eq_true; [done|lia].
Qed.

Lemma screenshotName_png (pagePadding index : nat) (page : Z) :
  Js.endsWith (Js.lit ".png") (screenshotName pagePadding index page) = true.
Proof. unfold screenshotName. rewrite !app_assoc. apply endsWith_app. Qed.

(** X8.  The resume analysis reads back the names the capture loop writes:
    of a directory that holds the screenshots of pages [p1 .. pk], each
    positive, written with any indices and any padding, it keeps every name
    as a PNG artifact and recovers exactly the page numbers [p1 .. pk], in
    the order of the listing. *)
Theorem resume_reads_back_screenshot_names (pagePadding : nat)
    (shots : list (nat * Z)) :
  Forall (fun shot => 0 < shot.2 ∧ safeInteger shot.2) shots →
  let names := (fun shot => screenshotName pagePadding shot.1 shot.2) <$> shots in
  pngFilesOf names = names ∧ pageNumbersOf (pngFilesOf names) = snd <$> shots.
Proof.
  intros Hshots names.
  assert (pngFilesOf names = names) as ->.
  { unfold pngFilesOf, names. clear Hshots.
    induction shots as [|[i p] shots IH]; [done|].
    rewrite fmap_cons, filter_cons_True by apply screenshotName_png.
    by rewrite IH. }
  split; [done|]. unfold pageNumbersOf, names.
  induction Hshots as [|[i p] shots [Hp [Hp0 _]] _ IH]; [done|].
  rewrite !fmap_cons, matchPageFile_screenshotName, parseDigits_padStart0,
    parseDigits_toString by done.
  rewrite filter_cons_True by done. by rewrite IH.
Qed.

Lemma resume_reads_back_screenshot_names_witness :
  Forall (fun shot => 0 < shot.2 ∧ safeInteger shot.2) [(0%nat, 7); (1%nat, 12)]
  ∧ pngFilesOf [Js.lit "0000-0007.png"; Js.lit "0001-0012.png"]
    = [Js.lit "0000-0007.png"; Js.lit "0001-0012.png"]
  ∧ pageNumbersOf (pngFilesOf [Js.lit "0000-0007.png"; Js.lit "0001-0012.png"])
    = [7; 12].
Proof.
  assert (Forall (fun shot => 0 < shot.2 ∧ safeInteger shot.2)
            [(0%nat, 7); (1%nat, 12)]) as H
    by (repeat constructor; unfold safeInteger; simpl; lia).
  split; [exact H|].
  exact (resume_reads_back_screenshot_names 4 [(0%nat, 7); (1%nat, 12)] H).
Defined.

Lemma basename_plain (name : list N) : 47%N ∉ name → Transcribe.basename name = name.
Proof.
  destruct name as [|c t]; [done|]. intros H. cbn [Transcribe.basename].
  apply not_elem_of_cons in H as [Hc Ht].
  destruct (N.eqb_spec c 47); [done|]. by rewrite bool_decide_eq_false_2.
Qed.

Lemma basename_path (dir name : list N) :
  47%N ∉ name → Transcribe.basename (dir ++ 47%N :: name) = name.
Proof.
  intros Hname. induction dir as [|c dir IH].
  - cbn [app Transcribe.basename]. rewrite N.eqb_refl. by apply basename_plain.
  - cbn [app Transcribe.basename]. destruct (c =? 47)%N; [done|].
    rewrite bool_decide_eq_true_2; [done|]. set_solver.
Qed.

Lemma digits_without_slash (s : list N) :
  Forall (fun c => Js.isDigit c = true) s → 47%N ∉ s.
Proof.
  intros Hs Hin. rewrite Forall_forall in Hs. by specialize (Hs _ Hin).
Qed.

Lemma screenshotName_without_slash (pagePadding index : nat) (page : Z) :
  47%N ∉ screenshotName pagePadding index page.
Proof.
  unfold screenshotName.
  destruct (padded_number pagePadding (Z.of_nat index)) as [_ Hi].
  destruct (padded_number pagePadding page) as [_ Hp].
  apply digits_without_slash in Hi, Hp.
  rewrite !not_elem_of_app. repeat split; try done;
    intros H%list_elem_of_In; simpl in H; intuition discriminate.
Qed.

(** The last digit of a number in decimal notation. *)
Lemma toString_last (n : Z) :
  0 <= n →
  ∃ c, last (Js.toString n) = Some c ∧ Js.parseDigits [c] = n `mod` 10.
Proof.
  intros Hn. pose proof (parseDigits_toString n Hn) as Hparse.
  pose proof (toString_digits n) as Hdigits.
  pose proof (toString_nonempty n) as Hne.
  destruct (Js.toString n) as [|c0 l] using rev_ind; [done|]. clear IHl.
  exists c0. rewrite last_snoc. split; [done|].
  rewrite parseDigits_app in Hparse.
  apply Forall_app in Hdigits as [Hl Hc%Forall_inv].
  apply isDigit_range in Hc. apply parseDigits_nonneg in Hl.
  change (Js.parseDigits [c0]) with (10 * 0 + (Z.of_N c0 - 48)).
  pose proof (Z.mod_pos_bound n 10). pose proof (Z.div_mod n 10). lia.
Qed.

Lemma last_padStart0 (width : nat) (s : list N) :
  s ≠ [] → last (Js.padStart0 width s) = last s.
Proof.
  intros Hs. unfold Js.padStart0.
  destruct s as [|c l] using rev_ind; [done|].
  by rewrite app_assoc, !last_snoc.
Qed.

Section Reading.

Variable normalize : list N → list N.
Variable recognize : list N → nat → Transcribe.Response.

(** X9.  The transcription reads the names that the extraction writes, but
    not the index in them: for the screenshot of page [p] written with index
    [i], in any directory and with any padding, its file-name pattern always
    matches, the page it records is [p], and the index it records is the last
    decimal digit of [i]. *)
Theorem transcription_records_last_digit_of_index
    (pagesDir : list N) (pagePadding index : nat) (page : Z) :
  safeInteger page →
  let path := screenshotPath pagesDir pagePadding index page in
  Transcribe.transcribeScreenshot normalize recognize path
  = Ok ((fun t => {| Transcribe.index := Z.of_nat index `mod` 10;
                     Transcribe.page := page;
                     Transcribe.text := t;
                     Transcribe.screenshot := path |})
          <$> Transcribe.attemptLoop normalize recognize path Transcribe.maxRetries).
Proof.
  intros [Hpage _] path. unfold Transcribe.transcribeScreenshot.
  destruct (padded_number pagePadding (Z.of_nat index)) as [Hi1 Hi2].
  destruct (padded_number pagePadding page) as [Hp1 Hp2].
  destruct (toString_last (Z.of_nat index)) as (c & Hlast & Hc); [lia|].
  assert (Transcribe.matchScreenshot path
          = Some ([c], Js.padStart0 pagePadding (Js.toString page))) as ->.
  { unfold Transcribe.matchScreenshot, path, screenshotPath.
    change (Js.lit "/" ++ ?s) with (47%N :: s).
    rewrite basename_path by apply screenshotName_without_slash.
    unfold screenshotName.
    assert (last (Js.padStart0 pagePadding (Js.toString (Z.of_nat index)))
            = Some c) as Hlast'
      by (by rewrite last_padStart0 by apply toString_nonempty).
    set (a := Js.padStart0 pagePadding (Js.toString (Z.of_nat index))) in *.
    set (b := Js.padStart0 pagePadding (Js.toString page)) in *.
    change (Js.lit "-" ++ ?s) with (45%N :: s).
    rewrite spanDigits_app by done. cbn beta iota.
    rewrite spanDigits_app by done.
    destruct b as [|c' b]; [done|]. cbn beta iota.
    change (Js.lit ".png") with (46%N :: Js.lit "png"). cbn beta iota.
    rewrite bool_decide_eq_true_2 by done. by rewrite Hlast'. }
  by rewrite Hc, parseDigits_padStart0, parseDigits_toString.
Qed.

End Reading.

Lemma transcription_records_last_digit_of_index_witness :
  safeInteger 34
  ∧ Transcribe.transcribeScreenshot id (Scenario.reads "text")
      (Js.lit "out/B0/pages/0012-0034.png")
    = Ok ((fun t => {| Transcribe.index := 2;
                       Transcribe.page := 34;
                       Transcribe.text := t;
                       Transcribe.screenshot := Js.lit "out/B0/pages/0012-0034.png" |})
            <$> Transcribe.attemptLoop id (Scenario.reads "text")
                  (Js.lit "out/B0/pages/0012-0034.png") Transcribe.maxRetries).
Proof.
  assert (safeInteger 34) as H by (unfold safeInteger; lia).
  split; [exact H|].
  exact (transcription_records_last_digit_of_index id (Scenario.reads "text")
           (Js.lit "out/B0/pages") 4 12 34 H).
Defined.

End ScreenshotNames.

(** ** The capture loop *)

Section CaptureLoop.

Import Extract Vocabulary.

Section Loop.

Variable ps : PageSource.
Variable force : bool.
Variable pagesDir : list N.
Variable pagePadding : nat.
Variable totalContentPages : Z.

Lemma extends_stop (s s' : Session ps) :
  sessionPages ps s' = sessionPages ps s → files ps s' = files ps s →
  trace ps s' = trace ps s →
  extends ps pagesDir pagePadding totalContentPages s s'.
Proof.
  intros Hp Hf Ht. exists []. rewrite Hp, Hf, Ht, app_nil_r.
  split; [done|]. split; [done|]. split; [done|]. by intros k chunk Hk.
Qed.

Lemma extends_step (s s1 s' : Session ps) (p t : Z) :
  p < totalContentPages →
  sessionPages ps s1
  = sessionPages ps s
    ++ [{| index := Z.of_nat (length (sessionPages ps s));
           page := p;
           total := t;
           screenshot :=
             screenshotPath pagesDir pagePadding (length (sessionPages ps s)) p |}] →
  files ps s `prefix_of` files ps s1 →
  trace ps s `prefix_of` trace ps s1 →
  screenshotName pagePadding (length (sessionPages ps s)) p ∈ files ps s1 →
  extends ps pagesDir pagePadding totalContentPages s1 s' →
  extends ps pagesDir pagePadding totalContentPages s s'.
Proof.
  intros Hp Hpages Hfiles Htrace Hname (new & Hnew & Hf & Ht & Hall).
  unfold addedEntries in Hall. unfold extends, addedEntries.
  eexists (_ :: new). rewrite Hnew, Hpages, <- app_assoc. split; [done|].
  split; [by etrans|]. split; [by etrans|].
  intros [|k] chunk Hk.
  - injection Hk as <-. cbn [index page screenshot]. rewrite Nat.add_0_r.
    repeat split; try done.
    destruct Hf as [more ->]. apply elem_of_app. by left.
  - specialize (Hall k chunk Hk). rewrite Hpages, length_app in Hall.
    cbn [length] in Hall.
    by replace (length (sessionPages ps s) + S k)%nat
      with (length (sessionPages ps s) + 1 + k)%nat by lia.
Qed.

Lemma captureLoop_extends (fuel : nat) (s s' : Session ps) :
  captureLoop ps force pagesDir pagePadding totalContentPages fuel s = Some (Ok s') →
  extends ps pagesDir pagePadding totalContentPages s s'.
Proof.
  revert s. induction fuel as [|fuel IH]; intros s; [done|].
  cbn [captureLoop].
  destruct (getPageNav ps (world ps s)) as [[pageNav|m] w1]; [|done].
  destruct pageNav as [nav|]; [|by intros [= <-]; apply extends_stop].
  destruct (Toc.navPage nav) as [p|]; [|by intros [= <-]; apply extends_stop].
  destruct (Z.leb_spec totalContentPages p) as [Hge|Hlt];
    [by intros [= <-]; apply extends_stop|].
  destruct (negb force && bool_decide (_ ∈ files ps s)) eqn:Hskip.
  - apply andb_true_iff in Hskip as [_ Hin%bool_decide_eq_true].
    destruct (skipAdvance ps 10 0 w1) as [[r w2] e2].
    intros H%IH. eapply extends_step; [exact Hlt| | | | |exact H]; cbn; try done.
    by apply prefix_app_r.
  - destruct (getSrc ps w1) as [[src|m] w2]; [|done].
    destruct (takeScreenshot ps w2) as [[[]|m] w3]; [|done].
    destruct (advance ps fuel src false 0 w3) as [[[r w4] e4]|]; [|done].
    assert (∀ s1, sessionPages ps s1
                  = sessionPages ps s
                    ++ [{| index := Z.of_nat (length (sessionPages ps s));
                           page := p; total := Toc.navTotal nav;
                           screenshot :=
                             screenshotPath pagesDir pagePadding
                               (length (sessionPages ps s)) p |}] →
                  files ps s1
                  = files ps s
                    ++ [screenshotName pagePadding (length (sessionPages ps s)) p] →
                  trace ps s `prefix_of` trace ps s1 →
                  extends ps pagesDir pagePadding totalContentPages s1 s' →
                  extends ps pagesDir pagePadding totalContentPages s s')
      as Hstep.
    { intros s1 Hp Hf Ht H.
      eapply extends_step; [exact Hlt|exact Hp| |exact Ht| |exact H].
      - rewrite Hf. by apply prefix_app_r.
      - rewrite Hf. set_solver. }
    destruct r; try done; intros H%IH; eapply Hstep; try exact H; cbn; try done;
      rewrite <- app_assoc; by apply prefix_app_r.
Qed.

(** X10.  Whenever the capture loop ends normally it has only added: the
    manifest entries, the directory listing and the trace it started with are
    prefixes of the ones it ends with, and every entry it added stands at its
    own index, is of a page below [totalContentPages], carries the path built
    from its index and page, and has its screenshot in the directory (written
    by this run, or found there and skipped). *)
Theorem captureLoop_only_appends (fuel : nat) (s s' : Session ps) :
  captureLoop ps force pagesDir pagePadding totalContentPages fuel s = Some (Ok s') →
  ∃ new,
    sessionPages ps s' = sessionPages ps s ++ new
    ∧ files ps s `prefix_of` files ps s'
    ∧ trace ps s `prefix_of` trace ps s'
    ∧ addedEntries pagesDir pagePadding totalContentPages
        (sessionPages ps s) new (files ps s').
Proof. apply captureLoop_extends. Qed.

(** X25.  The capture loop ends normally in one way only: right after a
    reading of the footer that shows no position, a position without a page,
    or a page at [totalContentPages] or beyond it.  As long as the footer
    shows a page below the boundary the loop goes on, whether the reader
    turns the page or not. *)
Theorem captureLoop_ends_at_the_boundary (fuel : nat) (s s' : Session ps) :
  captureLoop ps force pagesDir pagePadding totalContentPages fuel s = Some (Ok s') →
  ∃ w pageNav,
    getPageNav ps w = (Ok pageNav, world ps s')
    ∧ ∀ nav p, pageNav = Some nav → Toc.navPage nav = Some p →
               totalContentPages <= p.
Proof.
  revert s. induction fuel as [|fuel IH]; intros s; [done|].
  cbn [captureLoop].
  destruct (getPageNav ps (world ps s)) as [[pageNav|m] w1] eqn:Hnav; [|done].
  destruct pageNav as [nav|].
  2:{ intros [= <-]. by exists (world ps s), None. }
  destruct (Toc.navPage nav) as [p|] eqn:Hp.
  2:{ intros [= <-]. exists (world ps s), (Some nav). split; [done|].
      intros nav' p' [= <-]. congruence. }
  destruct (Z.leb_spec totalContentPages p) as [Hge|Hlt].
  { intros [= <-]. exists (world ps s), (Some nav). split; [done|].
    intros nav' p' [= <-]. congruence. }
  destruct (negb force && bool_decide (_ ∈ files ps s)).
  - destruct (skipAdvance ps 10 0 w1) as [[r w2] e2]. apply IH.
  - destruct (getSrc ps w1) as [[src|m] w2]; [|done].
    destruct (takeScreenshot ps w2) as [[[]|m] w3]; [|done].
    destruct (advance ps fuel src false 0 w3) as [[[r w4] e4]|]; [|done].
    destruct r; try done; apply IH.
Qed.

End Loop.

(** X11.  A run that finishes writes a manifest that is the entries it
    resumed with followed by the entries of this run; the directory still
    holds every file it held before; and every entry of this run stands at
    its index, is of a page below [totalContentPages], and has its screenshot
    in the directory. *)
Theorem finished_run_manifest (ps : PageSource) (fuel : nat) (w : World ps)
    (i : Inputs) (summary : Summary) (manifestPages : list PageChunk)
    (filesOnDisk : list (list N)) (events : list Event) :
  run ps fuel w i = Some (Finished summary manifestPages filesOnDisk events) →
  ∃ parsedToc new,
    Toc.parseTocItems (tocItems i) = Ok parsedToc
    ∧ let listing := default [] (dirListing i) in
      let resumed := resumedPages (resume (force i) (metadataFile i) (Ok listing)) in
      let pagePadding :=
        length (Js.toString (Toc.total (Toc.firstPageTocItem parsedToc) * 2)) in
      manifestPages = resumed ++ new
      ∧ listing `prefix_of` filesOnDisk
      ∧ addedEntries (pagesDir i) pagePadding (Toc.totalContentPages parsedToc)
          resumed new filesOnDisk.
Proof.
  unfold run. destruct (appearsComplete _ _ _); [done|].
  destruct (Toc.parseTocItems (tocItems i)) as [parsedToc|m]; [|done].
  destruct (Toc.totalContentPages parsedToc <=? 0); [done|].
  destruct (if 1 <? _ then _ else _) as [[[]|m] w1]; [|done].
  destruct (getPageNav ps w1) as [[nav|m] w2]; [|done].
  destruct (captureLoop _ _ _ _ _ _ _) as [[s|m]|] eqn:Hloop; [|done..].
  intros [= <- <- <- <-].
  apply captureLoop_extends in Hloop as (new & Hnew & Hfiles & _ & Hall).
  exists parsedToc, new. split; [done|]. cbn zeta.
  split; [exact Hnew|]. split; [exact Hfiles|exact Hall].
Qed.

Lemma captureLoop_only_appends_witness :
  ∃ s',
    captureLoop (Scenario.reader 10) false (Js.lit "out/B0/pages") 2 10 30
      {| world := 7 : World (Scenario.reader 10); sessionPages := [];
         files := [Js.lit "00-07.png"]; trace := [] |}
    = Some (Ok s')
    ∧ ∃ new,
        sessionPages _ s' = [] ++ new
        ∧ [Js.lit "00-07.png"] `prefix_of` files _ s'
        ∧ [] `prefix_of` trace _ s'
        ∧ addedEntries (Js.lit "out/B0/pages") 2 10 [] new (files _ s').
Proof.
  eexists. split; [vm_compute; reflexivity|].
  eapply (captureLoop_only_appends (Scenario.reader 10) false
            (Js.lit "out/B0/pages") 2 10 30
            {| world := 7 : World (Scenario.reader 10); sessionPages := [];
               files := [Js.lit "00-07.png"]; trace := [] |}).
  vm_compute. reflexivity.
Defined.

Lemma captureLoop_ends_at_the_boundary_witness :
  ∃ s',
    captureLoop (Scenario.reader 10) false (Js.lit "out/B0/pages") 2 10 30
      {| world := 7 : World (Scenario.reader 10); sessionPages := [];
         files := [Js.lit "00-07.png"]; trace := [] |}
    = Some (Ok s')
    ∧ ∃ w pageNav,
        getPageNav (Scenario.reader 10) w = (Ok pageNav, world _ s')
        ∧ ∀ nav p, pageNav = Some nav → Toc.navPage nav = Some p → 10 <= p.
Proof.
  eexists. split; [vm_compute; reflexivity|].
  eapply (captureLoop_ends_at_the_boundary (Scenario.reader 10) false
            (Js.lit "out/B0/pages") 2 10 30
            {| world := 7 : World (Scenario.reader 10); sessionPages := [];
               files := [Js.lit "00-07.png"]; trace := [] |}).
  vm_compute. reflexivity.
Defined.

Lemma finished_run_manifest_witness :
  ∃ summary manifestPages filesOnDisk events,
    run (Scenario.reader 10) 30 1 Scenario.staleRun
    = Some (Finished summary manifestPages filesOnDisk events)
    ∧ ∃ parsedToc new,
        Toc.parseTocItems Scenario.tenPages = Ok parsedToc
        ∧ let pagePadding :=
            length (Js.toString (Toc.total (Toc.firstPageTocItem parsedToc) * 2)) in
          manifestPages = [] ++ new
          ∧ Scenario.fiveArtifacts `prefix_of` filesOnDisk
          ∧ addedEntries (Js.lit "out/B0/pages") pagePadding
              (Toc.totalContentPages parsedToc) [] new filesOnDisk.
Proof.
  do 4 eexists. split; [vm_compute; reflexivity|].
  eapply (finished_run_manifest (Scenario.reader 10) 30 1 Scenario.staleRun).
  vm_compute. reflexivity.
Defined.

End CaptureLoop.

(** ** The retry loop *)

Section RetryLoop.

Import Transcribe Vocabulary.

Variable normalize : list N → list N.
Variable recognize : list N → nat → Response.

Lemma attemptLoop_spec (screenshot : list N) (remaining : nat) (text : list N) :
  (remaining ≤ maxRetries)%nat →
  attemptLoop normalize recognize screenshot remaining = Some text
  ↔ ∃ k, (maxRetries - remaining ≤ k < maxRetries)%nat
         ∧ (∀ j, (maxRetries - remaining ≤ j < k)%nat →
                 retriedReply normalize (recognize screenshot j))
         ∧ acceptedReply normalize (recognize screenshot k) text.
Proof.
  induction remaining as [|remaining IH]; intros Hle.
  { split; [done|]. intros (k & Hk & _). lia. }
  cbn [attemptLoop]. set (retries := (maxRetries - S remaining)%nat).
  assert (maxRetries - remaining = S retries)%nat as Hnext by (unfold retries; lia).
  assert (retries < maxRetries)%nat as Hretries by (unfold retries, maxRetries; lia).
  rewrite Hnext in IH.
  set (continue := if bool_decide (S retries < maxRetries)%nat
                  then attemptLoop normalize recognize screenshot remaining
                  else None).
  assert ((if bool_decide (maxRetries ≤ S retries)%nat
           then None
           else attemptLoop normalize recognize screenshot remaining) = continue)
    as Hcontinue by (unfold continue; repeat case_bool_decide; done || lia).
  rewrite Hcontinue. fold continue.
  (* the loop goes on: attempt [retries] is a retried reply *)
  assert (retriedReply normalize (recognize screenshot retries) →
          (∀ t, ¬ acceptedReply normalize (recognize screenshot retries) t) →
          continue = Some text
          ↔ ∃ k, (retries ≤ k < maxRetries)%nat
                 ∧ (∀ j, (retries ≤ j < k)%nat →
                         retriedReply normalize (recognize screenshot j))
                 ∧ acceptedReply normalize (recognize screenshot k) text) as Hgo.
  { intros Hretried Hnot. clear Hcontinue. unfold continue.
    case_bool_decide as Hlt.
    - rewrite IH by lia. split.
      + intros (k & Hk & Hbefore & Hacc). exists k. split; [lia|]. split; [|done].
        intros j Hj. destruct (decide (j = retries)) as [->|]; [done|].
        apply Hbefore. lia.
      + intros (k & Hk & Hbefore & Hacc).
        destruct (decide (k = retries)) as [->|]; [by destruct (Hnot text)|].
        exists k. split; [lia|]. split; [|done]. intros j Hj. apply Hbefore. lia.
    - split; [done|]. intros (k & Hk & _ & Hacc).
      assert (k = retries) as -> by lia. by destruct (Hnot text). }
  clearbody continue.
  destruct (recognize screenshot retries) as [rawText|err] eqn:Hreply.
  - destruct (bool_decide (normalize rawText = [])) eqn:Hempty.
    { apply bool_decide_eq_true in Hempty.
      apply Hgo; [by left|]. intros t (raw & [= <-] & -> & Hne & _). done. }
    apply bool_decide_eq_false in Hempty.
    destruct (isRefusal (normalize rawText)) eqn:Hrefusal.
    { apply Hgo; [by right|].
      intros t (raw & [= <-] & -> & _ & Hr). congruence. }
    split.
    + intros [= <-]. exists retries. split; [lia|]. split; [intros j Hj; lia|].
      rewrite Hreply. by exists rawText.
    + intros (k & Hk & Hbefore & Hacc).
      destruct (decide (k = retries)) as [->|].
      * rewrite Hreply in Hacc. by destruct Hacc as (raw & [= <-] & -> & _).
      * assert (retriedReply normalize (recognize screenshot retries)) as Hr
          by (apply Hbefore; lia).
        rewrite Hreply in Hr. simpl in Hr. destruct Hr; congruence.
  - destruct (isRetryableError err) eqn:Hretryable; cbn [negb orb].
    + rewrite Hcontinue. apply Hgo; [done|]. by intros t (raw & [=] & _).
    + split; [done|]. intros (k & Hk & Hbefore & Hacc).
      destruct (decide (k = retries)) as [->|].
      * rewrite Hreply in Hacc. by destruct Hacc as (raw & [=] & _).
      * assert (retriedReply normalize (recognize screenshot retries)) as Hr
          by (apply Hbefore; lia).
        rewrite Hreply in Hr. simpl in Hr. congruence.
Qed.

(** X12.  The retry loop for one screenshot returns a text exactly when, among
    the first twenty replies of the service, there is one that is a
    completion whose normalised text is neither empty nor a refusal, and
    every reply before it is one that the loop retries (an empty text, a
    refusal, or a retryable error); the text returned is the normalised text
    of the first such reply.  So a result is never empty and never a refusal,
    nothing is returned when a fatal error comes before any accepted reply,
    and the replies after the twentieth play no part. *)
Theorem attemptLoop_returns_first_accepted_reply (screenshot text : list N) :
  attemptLoop normalize recognize screenshot maxRetries = Some text
  ↔ ∃ k, (k < maxRetries)%nat
         ∧ (∀ j, (j < k)%nat → retriedReply normalize (recognize screenshot j))
         ∧ acceptedReply normalize (recognize screenshot k) text.
Proof.
  rewrite attemptLoop_spec by done. rewrite Nat.sub_diag.
  split; intros (k & Hk & Hbefore & Hacc); exists k;
    (split; [lia|]); (split; [|done]); intros j Hj; apply Hbefore; lia.
Qed.

End RetryLoop.

(** ** The transcription run *)

Section TranscriptionRun.

Import Transcribe Vocabulary.

Variable normalize : list N → list N.
Variable recognize : list N → nat → Response.

Lemma pMap_Throw {A B} (mapper : A → Result B) (inputs : list A) :
  (∃ m, pMap mapper inputs = Throw m)
  ↔ ∃ x m, x ∈ inputs ∧ mapper x = Throw m.
Proof.
  induction inputs as [|x l IH]; simpl.
  - split; [by intros [m ?]|]. intros (x & m & Hx & _). by apply elem_of_nil in Hx.
  - destruct (mapper x) as [y|m] eqn:Ex.
    + destruct (pMap mapper l) as [ys|m] eqn:El.
      * split; [by intros [m ?]|]. intros (x' & m & Hx' & Hm).
        apply elem_of_cons in Hx' as [->|Hx']; [congruence|].
        destruct IH as [_ IH]. destruct IH as [m' ?]; [|done]. by exists x', m.
      * split; [|by exists m]. intros _.
        destruct IH as [IH _]. destruct IH as (x' & m' & Hx' & Hm'); [by exists m|].
        exists x', m'. split; [|done]. apply elem_of_cons. by right.
    + split; [|by exists m]. intros _. exists x, m. split; [|done].
      apply elem_of_cons. by left.
Qed.

Lemma transcribeScreenshot_Throw (s : list N) :
  (∃ m, transcribeScreenshot normalize recognize s = Throw m)
  ↔ matchScreenshot s = None.
Proof.
  unfold transcribeScreenshot. destruct (matchScreenshot s) as [[g1 g2]|].
  - split; [by intros [m ?]|done].
  - split; [done|]. intros _. by eexists.
Qed.

(** X13.  The transcription run stops without writing in two cases only,
    whatever the service replies: the list of page screenshots is empty, or
    a screenshot that no existing chunk covers has a name that the file-name
    pattern does not match.  A failure of the service for a page never stops
    the run. *)
Theorem transcription_aborts_iff (pageScreenshots : list (list N))
    (contentFile : option (FileText (option (list ContentChunk)))) :
  (∃ m, main normalize recognize pageScreenshots contentFile = Aborted m)
  ↔ pageScreenshots = []
    ∨ ∃ s, s ∈ pageScreenshots
           ∧ (s ∉ screenshot <$> loadExistingContent contentFile)
           ∧ matchScreenshot s = None.
Proof.
  unfold main. destruct pageScreenshots as [|s0 l0] eqn:E.
  { split; [by left|]. intros _. by eexists. }
  rewrite <- E. set (existing := loadExistingContent contentFile).
  set (todo := filter _ pageScreenshots).
  assert (Htodo : ∀ s, s ∈ todo ↔ s ∈ pageScreenshots ∧ s ∉ screenshot <$> existing).
  { intros s. unfold todo. rewrite list_elem_of_filter, elem_of_list_to_set. tauto. }
  assert ((∃ m, pMap (transcribeScreenshot normalize recognize) todo = Throw m)
          ↔ ∃ s, s ∈ pageScreenshots ∧ (s ∉ screenshot <$> existing)
                 ∧ matchScreenshot s = None) as Hmap.
  { rewrite pMap_Throw. split.
    - intros (s & m & Hs & Hm). exists s. apply Htodo in Hs as [? ?].
      repeat split; try done. apply transcribeScreenshot_Throw. by exists m.
    - intros (s & Hs & Hn & Hm). apply transcribeScreenshot_Throw in Hm as [m Hm].
      exists s, m. split; [|done]. by apply Htodo. }
  destruct todo as [|t0 todo'] eqn:Et.
  - split; [by intros [m ?]|]. intros [HE|Hs]; [by rewrite E in HE|].
    apply Hmap in Hs as [m Hm]. done.
  - rewrite <- Et in *.
    destruct (pMap _ todo) as [results|m] eqn:Hp.
    + split; [by intros [m ?]|]. intros [HE|Hs]; [by rewrite E in HE|].
      apply Hmap in Hs as [m Hm]. done.
    + split; [|by exists m]. intros _. right. apply Hmap. by exists m.
Qed.

Lemma attemptLoop_text (s text : list N) :
  attemptLoop normalize recognize s maxRetries = Some text →
  text ≠ [] ∧ isRefusal text = false.
Proof.
  intros H. apply attemptLoop_spec in H; [|done].
  by destruct H as (k & _ & _ & raw & _ & _ & ? & ?).
Qed.

Lemma new_content_chunks (inputs : list (list N))
    (results : list (option ContentChunk)) :
  Forall2 (fun x y => transcribeScreenshot normalize recognize x = Ok y)
    inputs results →
  (length (omap id results) ≤ length inputs)%nat
  ∧ ∀ c, c ∈ omap id results →
      screenshot c ∈ inputs
      ∧ text c ≠ [] ∧ isRefusal (text c) = false
      ∧ ∃ g1 g2, matchScreenshot (screenshot c) = Some (g1, g2)
                 ∧ index c = Js.parseDigits g1 ∧ page c = Js.parseDigits g2.
Proof.
  induction 1 as [|s y l ys Hy _ [IHlen IH]].
  { split; [done|]. intros c Hc. by apply elem_of_nil in Hc. }
  assert (∀ c, c ∈ omap id ys →
      screenshot c ∈ s :: l
      ∧ text c ≠ [] ∧ isRefusal (text c) = false
      ∧ ∃ g1 g2, matchScreenshot (screenshot c) = Some (g1, g2)
                 ∧ index c = Js.parseDigits g1 ∧ page c = Js.parseDigits g2) as IH'.
  { intros c Hc. destruct (IH c Hc) as (? & ? & ? & ?).
    repeat split; try done. apply elem_of_cons. by right. }
  destruct y as [c0|].
  2:{ change (omap id (None :: ys)) with (omap id ys). cbn [length].
      split; [lia|done]. }
  change (omap id (Some c0 :: ys)) with (c0 :: omap id ys). cbn [length].
  split; [lia|]. intros c [->|Hc]%elem_of_cons; [|by apply IH'].
  unfold transcribeScreenshot in Hy.
  destruct (matchScreenshot s) as [[g1 g2]|] eqn:Hm; [|done].
  destruct (attemptLoop _ _ _ _) as [t|] eqn:Ht; simpl in Hy; [|done].
  injection Hy as <-. cbn [screenshot text index page].
  apply attemptLoop_text in Ht as [? ?].
  split; [apply elem_of_cons; by left|]. split; [done|]. split; [done|].
  by exists g1, g2.
Qed.

(** X14.  Whatever the service replies, the manifest that a transcription run
    writes is in ascending [(index, page)] order and holds every existing
    chunk together with the new ones, nothing else.  There are at most as
    many new chunks as page screenshots; each belongs to a page screenshot
    that no existing chunk covers, has a text that is neither empty nor a
    refusal, and carries the index and the page that the file-name pattern
    captures from its screenshot. *)
Theorem transcription_written_manifest (pageScreenshots : list (list N))
    (contentFile : option (FileText (option (list ContentChunk))))
    (manifest printed : list ContentChunk) :
  main normalize recognize pageScreenshots contentFile = Wrote manifest printed →
  Sorted Spec.ascending manifest
  ∧ ∃ content,
      manifest ≡ₚ loadExistingContent contentFile ++ content
      ∧ (length content ≤ length pageScreenshots)%nat
      ∧ ∀ c, c ∈ content →
          screenshot c ∈ pageScreenshots
          ∧ (screenshot c ∉ screenshot <$> loadExistingContent contentFile)
          ∧ text c ≠ [] ∧ isRefusal (text c) = false
          ∧ ∃ g1 g2, matchScreenshot (screenshot c) = Some (g1, g2)
                     ∧ index c = Js.parseDigits g1 ∧ page c = Js.parseDigits g2.
Proof.
  unfold main. destruct pageScreenshots as [|s0 l0] eqn:E; [done|]. rewrite <- E.
  set (existing := loadExistingContent contentFile).
  set (todo := filter _ pageScreenshots).
  assert (Htodo : ∀ s, s ∈ todo → s ∈ pageScreenshots ∧ s ∉ screenshot <$> existing).
  { intros s. unfold todo. rewrite list_elem_of_filter, elem_of_list_to_set. tauto. }
  assert (Hlen : (length todo ≤ length pageScreenshots)%nat)
    by apply length_filter.
  destruct todo as [|t0 todo'] eqn:Et.
  - intros [= <- <-]. split; [apply sortChunks_sorted|].
    exists []. rewrite app_nil_r. split; [apply sortChunks_perm|].
    split; [simpl; lia|]. intros c Hc. by apply elem_of_nil in Hc.
  - rewrite <- Et in *.
    destruct (pMap _ todo) as [results|m] eqn:Hmap; [|done].
    intros [= <- <-]. split; [apply sortChunks_sorted|].
    exists (omap id results). split; [apply sortChunks_perm|].
    apply pMap_Ok, new_content_chunks in Hmap as [Hn Hall].
    split; [lia|]. intros c Hc. destruct (Hall c Hc) as (Hs & ? & ? & ?).
    apply Htodo in Hs as [? ?]. by repeat split.
Qed.

End TranscriptionRun.

Lemma transcription_written_manifest_witness :
  Transcribe.main id (Scenario.reads "text") Scenario.unsortedShots None
  = Transcribe.Wrote [Scenario.chunk 0 8 "0-8.png"; Scenario.chunk 2 10 "2-10.png"]
      [Scenario.chunk 0 8 "0-8.png"; Scenario.chunk 2 10 "2-10.png"]
  ∧ Sorted Spec.ascending
      [Scenario.chunk 0 8 "0-8.png"; Scenario.chunk 2 10 "2-10.png"]
  ∧ ∃ content,
      [Scenario.chunk 0 8 "0-8.png"; Scenario.chunk 2 10 "2-10.png"]
      ≡ₚ Transcribe.loadExistingContent None ++ content
      ∧ (length content ≤ length Scenario.unsortedShots)%nat
      ∧ ∀ c, c ∈ content →
          Transcribe.screenshot c ∈ Scenario.unsortedShots
          ∧ (Transcribe.screenshot c
             ∉ Transcribe.screenshot <$> Transcribe.loadExistingContent None)
          ∧ Transcribe.text c ≠ [] ∧ Transcribe.isRefusal (Transcribe.text c) = false
          ∧ ∃ g1 g2,
              Transcribe.matchScreenshot (Transcribe.screenshot c) = Some (g1, g2)
              ∧ Transcribe.index c = Js.parseDigits g1
              ∧ Transcribe.page c = Js.parseDigits g2.
Proof.
  assert (Transcribe.main id (Scenario.reads "text") Scenario.unsortedShots None
          = Transcribe.Wrote
              [Scenario.chunk 0 8 "0-8.png"; Scenario.chunk 2 10 "2-10.png"]
              [Scenario.chunk 0 8 "0-8.png"; Scenario.chunk 2 10 "2-10.png"]) as H
    by (vm_compute; reflexivity).
  split; [exact H|].
  exact (transcription_written_manifest id (Scenario.reads "text")
           Scenario.unsortedShots None _ _ H).
Defined.

(** ** The export to markdown *)

Section MarkdownExport.

Import Markdown Vocabulary.

Implicit Types content : list Transcribe.ContentChunk.


Lemma findIndexFrom_app (i page : Z) (before : list Transcribe.ContentChunk)
    (c : Transcribe.ContentChunk) (after : list Transcribe.ContentChunk) :
  Forall (fun c => Transcribe.page c < page) before → page <= Transcribe.page c →
  findIndexFrom i page (before ++ c :: after) = i + Z.of_nat (length before).
Proof.
  intros Hbefore Hc. revert i.
  induction Hbefore as [|b before Hb _ IH]; intros i; simpl.
  - destruct (Z.leb_spec page (Transcribe.page c)); lia.
  - destruct (Z.leb_spec page (Transcribe.page b)); [lia|]. rewrite IH. lia.
Qed.


Lemma findIndex_app (page : Z) (before : list Transcribe.ContentChunk)
    (c : Transcribe.ContentChunk) (after : list Transcribe.ContentChunk) :
  Forall (fun c => Transcribe.page c < page) before → page <= Transcribe.page c →
  findIndex page (before ++ c :: after) = Z.of_nat (length before).
Proof. intros. unfold findIndex. by rewrite findIndexFrom_app. Qed.


Lemma slice_from (start final : nat) {A} (l : list A) :
  (start ≤ length l)%nat → (final ≤ length l)%nat →
  slice (Z.of_nat start) (Z.of_nat final) l = take (final - start) (drop start l).
Proof.
  intros Hs Hf. unfold slice.
  destruct (Z.ltb_spec (Z.of_nat start) 0); [lia|].
  destruct (Z.ltb_spec (Z.of_nat final) 0); [lia|].
  rewrite !Z.min_l by lia. rewrite Nat2Z.id. f_equal. lia.
Qed.


Lemma sections_step content (tocItem nextTocItem : Toc.TocItem)
    (rest : list Toc.TocItem) :
  sections content (tocItem :: nextTocItem :: rest)
  = match Toc.page tocItem with
    | None => sections content (nextTocItem :: rest)
    | Some p =>
        let endIndex :=
          match Toc.page nextTocItem with
          | Some q => if q =? 0 then Z.of_nat (length content)
                      else findIndex q content
          | None => Z.of_nat (length content)
          end in
        if findIndex p content =? -1 then sections content (nextTocItem :: rest)
        else
          {| entry := tocItem;
             chunks := slice (findIndex p content) endIndex content;
             text := doubleNewlines
                       (join (Js.lit " ")
                          (Transcribe.text
                             <$> slice (findIndex p content) endIndex content)) |}
          :: sections content (nextTocItem :: rest)
    end.
Proof. done. Qed.

Lemma actualProcessableCount_step content (tocItem nextTocItem : Toc.TocItem)
    (rest : list Toc.TocItem) :
  actualProcessableCount content (tocItem :: nextTocItem :: rest)
  = match Toc.page tocItem with
    | None => actualProcessableCount content (nextTocItem :: rest)
    | Some p =>
        if findIndex p content =? -1
        then actualProcessableCount content (nextTocItem :: rest)
        else S (actualProcessableCount content (nextTocItem :: rest))
    end.
Proof. done. Qed.

(** X15.  The export never writes a section for the last entry of the table
    of contents: the entries of the sections form a selection, in order, of
    the entries before the last one, each with a page; and the number of
    sections is the count that the run prints. *)
Theorem last_entry_is_never_exported content (toc : list Toc.TocItem) :
  entry <$> sections content toc `sublist_of` removelast toc
  ∧ Forall (fun s => is_Some (Toc.page (entry s))) (sections content toc)
  ∧ length (sections content toc) = actualProcessableCount content toc.
Proof.
  induction toc as [|tocItem toc IH]; [by repeat split|].
  destruct toc as [|nextTocItem toc']; [by repeat split|].
  destruct IH as (IHs & IHp & IHn).
  change (removelast (tocItem :: nextTocItem :: toc'))
    with (tocItem :: removelast (nextTocItem :: toc')).
  rewrite sections_step, actualProcessableCount_step.
  destruct (Toc.page tocItem) as [p|] eqn:Hp; cbn zeta.
  - destruct (findIndex p content =? -1).
    + split; [by apply sublist_cons|]. by split.
    + rewrite fmap_cons. cbn [entry length].
      split; [by apply sublist_skip|]. split; [|by rewrite IHn].
      constructor; [|done]. cbn [entry]. by rewrite Hp.
  - split; [by apply sublist_cons|]. by split.
Qed.


Lemma filter_all {A} (P : A → Prop) `{!∀ x, Decision (P x)} (l : list A) :
  Forall P l → filter P l = l.
Proof.
  induction 1 as [|x l Hx _ IH]; [done|]. by rewrite filter_cons_True, IH.
Qed.

Lemma filter_none {A} (P : A → Prop) `{!∀ x, Decision (P x)} (l : list A) :
  Forall (fun x => ¬ P x) l → filter P l = [].
Proof.
  induction 1 as [|x l Hx _ IH]; [done|]. by rewrite filter_cons_False.
Qed.

Lemma filter_Forall {A} (P : A → Prop) `{!∀ x, Decision (P x)} (l : list A) :
  Forall P (filter P l).
Proof. apply Forall_forall. by intros x [? _]%list_elem_of_filter. Qed.

(** Content in page order splits at any page. *)
Lemma ordered_split (x : Z) content :
  StronglySorted (fun a b => Transcribe.page a <= Transcribe.page b) content →
  content = filter (fun c => Transcribe.page c < x) content
            ++ filter (fun c => x <= Transcribe.page c) content.
Proof.
  induction 1 as [|c content _ IH Hc]; [done|].
  destruct (Z.lt_ge_cases (Transcribe.page c) x) as [Hlt|Hge].
  - rewrite filter_cons_True, (filter_cons_False (fun c => x <= _)) by lia.
    simpl. by rewrite <- IH.
  - rewrite filter_cons_False, filter_cons_True by lia.
    rewrite filter_none, filter_all; [done|..];
      (eapply Forall_impl; [exact Hc|]); intros c' Hc'; simpl in *; lia.
Qed.

Lemma findIndex_ordered (x : Z) content :
  StronglySorted (fun a b => Transcribe.page a <= Transcribe.page b) content →
  Exists (fun c => x <= Transcribe.page c) content →
  findIndex x content
  = Z.of_nat (length (filter (fun c => Transcribe.page c < x) content)).
Proof.
  intros Hsorted Hex. pose proof (ordered_split x content Hsorted) as Hsplit.
  destruct (filter (fun c => x <= Transcribe.page c) content) as [|c after] eqn:E.
  { apply Exists_exists in Hex as (c & Hin & Hc).
    by destruct (filter_nil_not_elem_of _ _ c E Hc). }
  assert (x <= Transcribe.page c) as Hc.
  { pose proof (filter_Forall (fun c => x <= Transcribe.page c) content) as H.
    rewrite E in H. by apply Forall_inv in H. }
  rewrite Hsplit at 1. apply findIndex_app; [|done]. apply filter_Forall.
Qed.

(** X17.  On content in page order, when some chunk lies at the page of the
    next entry or beyond it, the section of an entry takes exactly the chunks
    from its own page up to, but not including, the page of the next entry. *)
Theorem section_of_ordered_content content
    (tocItem nextTocItem : Toc.TocItem) (rest : list Toc.TocItem) (p q : Z) :
  inPageOrder content →
  Toc.page tocItem = Some p → Toc.page nextTocItem = Some q → q ≠ 0 →
  Exists (fun c => p <= Transcribe.page c) content →
  Exists (fun c => q <= Transcribe.page c) content →
  chunks <$> head (sections content (tocItem :: nextTocItem :: rest))
  = Some (filter (fun c => p <= Transcribe.page c < q) content).
Proof.
  intros Hsorted Hp Hq Hq0 Hexp Hexq.
  apply Sorted_StronglySorted in Hsorted; [|intros a b c; simpl; lia].
  rewrite sections_step, Hp, Hq. cbn zeta.
  destruct (Z.eqb_spec q 0) as [|_]; [done|].
  rewrite !findIndex_ordered by done.
  set (Lp := filter (fun c => Transcribe.page c < p) content).
  set (Lq := filter (fun c => Transcribe.page c < q) content).
  destruct (Z.eqb_spec (Z.of_nat (length Lp)) (-1)) as [|_]; [lia|].
  cbn [head fmap option_fmap option_map chunks]. f_equal.
  pose proof (length_filter (fun c => Transcribe.page c < p) content).
  pose proof (length_filter (fun c => Transcribe.page c < q) content).
  rewrite slice_from by done.
  pose proof (ordered_split p content Hsorted) as Hsplitp. fold Lp in Hsplitp.
  set (Rp := filter (fun c => p <= Transcribe.page c) content) in *.
  assert (drop (length Lp) content = Rp) as ->.
  { rewrite Hsplitp at 1. by rewrite drop_app_length. }
  destruct (Z.le_gt_cases p q) as [Hle|Hgt].
  - assert (StronglySorted (fun a b => Transcribe.page a <= Transcribe.page b) Rp)
      as HRp by (rewrite Hsplitp in Hsorted; by apply StronglySorted_app_1_r in Hsorted).
    pose proof (ordered_split q Rp HRp) as HsplitR.
    assert (filter (fun c => Transcribe.page c < q) Rp
            = filter (fun c => p <= Transcribe.page c < q) content) as HM.
    { unfold Rp. rewrite list_filter_filter. apply list_filter_iff.
      intros c. lia. }
    assert (Lq = Lp ++ filter (fun c => Transcribe.page c < q) Rp) as HLq.
    { unfold Lq. rewrite Hsplitp at 1. rewrite filter_app. f_equal.
      apply filter_all. eapply Forall_impl; [apply filter_Forall|].
      intros c Hc. simpl in *. lia. }
    rewrite <- HM. set (M := filter (fun c => Transcribe.page c < q) Rp) in *.
    rewrite HLq, length_app, HsplitR.
    replace (length Lp + length M - length Lp)%nat with (length M) by lia.
    by rewrite take_app_length.
  - pose proof (ordered_split q content Hsorted) as Hsplitq. fold Lq in Hsplitq.
    assert (length Lq ≤ length Lp)%nat as Hlen.
    { unfold Lp. rewrite Hsplitq at 1. rewrite filter_app, length_app.
      rewrite (filter_all _ Lq); [lia|].
      eapply Forall_impl; [apply filter_Forall|]. intros c Hc. simpl in *. lia. }
    replace (length Lq - length Lp)%nat with 0%nat by lia.
    rewrite take_0. symmetry. apply filter_none, Forall_forall. intros c _. lia.
Qed.

End MarkdownExport.

Section MarkdownExportExamples.

Import Markdown Vocabulary Library.


Lemma section_of_ordered_content_witness :
  inPageOrder threePages
  ∧ Toc.page (chapter "One" 1) = Some 1 ∧ Toc.page (chapter "Two" 3) = Some 3
  ∧ 3 ≠ 0
  ∧ Exists (fun c => 1 <= Transcribe.page c) threePages
  ∧ Exists (fun c => 3 <= Transcribe.page c) threePages
  ∧ chunks <$> head (sections threePages [chapter "One" 1; chapter "Two" 3])
    = Some (filter (fun c => 1 <= Transcribe.page c < 3) threePages).
Proof.
  assert (inPageOrder threePages) as H0
    by (repeat constructor; simpl; lia).
  assert (Toc.page (chapter "One" 1) = Some 1) as H1 by reflexivity.
  assert (Toc.page (chapter "Two" 3) = Some 3) as H2 by reflexivity.
  assert (3 ≠ 0) as H3 by lia.
  assert (Exists (fun c => 1 <= Transcribe.page c) threePages) as H4
    by (apply Exists_cons_hd; simpl; lia).
  assert (Exists (fun c => 3 <= Transcribe.page c) threePages) as H5
    by (apply Exists_cons_tl, Exists_cons_tl, Exists_cons_hd; simpl; lia).
  split; [exact H0|]. split; [exact H1|]. split; [exact H2|]. split; [exact H3|].
  split; [exact H4|]. split; [exact H5|].
  exact (section_of_ordered_content threePages
           (chapter "One" 1) (chapter "Two" 3) [] 1 3 H0 H1 H2 H3 H4 H5).
Defined.

End MarkdownExportExamples.

(** ** The offline check *)

Section OfflineCheck.

Import Extract.

Lemma maximum_pageNumbers (pngFiles : list (list N)) :
  0 <= maximum (pageNumbersOf pngFiles)
  ∧ ((0 <? maximum (pageNumbersOf pngFiles)) = false →
     maximum (pageNumbersOf pngFiles) = 0).
Proof.
  destruct (pageNumbersOf pngFiles) as [|n l] eqn:E; [done|].
  destruct (maximum_greatest (n :: l)) as [Hin _]; [done|].
  rewrite <- E in Hin at 2. apply pageNumbersOf_positive in Hin.
  split; [lia|]. intros H%Z.ltb_ge. lia.
Qed.

(** X18.  With a manifest that states a total number of pages, the offline
    check ends the run exactly when that total is at most the largest of
    three numbers: the entries of the manifest, the PNG files of the pages
    directory, and the highest page number in their names.  A pages directory
    that cannot be listed counts as empty. *)
Theorem offline_check_with_total (existing : BookMetadata)
    (listing : Result (list (list N))) (t : Z) :
  totalPages existing = Some t → t ≠ 0 →
  let entries := default [] (pages existing) in
  let artifacts := match listing with
                   | Ok screenshotFiles => pngFilesOf screenshotFiles
                   | Throw _ => []
                   end in
  appearsComplete false (Some (Json existing)) listing = true
  ↔ t <= Z.max (Z.max (Z.of_nat (length entries)) (Z.of_nat (length artifacts)))
           (maximum (pageNumbersOf artifacts)).
Proof.
  intros Ht Ht0 entries artifacts. unfold appearsComplete. simpl.
  rewrite Ht. destruct (Z.eqb_spec t 0) as [|_]; [done|]. fold entries.
  assert ((let '(actualScreenshots, lastPage) :=
             match listing with
             | Ok screenshotFiles =>
                 (Z.of_nat (length (pngFilesOf screenshotFiles)),
                  maximum (pageNumbersOf (pngFilesOf screenshotFiles)))
             | Throw _ => (0, 0)
             end in
           if (0 <? lastPage) && (t <=? lastPage) then true
           else t <=? Z.max (Z.of_nat (length entries)) actualScreenshots)
          = (if (0 <? maximum (pageNumbersOf artifacts))
                && (t <=? maximum (pageNumbersOf artifacts))
             then true
             else t <=? Z.max (Z.of_nat (length entries))
                          (Z.of_nat (length artifacts)))) as ->
    by (unfold artifacts; by destruct listing).
  destruct (maximum_pageNumbers artifacts) as [Hnonneg Hzero].
  destruct (0 <? maximum (pageNumbersOf artifacts)) eqn:Hpos; simpl.
  - destruct (Z.leb_spec t (maximum (pageNumbersOf artifacts))).
    + split; [lia|done].
    + rewrite Z.leb_le. lia.
  - rewrite Hzero by done. rewrite Z.leb_le. lia.
Qed.

Lemma offline_check_with_total_witness :
  totalPages Scenario.staleManifest = Some 10 ∧ 10 ≠ 0
  ∧ (appearsComplete false (Some (Json Scenario.staleManifest))
       (Ok Scenario.fiveArtifacts) = true
     ↔ 10 <= Z.max (Z.max (Z.of_nat (length (default [] (pages Scenario.staleManifest))))
                      (Z.of_nat (length (pngFilesOf Scenario.fiveArtifacts))))
                (maximum (pageNumbersOf (pngFilesOf Scenario.fiveArtifacts)))).
Proof.
  assert (totalPages Scenario.staleManifest = Some 10) as H1 by reflexivity.
  assert (10 ≠ 0) as H2 by lia.
  split; [exact H1|]. split; [exact H2|].
  exact (offline_check_with_total Scenario.staleManifest
           (Ok Scenario.fiveArtifacts) 10 H1 H2).
Defined.

(** X19.  With a manifest that can be read but states no total number of
    pages (or the total 0), a run without FORCE always ends at the offline
    check: whatever the manifest lists and the pages directory holds, and even
    when both are empty, it opens no reader and extracts nothing. *)
Theorem run_without_total_extracts_nothing (ps : PageSource) (fuel : nat)
    (w : World ps) (i : Inputs) (existing : BookMetadata) :
  force i = false → metadataFile i = Some (Json existing) →
  totalPages existing = None ∨ totalPages existing = Some 0 →
  run ps fuel w i = Some AppearsComplete.
Proof.
  intros Hforce Hfile Htotal. unfold run.
  assert (appearsComplete (force i) (metadataFile i) (readdir (dirListing i)) = true)
    as ->; [|done].
  rewrite Hforce, Hfile. unfold appearsComplete. simpl.
  set (entries := default [] (pages existing)).
  assert (match totalPages existing with
          | Some t => if t =? 0 then Z.of_nat (length entries) else t
          | None => Z.of_nat (length entries)
          end = Z.of_nat (length entries)) as ->
    by (by destruct Htotal as [-> | ->]).
  destruct (match readdir (dirListing i) with Ok _ => _ | Throw _ => _ end)
    as [actualScreenshots lastPage].
  destruct ((0 <? lastPage) && _); [done|]. apply Z.leb_le. lia.
Qed.

Lemma run_without_total_extracts_nothing_witness :
  force {| force := false;
           metadataFile := Some (Json {| totalPages := None; pages := None |});
           pagesDir := Js.lit "out/B0/pages"; dirListing := None;
           tocItems := Scenario.tenPages |} = false
  ∧ run (Scenario.reader 10) 30 1
      {| force := false;
         metadataFile := Some (Json {| totalPages := None; pages := None |});
         pagesDir := Js.lit "out/B0/pages"; dirListing := None;
         tocItems := Scenario.tenPages |}
    = Some AppearsComplete.
Proof.
  split; [reflexivity|].
  exact (run_without_total_extracts_nothing (Scenario.reader 10) 30 1
           {| force := false;
              metadataFile := Some (Json {| totalPages := None; pages := None |});
              pagesDir := Js.lit "out/B0/pages"; dirListing := None;
              tocItems := Scenario.tenPages |}
           {| totalPages := None; pages := None |}
           eq_refl eq_refl (or_introl eq_refl)).
Defined.

End OfflineCheck.

(** ** Reading the table of contents *)

Section TocReading.

Import Reading.

(** X20.  When the table of contents is read without a failed assertion, the
    items are those of the first entries, in order, one for one: each has
    the non-empty text of its entry as title and the position parsed from the
    footer shown for it.  Every item but the last has no page or a page below
    its total; and when entries are left unread the last item has a page at
    its total or beyond it: reading stops there and nowhere else. *)
Theorem readTocItems_reads_a_prefix
    (entries : list (option (list N) * option (list N)))
    (items : list Toc.TocItem) :
  readTocItems entries = Ok items →
  Forall2 (fun e item =>
             e.1 = Some (Toc.title item) ∧ Toc.title item ≠ []
             ∧ Position.parsePageNav e.2
               = Some {| Toc.navPage := Toc.page item;
                         Toc.navLocation := Toc.location item;
                         Toc.navTotal := Toc.total item |})
    (take (length items) entries) items
  ∧ (∀ k item p, items !! k = Some item → (S k < length items)%nat →
       Toc.page item = Some p → p < Toc.total item)
  ∧ ((length items < length entries)%nat →
     ∃ item p, last items = Some item ∧ Toc.page item = Some p
               ∧ Toc.total item <= p).
Proof.
  revert items. induction entries as [|[title footerText] entries IH];
    intros items; cbn [readTocItems].
  { intros [= <-]. split; [constructor|]. split; [by intros k item p Hk|].
    cbn [length]. lia. }
  destruct title as [[|c title]|]; [done| |done].
  destruct (Position.parsePageNav footerText) as [[navPage navLocation navTotal]|]
    eqn:Hnav; [|done].
  cbn [Toc.navPage Toc.navLocation Toc.navTotal].
  set (item := {| Toc.title := c :: title; Toc.page := navPage;
                  Toc.location := navLocation; Toc.total := navTotal |}).
  assert (Hitem : (Some (c :: title), footerText).1 = Some (Toc.title item)
                  ∧ Toc.title item ≠ []
                  ∧ Position.parsePageNav (Some (c :: title), footerText).2
                    = Some {| Toc.navPage := Toc.page item;
                              Toc.navLocation := Toc.location item;
                              Toc.navTotal := Toc.total item |})
    by (by repeat split).
  destruct (match navPage with Some p => navTotal <=? p | None => false end)
    eqn:Hstop.
  - intros [= <-]. split; [|split].
    + cbn [length take]. rewrite take_0. by constructor.
    + intros k item' p Hk Hlt. cbn [length] in Hlt. lia.
    + intros _. destruct navPage as [p|]; [|done]. apply Z.leb_le in Hstop.
      by exists item, p.
  - destruct (readTocItems entries) as [items'|m]; [|done].
    destruct (IH items' eq_refl) as (IH1 & IH2 & IH3).
    intros [= <-]. split; [|split].
    + cbn [length take]. by constructor.
    + intros [|k] item' p Hk Hlt Hp.
      * injection Hk as <-. cbn [Toc.page Toc.total item] in *. subst navPage.
        apply Z.leb_gt in Hstop. lia.
      * cbn [length] in Hlt. apply (IH2 k item' p); [done|lia|done].
    + cbn [length]. intros Hlt.
      destruct IH3 as (item' & p & Hlast & Hp & Hle); [lia|].
      exists item', p. split; [|done].
      destruct items' as [|i0 l0]; [done|]. done.
Qed.

Lemma readTocItems_reads_a_prefix_witness :
  ∃ items,
    readTocItems [(Some (Js.lit "Cover"), Some (Js.lit "Location 1 of 2000"));
                  (Some (Js.lit "Chapter 1"), Some (Js.lit "Page 1 of 10"));
                  (Some (Js.lit "The End"), Some (Js.lit "Page 10 of 10"));
                  (Some (Js.lit "Unread"), Some (Js.lit "Page 11 of 10"))]
    = Ok items
    ∧ Toc.page <$> items = [None; Some 1; Some 10]
    ∧ (length items < 4)%nat
    ∧ ∃ item p, last items = Some item ∧ Toc.page item = Some p
                ∧ Toc.total item <= p.
Proof.
  eexists. split; [vm_compute; reflexivity|]. split; [vm_compute; reflexivity|].
  split; [cbn; lia|].
  eapply (readTocItems_reads_a_prefix
            [(Some (Js.lit "Cover"), Some (Js.lit "Location 1 of 2000"));
             (Some (Js.lit "Chapter 1"), Some (Js.lit "Page 1 of 10"));
             (Some (Js.lit "The End"), Some (Js.lit "Page 10 of 10"));
             (Some (Js.lit "Unread"), Some (Js.lit "Page 11 of 10"))]).
  - vm_compute. reflexivity.
  - cbn. lia.
Defined.

End TocReading.

(** ** A reader that turns its pages *)

Section CooperativeReader.

Import Extract Scenario.

Lemma toString_inj (a b : Z) :
  0 <= a → 0 <= b → Js.toString a = Js.toString b → a = b.
Proof.
  intros Ha Hb H. rewrite <- (parseDigits_toString a), <- (parseDigits_toString b)
    by done. by rewrite H.
Qed.

Variable total : Z.

Lemma skipAdvance_idle (remaining retries : nat) (w : World (reader total)) :
  (1 ≤ retries)%nat → (retries + remaining ≤ 10)%nat →
  ∃ e, skipAdvance (reader total) remaining retries w = (RetriesExhausted, w, e).
Proof.
  revert retries. induction remaining as [|remaining IH]; intros retries H1 H10.
  { by eexists. }
  cbn [skipAdvance].
  rewrite bool_decide_eq_false_2
    by (rewrite Nat.mod_small by lia; lia).
  cbn [getSrc reader]. rewrite bool_decide_eq_false_2 by (by intros []).
  destruct (IH (S retries)) as [e ->]; [lia..|]. by eexists.
Qed.

Lemma skipAdvance_request (remaining : nat) (w : World (reader total)) :
  (remaining ≤ 9)%nat →
  ∃ e, skipAdvance (reader total) (S remaining) 0 w = (RetriesExhausted, w + 1, e).
Proof.
  intros Hle. cbn [skipAdvance]. rewrite bool_decide_eq_true_2 by done.
  cbn [clickNext getSrc reader]. rewrite bool_decide_eq_false_2 by (by intros []).
  destruct (skipAdvance_idle remaining 1 (w + 1)) as [e ->]; [lia..|]. by eexists.
Qed.

Lemma skipAdvance_turns_one_page (w : World (reader total)) :
  ∃ e, skipAdvance (reader total) 10 0 w = (RetriesExhausted, w + 1, e).
Proof. apply (skipAdvance_request 9). lia. Qed.

Lemma advance_turns_one_page (fuel : nat) (w : World (reader total)) :
  0 <= w →
  advance (reader total) (S fuel) (Some (Js.lit "blob:" ++ Js.toString w)) false 0 w
  = Some (SrcChanged, w + 1, [NextPageRequest; SrcRead]).
Proof.
  intros Hw. cbn [advance]. rewrite bool_decide_eq_true_2 by done.
  cbn [clickNext getSrc reader]. rewrite bool_decide_eq_true_2; [done|].
  intros [= H%toString_inj]; lia.
Qed.

Variable force : bool.
Variable pagesDir : list N.
Variable pagePadding : nat.
Variable totalContentPages : Z.

Lemma captureLoop_turns_every_page (n fuel : nat) (s : Session (reader total)) :
  0 <= world _ s → Z.of_nat n = Z.max 0 (totalContentPages - world _ s) →
  (n < fuel)%nat →
  ∃ s',
    captureLoop (reader total) force pagesDir pagePadding totalContentPages fuel s
    = Some (Ok s')
    ∧ page <$> sessionPages _ s'
      = (page <$> sessionPages _ s) ++ seqZ (world _ s) (Z.of_nat n).
Proof.
  revert fuel s. induction n as [|n IH]; intros [|fuel] s Hw Hn Hfuel; try lia;
    cbn [captureLoop]; cbn [getPageNav reader Toc.navPage].
  - destruct (Z.leb_spec totalContentPages (world _ s)); [|lia].
    eexists. split; [done|]. cbn [sessionPages]. by rewrite app_nil_r.
  - destruct (Z.leb_spec totalContentPages (world _ s)); [lia|].
    assert (∀ s1 : Session (reader total),
              (world _ s1 : Z) = (world _ s : Z) + 1 →
              page <$> sessionPages _ s1
              = (page <$> sessionPages _ s) ++ [(world _ s : Z)] →
              ∃ s',
                captureLoop (reader total) force pagesDir pagePadding
                  totalContentPages fuel s1 = Some (Ok s')
                ∧ page <$> sessionPages _ s'
                  = (page <$> sessionPages _ s)
                    ++ seqZ (world _ s) (Z.of_nat (S n))) as Hnext.
    { intros s1 Hw1 Hp1. destruct (IH fuel s1) as (s' & Hs' & Hpages); [lia..|].
      exists s'. split; [done|]. rewrite Hpages, Hp1, Hw1, <- app_assoc.
      f_equal. rewrite (seqZ_cons _ (Z.of_nat (S n))) by lia. simpl. do 2 f_equal.
      all: lia. }
    destruct (negb force && _).
    + destruct (skipAdvance_turns_one_page (world _ s)) as [e ->].
      apply Hnext; [done|]. cbn [sessionPages]. by rewrite fmap_app.
    + cbn [getSrc takeScreenshot reader].
      destruct fuel as [|fuel]; [lia|].
      rewrite advance_turns_one_page by done.
      apply Hnext; [done|]. cbn [sessionPages]. by rewrite fmap_app.
Qed.

Lemma captureLoop_on_reader (fuel : nat) (s : Session (reader total)) :
  0 <= world _ s → (Z.to_nat (totalContentPages - world _ s) < fuel)%nat →
  ∃ s',
    captureLoop (reader total) force pagesDir pagePadding totalContentPages fuel s
    = Some (Ok s')
    ∧ page <$> sessionPages _ s'
      = (page <$> sessionPages _ s)
        ++ seqZ (world _ s) (totalContentPages - world _ s).
Proof.
  intros Hw Hfuel.
  destruct (captureLoop_turns_every_page
              (Z.to_nat (totalContentPages - world _ s)) fuel s)
    as (s' & Hs' & Hpages); [done|lia|done|].
  exists s'. split; [done|]. rewrite Hpages. f_equal.
  unfold seqZ. by rewrite Nat2Z.id.
Qed.

(** X23.  On a reader that turns one page at each request and shows a fresh
    image on every page, the capture loop started on page [w] ends, given
    fuel for one round per page and one more, and it records every page from
    [w] up to [totalContentPages - 1] once, in order, whether it finds the
    screenshots in the directory or writes them. *)
Theorem captureLoop_records_every_page_once (fuel : nat)
    (s : Session (reader total)) :
  0 <= world _ s → (Z.to_nat (totalContentPages - world _ s) < fuel)%nat →
  ∃ s',
    captureLoop (reader total) force pagesDir pagePadding totalContentPages fuel s
    = Some (Ok s')
    ∧ page <$> sessionPages _ s'
      = (page <$> sessionPages _ s)
        ++ seqZ (world _ s) (totalContentPages - world _ s).
Proof. apply captureLoop_on_reader. Qed.

End CooperativeReader.

Section CompleteRun.

Import Extract Scenario.

Lemma captureLoop_records_every_page_once_witness :
  0 <= 7 ∧ (Z.to_nat (10 - 7) < 30)%nat
  ∧ ∃ s',
      captureLoop (reader 10) false (Js.lit "out/B0/pages") 2 10 30
        {| world := 7 : World (reader 10); sessionPages := [];
           files := [Js.lit "00-07.png"]; trace := [] |}
      = Some (Ok s')
      ∧ page <$> sessionPages _ s' = [] ++ seqZ 7 (10 - 7).
Proof.
  assert (0 <= 7) as H1 by lia.
  assert (Z.to_nat (10 - 7) < 30)%nat as H2 by (vm_compute; lia).
  split; [exact H1|]. split; [exact H2|].
  exact (captureLoop_records_every_page_once 10 false (Js.lit "out/B0/pages") 2 10 30
           {| world := 7 : World (reader 10); sessionPages := [];
              files := [Js.lit "00-07.png"]; trace := [] |} H1 H2).
Defined.



End CompleteRun.
